(** * blog-backend: the comment, blog and account routes over their Mongoose models

    A shallow embedding of [models/Comment.js], the Blog model, the comment
    routes, [routes/blogs.js] and [routes/auth.js].  A collection is a finite
    map from [_id] to document; a route handler is a function from the
    database to a response and the database it leaves behind. *)

From stdpp Require Import gmap strings list fin_maps sorting.
From Stdlib Require Import ZArith.

Local Open Scope Z_scope.

(** ** Values shared by the models *)

(** A MongoDB ObjectId, kept abstract as a number. *)
Abbreviation ObjectId := positive.

(** A JavaScript [Date], in milliseconds. *)
Abbreviation Date := Z.

(** ** The JavaScript array and string operations the models call *)

Module JS.

(** [arr.indexOf(x)]: the first index holding [x], or [-1]. *)
Definition indexOf (arr : list ObjectId) (x : ObjectId) : Z :=
  match list_find (λ y, y = x) arr with
  | Some (i, _) => Z.of_nat i
  | None => -1
  end.

(** [arr.splice(start, 1)] for a [start] inside the array: the element at
    [start] is taken out. *)
Definition splice1 (arr : list ObjectId) (start : Z) : list ObjectId :=
  delete (Z.to_nat start) arr.

(** [arr.push(x)]. *)
Definition push (arr : list ObjectId) (x : ObjectId) : list ObjectId :=
  arr ++ [x].

(** A JavaScript string: the sequence of its UTF-16 code units.  [length],
    [substring], [trim] and [split] count and cut code units.  Strings that
    the code only compares or passes on (names, emails, passwords, messages,
    the [status] keyword) are kept as Rocq strings. *)
Definition str : Type := list N.

(** An ASCII literal as a JavaScript string. *)
Fixpoint lit (s : string) : str :=
  match s with
  | String a s' => N.of_nat (Ascii.nat_of_ascii a) :: lit s'
  | EmptyString => []
  end.

(** White space as [String.prototype.trim] sees it: the code points
    WhiteSpace and LineTerminator of ECMAScript (TAB, LF, VT, FF, CR, SP,
    NBSP, U+1680, U+2000 to U+200A, LS, PS, U+202F, U+205F, U+3000 and
    U+FEFF), each a single code unit. *)
Definition is_space (u : N) : bool :=
  bool_decide (u ∈ [9; 10; 11; 12; 13; 32; 160; 5760; 8192; 8193; 8194; 8195;
                    8196; 8197; 8198; 8199; 8200; 8201; 8202; 8232; 8233;
                    8239; 8287; 12288; 65279]%N).

Fixpoint trimStart (s : str) : str :=
  match s with
  | u :: s' => if is_space u then trimStart s' else s
  | [] => []
  end.

Definition trim (s : str) : str :=
  reverse (trimStart (reverse (trimStart s))).

(** [s.substring(0, n)]. *)
Definition substring0 (n : nat) (s : str) : str := take n s.

(** Truthiness of an optional string ([undefined] and [''] are falsy). *)
Definition truthy (s : option str) : bool :=
  match s with
  | Some s => negb (bool_decide (s = []))
  | None => false
  end.

(** [parseInt(q) || d], where [q] is [None] when [parseInt] gives [NaN]. *)
Definition parseInt_or (q : option Z) (d : Z) : Z :=
  match q with
  | Some n => if n =? 0 then d else n
  | None => d
  end.

(** [Math.ceil(a / b)] for integers [a] and [b], [b] not zero. *)
Definition ceil_div (a b : Z) : Z := - ((- a) `div` b).

(** A JavaScript number is an IEEE 754 double; the model carries the
    integer-valued ones below the overflow threshold.  [to_double z] is the
    double nearest to the integer [z], ties to the even significand: an
    integer of magnitude at most [2 ^ 53] is a double, a larger one is
    rounded to 53 significant bits. *)
Definition to_double (z : Z) : Z :=
  if Z.abs z <=? 2 ^ 53 then z
  else
    let e := Z.log2 (Z.abs z) - 52 in
    let q := Z.abs z `div` 2 ^ e in
    let r := Z.abs z `mod` 2 ^ e in
    let q' := if 2 * r <? 2 ^ e then q
              else if 2 ^ e <? 2 * r then q + 1
              else if Z.even q then q else q + 1 in
    Z.sgn z * (q' * 2 ^ e).

(** [x + y] on numbers. *)
Definition add (x y : Z) : Z := to_double (x + y).

End JS.

Coercion JS.lit : string >-> JS.str.

(** What a model operation throws: a Mongoose [ValidationError], or an error
    answered by the database server. *)
Inductive Exn := ValidationError | MongoServerError.

(** [.sort({ createdAt: -1 })] and [.sort({ createdAt: 1 })]. *)
Inductive Sort := newest_first | oldest_first.

(** The cursor options [.skip(skip).limit(limit)] applied to the sorted
    matches.  The server refuses a negative [skip]; a negative [limit] is
    read as its absolute value and [0] as no limit. *)
Definition cursor {A} (skip limit : Z) (l : list A) : Exn + list A :=
  if skip <? 0 then inl MongoServerError
  else if limit =? 0 then inr (drop (Z.to_nat skip) l)
  else inr (take (Z.abs_nat limit) (drop (Z.to_nat skip) l)).

(** ** The User model *)

(** The [role] of a user: ['user'] or ['admin']. *)
Inductive Role := role_user | role_admin.

Global Instance Role_eq_dec : EqDecision Role.
Proof. solve_decision. Defined.

Module User.

(** Modelled from the spec: the schema of models/User, which the routes and
    the seeding script import: identity, name, email, password hash, role,
    avatar and bio. *)
Record t := mk {
  _id : ObjectId;
  name : string;
  email : string;
  password : string;
  role : Role;
  avatar : string;
  bio : string
}.

Definition docs (coll : gmap ObjectId t) : list t := (map_to_list coll).*2.

(** [User.findOne({ email })]. *)
Definition findOne_email (coll : gmap ObjectId t) (e : string) : option t :=
  head (filter (λ u, email u = e) (docs coll)).

Definition findById (coll : gmap ObjectId t) (id : ObjectId) : option t :=
  coll !! id.

Definition set_role (r : Role) (this : t) : t :=
  mk (_id this) (name this) (email this) (password this) r (avatar this)
    (bio this).

Definition set_password (p : string) (this : t) : t :=
  mk (_id this) (name this) (email this) p (role this) (avatar this)
    (bio this).

(** Modelled from the spec: [User.create({ name, email, password, role })]
    under the generated [_id] [id], with the schema of models/User: the
    first three fields are required, the password is hashed before it is
    stored ([hash]), the role is ['user'] unless given. *)
Definition create (hash : string → string) (id : ObjectId)
    (n e p : option string) (r : option Role) (coll : gmap ObjectId t)
    : Exn + (t * gmap ObjectId t) :=
  match n, e, p with
  | Some n, Some e, Some p =>
      let doc := mk id n e (hash p) (default role_user r)
                   ""%string ""%string in
      inr (doc, <[_id doc := doc]> coll)
  | _, _, _ => inl ValidationError
  end.

(** [user.save()] on a document read from the collection; the caller
    hashes a password it has changed, as the model does before storing. *)
Definition save (this : t) (coll : gmap ObjectId t) : gmap ObjectId t :=
  <[_id this := this]> coll.

Definition findByIdAndDelete (coll : gmap ObjectId t) (id : ObjectId)
    : gmap ObjectId t :=
  delete id coll.

End User.

(** ** models/Comment.js *)

Module Comment.

Record t := mk {
  _id : ObjectId;
  content : JS.str;
  author : ObjectId;
  blog : ObjectId;
  parentComment : option ObjectId;
  isEdited : bool;
  editedAt : option Date;
  likes : list ObjectId;
  isActive : bool;
  createdAt : Date;
  updatedAt : Date
}.

Global Instance t_eq_dec : EqDecision t.
Proof. solve_decision. Defined.

(** A request body, restricted to the paths of the schema (Mongoose drops
    the others); [None] is an absent field.  The [_id] and the timestamps
    are left to the database. *)
Record Body := mkBody {
  b_content : option JS.str;
  b_author : option ObjectId;
  b_blog : option ObjectId;
  b_parentComment : option (option ObjectId);
  b_isEdited : option bool;
  b_editedAt : option Date;
  b_likes : option (list ObjectId);
  b_isActive : option bool
}.

Definition set_author (a : ObjectId) (b : Body) : Body :=
  mkBody (b_content b) (Some a) (b_blog b) (b_parentComment b)
    (b_isEdited b) (b_editedAt b) (b_likes b) (b_isActive b).

Definition set_blog (x : ObjectId) (b : Body) : Body :=
  mkBody (b_content b) (b_author b) (Some x) (b_parentComment b)
    (b_isEdited b) (b_editedAt b) (b_likes b) (b_isActive b).

Definition set_parentComment (p : ObjectId) (b : Body) : Body :=
  mkBody (b_content b) (b_author b) (b_blog b) (Some (Some p))
    (b_isEdited b) (b_editedAt b) (b_likes b) (b_isActive b).

Definition set_likes (l : list ObjectId) (this : t) : t :=
  mk (_id this) (content this) (author this) (blog this)
    (parentComment this) (isEdited this) (editedAt this) l
    (isActive this) (createdAt this) (updatedAt this).

Definition set_edited (d : Date) (this : t) : t :=
  mk (_id this) (content this) (author this) (blog this)
    (parentComment this) true (Some d) (likes this)
    (isActive this) (createdAt this) (updatedAt this).

Definition set_updatedAt (d : Date) (this : t) : t :=
  mk (_id this) (content this) (author this) (blog this)
    (parentComment this) (isEdited this) (editedAt this) (likes this)
    (isActive this) (createdAt this) d.

(** The paths of the schema, for [isModified]. *)
Inductive Path :=
  p_content | p_author | p_blog | p_parentComment | p_isEdited
| p_editedAt | p_likes | p_isActive.

Global Instance Path_eq_dec : EqDecision Path.
Proof. solve_decision. Defined.

(** The validators of the [content] path: required, at least 1 and at
    most 1000 characters ([value.length], in code units). *)
Definition valid (this : t) : bool :=
  bool_decide (1 ≤ length (content this))%nat
  && bool_decide (length (content this) ≤ 1000)%nat.

(** Validation of an update under [runValidators: true]: the validators of
    [content] when the update sets it. *)
Definition valid_update (body : Body) (doc : t) : bool :=
  if b_content body is Some _ then valid doc else true.

(** [new Comment(body)] under the schema's setters and defaults. *)
Definition build (id : ObjectId) (now : Date) (body : Body) : option t :=
  content ← b_content body;
  author ← b_author body;
  blog ← b_blog body;
  Some (mk id (JS.trim content) author blog
          (default None (b_parentComment body))
          (default false (b_isEdited body))
          (b_editedAt body)
          (default [] (b_likes body))
          (default true (b_isActive body)) now now).

(** The update document of [findByIdAndUpdate(id, body)]. *)
Definition apply_update (now : Date) (body : Body) (this : t) : t :=
  mk (_id this)
    (default (content this) (JS.trim <$> b_content body))
    (default (author this) (b_author body))
    (default (blog this) (b_blog body))
    (default (parentComment this) (b_parentComment body))
    (default (isEdited this) (b_isEdited body))
    (match b_editedAt body with Some d => Some d | None => editedAt this end)
    (default (likes this) (b_likes body))
    (default (isActive this) (b_isActive body))
    (createdAt this) now.

(** [commentSchema.pre('save')]: [this.isModified('content') && !this.isNew]
    marks the comment as edited. *)
Definition pre_save (isNew : bool) (modified : list Path) (now : Date)
    (this : t) : t :=
  if bool_decide (p_content ∈ modified) && negb isNew
  then set_edited now this
  else this.

Definition docs (coll : gmap ObjectId t) : list t := (map_to_list coll).*2.

Definition findById (coll : gmap ObjectId t) (id : ObjectId) : option t :=
  coll !! id.

(** [this.save()] on a document read from the collection: the pre-save
    hook runs, [timestamps] refreshes [updatedAt], and the document is
    written back under its [_id].  Nothing is written when no path was
    modified.  A stored document is taken to pass the validators it was
    written under. *)
Definition save (modified : list Path) (now : Date) (this : t)
    (coll : gmap ObjectId t) : t * gmap ObjectId t :=
  match modified with
  | [] => (this, coll)
  | _ =>
      let this := set_updatedAt now (pre_save false modified now this) in
      (this, <[_id this := this]> coll)
  end.

(** [commentSchema.methods.toggleLike]. *)
Definition toggleLike (userId : ObjectId) (now : Date) (this : t)
    (coll : gmap ObjectId t) : t * gmap ObjectId t :=
  let likeIndex := JS.indexOf (likes this) userId in
  let this :=
    if likeIndex >? -1
    then set_likes (JS.splice1 (likes this) likeIndex) this
    else set_likes (JS.push (likes this) userId) this in
  save [p_likes] now this coll.

(** The paths a body sets on a new document. *)
Definition body_paths (body : Body) : list Path :=
  (if b_content body is Some _ then [p_content] else [])
  ++ (if b_author body is Some _ then [p_author] else [])
  ++ (if b_blog body is Some _ then [p_blog] else [])
  ++ (if b_parentComment body is Some _ then [p_parentComment] else [])
  ++ (if b_isEdited body is Some _ then [p_isEdited] else [])
  ++ (if b_editedAt body is Some _ then [p_editedAt] else [])
  ++ (if b_likes body is Some _ then [p_likes] else [])
  ++ (if b_isActive body is Some _ then [p_isActive] else []).

(** [Comment.create(body)]: a new document under the generated [_id]
    [id], validated, passed through the pre-save hook as a new document,
    and inserted. *)
Definition create (id : ObjectId) (now : Date) (body : Body)
    (coll : gmap ObjectId t) : Exn + (t * gmap ObjectId t) :=
  match build id now body with
  | Some doc =>
      if valid doc
      then let doc := pre_save true (body_paths body) now doc in
           inr (doc, <[_id doc := doc]> coll)
      else inl ValidationError
  | None => inl ValidationError
  end.

(** [Comment.findByIdAndUpdate(id, body, { new: true, runValidators: true })]:
    the update is applied in the database without the save hooks; the
    validators of an updated [content] run.  The result is the updated
    document, or [null] when no document has this id. *)
Definition findByIdAndUpdate (runValidators : bool) (id : ObjectId)
    (now : Date) (body : Body) (coll : gmap ObjectId t)
    : Exn + (option t * gmap ObjectId t) :=
  match coll !! id with
  | Some this =>
      let doc := apply_update now body this in
      if runValidators && negb (valid_update body doc)
      then inl ValidationError
      else inr (Some doc, <[id := doc]> coll)
  | None => inr (None, coll)
  end.

(** [.sort({ createdAt: -1 })] and [.sort({ createdAt: 1 })]. *)
Definition newer (a b : t) : Prop := createdAt b ≤ createdAt a.
Definition older (a b : t) : Prop := createdAt a ≤ createdAt b.

Global Instance newer_dec : RelDecision newer.
Proof. intros a b. unfold newer. apply _. Defined.

Global Instance older_dec : RelDecision older.
Proof. intros a b. unfold older. apply _. Defined.

Definition sorted (ord : Sort) (l : list t) : list t :=
  match ord with
  | newest_first => merge_sort newer l
  | oldest_first => merge_sort older l
  end.

(** [Comment.find(filter).sort(...).skip(skip).limit(limit)]. *)
Definition find (P : t → Prop) `{!∀ c, Decision (P c)} (ord : Sort)
    (skip limit : Z) (coll : gmap ObjectId t) : Exn + list t :=
  cursor skip limit (sorted ord (filter P (docs coll))).

(** [Comment.countDocuments(filter)]. *)
Definition countDocuments (P : t → Prop) `{!∀ c, Decision (P c)}
    (coll : gmap ObjectId t) : Z :=
  Z.of_nat (length (filter P (docs coll))).

(** The populate virtual [likeCount]: [ref: 'User'], [localField: 'likes'],
    [foreignField: '_id'], [count: true] counts the User documents whose
    [_id] is among [likes]. *)
Definition likeCount (users : gmap ObjectId User.t) (this : t) : nat :=
  length (filter (λ u, User._id u ∈ likes this) (User.docs users)).

(** The populate virtual [repliesCount]: the Comment documents whose
    [parentComment] is this [_id]. *)
Definition repliesCount (coll : gmap ObjectId t) (this : t) : nat :=
  length (filter (λ c, parentComment c = Some (_id this)) (docs coll)).

End Comment.

(** ** The Blog model *)

Inductive Status := draft | published.

Global Instance Status_eq_dec : EqDecision Status.
Proof. solve_decision. Defined.

Module Blog.

(** A post.  [views] is a JavaScript number; the model carries the
    integer-valued doubles. *)
Record t := mk {
  _id : ObjectId;
  title : JS.str;
  content : JS.str;
  excerpt : JS.str;
  author : ObjectId;
  tags : list JS.str;
  featuredImage : JS.str;
  status : Status;
  views : Z;
  likes : list ObjectId;
  isPublished : bool;
  createdAt : Date;
  updatedAt : Date
}.

(** A request body, restricted to the paths of the schema; [None] is an
    absent field. *)
Record Body := mkBody {
  b_title : option JS.str;
  b_content : option JS.str;
  b_excerpt : option JS.str;
  b_author : option ObjectId;
  b_tags : option (list JS.str);
  b_featuredImage : option JS.str;
  b_status : option string;
  b_views : option Z;
  b_likes : option (list ObjectId);
  b_isPublished : option bool
}.

Definition set_author (a : ObjectId) (b : Body) : Body :=
  mkBody (b_title b) (b_content b) (b_excerpt b) (Some a) (b_tags b)
    (b_featuredImage b) (b_status b) (b_views b) (b_likes b) (b_isPublished b).

Definition set_excerpt (e : JS.str) (b : Body) : Body :=
  mkBody (b_title b) (b_content b) (Some e) (b_author b) (b_tags b)
    (b_featuredImage b) (b_status b) (b_views b) (b_likes b) (b_isPublished b).

Definition set_views (v : Z) (this : t) : t :=
  mk (_id this) (title this) (content this) (excerpt this) (author this)
    (tags this) (featuredImage this) (status this) v (likes this)
    (isPublished this) (createdAt this) (updatedAt this).

Definition set_likes (l : list ObjectId) (this : t) : t :=
  mk (_id this) (title this) (content this) (excerpt this) (author this)
    (tags this) (featuredImage this) (status this) (views this) l
    (isPublished this) (createdAt this) (updatedAt this).

Definition set_updatedAt (d : Date) (this : t) : t :=
  mk (_id this) (title this) (content this) (excerpt this) (author this)
    (tags this) (featuredImage this) (status this) (views this) (likes this)
    (isPublished this) (createdAt this) d.

(** The [enum: ['draft', 'published']] of the [status] path. *)
Definition cast_status (s : string) : option Status :=
  if bool_decide (s = "draft"%string) then Some draft
  else if bool_decide (s = "published"%string) then Some published
  else None.

(** The validators the schema declares: [title] required and at most 200
    characters, [content] required and at least 50, [excerpt] at most 500
    ([value.length], in code units). *)
Definition valid_title (s : JS.str) : bool :=
  negb (bool_decide (s = [])) && bool_decide (length s ≤ 200)%nat.

Definition valid_content (s : JS.str) : bool :=
  bool_decide (50 ≤ length s)%nat.

Definition valid_excerpt (s : JS.str) : bool :=
  bool_decide (length s ≤ 500)%nat.

(** Validation of a new document. *)
Definition valid (this : t) : bool :=
  valid_title (title this) && valid_content (content this)
  && valid_excerpt (excerpt this).

(** Validation of an update under [runValidators: true]: the validators of
    the paths the update sets. *)
Definition valid_update (body : Body) (doc : t) : bool :=
  (if b_title body is Some _ then valid_title (title doc) else true)
  && (if b_content body is Some _ then valid_content (content doc) else true)
  && (if b_excerpt body is Some _ then valid_excerpt (excerpt doc) else true).

(** [new Blog(body)]: the body's fields under the schema's setters
    ([trim]) and defaults.  [None] when a required path is missing or the
    status is outside the enum. *)
Definition build (id : ObjectId) (now : Date) (body : Body) : option t :=
  title ← b_title body;
  content ← b_content body;
  author ← b_author body;
  status ← match b_status body with
           | Some s => cast_status s
           | None => Some published
           end;
  Some (mk id (JS.trim title) content (default [] (b_excerpt body))
          author (JS.trim <$> default [] (b_tags body))
          (default [] (b_featuredImage body)) status
          (default 0 (b_views body)) (default [] (b_likes body))
          (default true (b_isPublished body)) now now).

(** The update document of [findByIdAndUpdate(id, body)]: every field the
    body carries is set, the others are kept; [updatedAt] is refreshed by
    the schema's [timestamps] option.  [None] when the status is outside
    the enum. *)
Definition apply_update (now : Date) (body : Body) (this : t) : option t :=
  status ← match b_status body with
           | Some s => cast_status s
           | None => Some (status this)
           end;
  Some (mk (_id this)
          (default (title this) (JS.trim <$> b_title body))
          (default (content this) (b_content body))
          (default (excerpt this) (b_excerpt body))
          (default (author this) (b_author body))
          (default (tags this) (fmap (M:=list) JS.trim <$> b_tags body))
          (default (featuredImage this) (b_featuredImage body))
          status
          (default (views this) (b_views body))
          (default (likes this) (b_likes body))
          (default (isPublished this) (b_isPublished body))
          (createdAt this) now).

Definition docs (coll : gmap ObjectId t) : list t := (map_to_list coll).*2.

Definition findById (coll : gmap ObjectId t) (id : ObjectId) : option t :=
  coll !! id.

(** [this.save()] after a modification, on a document read from the
    collection: [timestamps] refreshes [updatedAt] and the document is
    written back under its [_id]. *)
Definition save (now : Date) (this : t) (coll : gmap ObjectId t)
    : t * gmap ObjectId t :=
  let this := set_updatedAt now this in
  (this, <[_id this := this]> coll).

(** [blogSchema.methods.incrementViews]: [this.views += 1] in number
    arithmetic, then [this.save()].  When the sum is the number [views]
    held already, no path is modified and the save writes nothing. *)
Definition incrementViews (now : Date) (this : t) (coll : gmap ObjectId t)
    : t * gmap ObjectId t :=
  let views' := JS.add (views this) 1 in
  if bool_decide (views' = views this) then (this, coll)
  else
    let this := set_views views' this in
    save now this coll.

(** [blogSchema.methods.toggleLike]. *)
Definition toggleLike (userId : ObjectId) (now : Date) (this : t)
    (coll : gmap ObjectId t) : t * gmap ObjectId t :=
  let likeIndex := JS.indexOf (likes this) userId in
  let this :=
    if likeIndex >? -1
    then set_likes (JS.splice1 (likes this) likeIndex) this
    else set_likes (JS.push (likes this) userId) this in
  save now this coll.

(** [Blog.create(body)], under the generated [_id] [id]. *)
Definition create (id : ObjectId) (now : Date) (body : Body)
    (coll : gmap ObjectId t) : Exn + (t * gmap ObjectId t) :=
  match build id now body with
  | Some doc =>
      if valid doc then inr (doc, <[_id doc := doc]> coll)
      else inl ValidationError
  | None => inl ValidationError
  end.

(** [Blog.findByIdAndUpdate(id, body, { new: true, runValidators: true })]. *)
Definition findByIdAndUpdate (id : ObjectId) (now : Date) (body : Body)
    (coll : gmap ObjectId t) : Exn + (option t * gmap ObjectId t) :=
  match coll !! id with
  | Some this =>
      match apply_update now body this with
      | Some doc =>
          if valid_update body doc then inr (Some doc, <[id := doc]> coll)
          else inl ValidationError
      | None => inl ValidationError
      end
  | None => inr (None, coll)
  end.

Definition findByIdAndDelete (coll : gmap ObjectId t) (id : ObjectId)
    : gmap ObjectId t :=
  delete id coll.

(** The populate virtual [commentCount]: [ref: 'Comment'],
    [localField: '_id'], [foreignField: 'blog'], [count: true] counts the
    Comment documents whose [blog] is this [_id]. *)
Definition commentCount (comments : gmap ObjectId Comment.t) (this : t) : nat :=
  length (filter (λ c, Comment.blog c = _id this) (Comment.docs comments)).

(** The populate virtual [likeCount]: the User documents whose [_id] is
    among [likes]. *)
Definition likeCount (users : gmap ObjectId User.t) (this : t) : nat :=
  length (filter (λ u, User._id u ∈ likes this) (User.docs users)).

End Blog.


(** ** The database and the responses *)

(** The three collections, and the ObjectIds generated so far: an ObjectId
    is never generated twice, also after its document is gone. *)
Record DB := mkDB {
  users : gmap ObjectId User.t;
  blogs : gmap ObjectId Blog.t;
  comments : gmap ObjectId Comment.t;
  issued : gset ObjectId
}.

Definition set_users (u : gmap ObjectId User.t) (db : DB) : DB :=
  mkDB u (blogs db) (comments db) (issued db).

Definition set_blogs (b : gmap ObjectId Blog.t) (db : DB) : DB :=
  mkDB (users db) b (comments db) (issued db).

Definition set_comments (c : gmap ObjectId Comment.t) (db : DB) : DB :=
  mkDB (users db) (blogs db) c (issued db).

(** The ObjectId the next [create] generates. *)
Definition new_ObjectId (db : DB) : ObjectId :=
  fresh (dom (users db) ∪ dom (blogs db) ∪ dom (comments db) ∪ issued db).

Definition issue (id : ObjectId) (db : DB) : DB :=
  mkDB (users db) (blogs db) (comments db) ({[id]} ∪ issued db).

(** A bearer token, kept abstract as a number. *)
Abbreviation Token := positive.

(** A document as a response serialises it, with the virtuals the query
    populated. *)
Record CommentView := mkCommentView {
  cv_doc : Comment.t;
  cv_likeCount : option nat;
  cv_repliesCount : option nat
}.

Record BlogView := mkBlogView {
  bv_doc : Blog.t;
  bv_commentCount : option nat;
  bv_likeCount : option nat
}.

(** The [{ count, total, page, pages, data }] of a list response. *)
Record Listing := mkListing {
  count : Z;
  total : Z;
  page : Z;
  pages : Z;
  items : list CommentView
}.

Inductive Data :=
| no_data
| blog_data (b : option BlogView)
| comment_data (c : option Comment.t)
| comment_list (l : Listing)
| auth_data (token : Token) (userId : ObjectId).

Record Response := res {
  status : Z;
  success : bool;
  message : string;
  data : Data
}.

(** The query string of a list request: [parseInt] of [page] and of
    [limit], [None] when it gives [NaN]. *)
Record Paging := mkPaging {
  q_page : option Z;
  q_limit : option Z
}.

(** The body of a registration request. *)
Record RegisterBody := mkRegisterBody {
  rb_name : option string;
  rb_email : option string;
  rb_password : option string
}.

(** ** The collaborators of the routes

    The routes import the User model's password hashing and token
    signing, the token verification of the auth middleware and the request
    validators.  They are parameters of the development.  A validator
    answers [None] when it rejects the request and otherwise the body it
    hands on; the registration validator hands on the three required
    fields. *)
Class Deps := {
  hashPassword : string → string;
  getSignedJwtToken : User.t → Token;
  verifyToken : Token → option ObjectId;
  validateUserRegistration : RegisterBody → option (string * string * string);
  validateBlog : Blog.Body → option Blog.Body;
  validateComment : Comment.Body → option Comment.Body
}.

(** ** middleware/auth and middleware/errorHandler *)

Definition unauthenticated : Response := res 401 false "Unauthenticated" no_data.
Definition forbidden : Response := res 403 false "Forbidden" no_data.
Definition not_found : Response := res 404 false "NotFound" no_data.
Definition validation_failed : Response := res 400 false "ValidationFailed" no_data.

(** Modelled from the spec: the error handler of middleware/errorHandler
    maps a validation failure to status 400; any other error thrown in a
    handler is answered with status 500. *)
Definition errorHandler (e : Exn) : Response :=
  match e with
  | ValidationError => validation_failed
  | MongoServerError => res 500 false "Server Error" no_data
  end.

(** Modelled from the spec: [protect] of middleware/auth resolves a valid
    token to a live User record; a missing or invalid token, or a token of a
    user that no longer exists, is [Unauthenticated]. *)
Definition protect `{Deps} (auth : option Token) (db : DB) : Response + User.t :=
  match auth with
  | Some token =>
      match verifyToken token with
      | Some id =>
          match User.findById (users db) id with
          | Some u => inr u
          | None => inl unauthenticated
          end
      | None => inl unauthenticated
      end
  | None => inl unauthenticated
  end.

(** Modelled from the spec: [authorize(role)] of middleware/auth fails with
    [Forbidden] when the principal's role does not meet the requirement;
    [admin] satisfies any requirement. *)
Definition authorize (required : Role) (principal : User.t) : option Response :=
  if bool_decide (User.role principal = required)
     || bool_decide (User.role principal = role_admin)
  then None else Some forbidden.

(** Modelled from the spec: [authorizeOwnership(principal, resource)] passes
    when [principal.id == resource.author] or [principal.role == admin]. *)
Definition authorizeOwnership (principal : User.t) (resource_author : ObjectId) : bool :=
  bool_decide (User._id principal = resource_author)
  || bool_decide (User.role principal = role_admin).

(** Modelled from the spec: [checkOwnership(Model, param)] of middleware/auth
    looks the resource up by the route parameter; a missing resource is
    [NotFound], a failed ownership check is [Forbidden], otherwise the
    request goes on ([None]). *)
Definition checkOwnership (resource_author : option ObjectId) (principal : User.t)
    : option Response :=
  match resource_author with
  | Some a => if authorizeOwnership principal a then None else Some forbidden
  | None => Some not_found
  end.

(** ** routes/auth.js *)

Module Auth.
Section routes.
Context `{Deps}.

(** POST /api/auth/register *)
Definition register (body : RegisterBody) (db : DB) : Response * DB :=
  match validateUserRegistration body with
  | Some (name, email, password) =>
      match User.findOne_email (users db) email with
      | Some existingUser =>
          (res 400 false "User already exists with this email" no_data, db)
      | None =>
          match User.create hashPassword (new_ObjectId db) (Some name)
                  (Some email) (Some password) None (users db) with
          | inr (user, coll) =>
              let token := getSignedJwtToken user in
              (res 201 true "User registered successfully"
                 (auth_data token (User._id user)),
               issue (User._id user) (set_users coll db))
          | inl e => (errorHandler e, db)
          end
      end
  | None => (validation_failed, db)
  end.

(** DELETE /api/auth/account *)
Definition delete_account (auth : option Token) (db : DB) : Response * DB :=
  match protect auth db with
  | inr req_user =>
      let coll := User.findByIdAndDelete (users db) (User._id req_user) in
      (res 200 true "Account deleted successfully" no_data, set_users coll db)
  | inl r => (r, db)
  end.

End routes.
End Auth.

(** ** routes/blogs.js *)

Module Blogs.
Section routes.
Context `{Deps}.

(** The excerpt both writing routes derive:
    [req.body.content.substring(0, 200) + '...']. *)
Definition derived_excerpt (content : option JS.str) : JS.str :=
  JS.substring0 200 (default [] content) ++ JS.lit "...".

(** GET /api/blogs/:id *)
Definition get_id (id : ObjectId) (now : Date) (db : DB) : Response * DB :=
  match Blog.findById (blogs db) id with
  | Some blog =>
      let commentCount := Blog.commentCount (comments db) blog in
      let likeCount := Blog.likeCount (users db) blog in
      let '(blog, coll) := Blog.incrementViews now blog (blogs db) in
      (res 200 true ""
         (blog_data (Some (mkBlogView blog (Some commentCount) (Some likeCount)))),
       set_blogs coll db)
  | None => (res 404 false "Blog not found" no_data, db)
  end.

(** POST /api/blogs *)
Definition create (auth : option Token) (body : Blog.Body) (now : Date)
    (db : DB) : Response * DB :=
  match protect auth db with
  | inr req_user =>
      match validateBlog body with
      | Some body =>
          let body := Blog.set_author (User._id req_user) body in
          let body :=
            if negb (JS.truthy (Blog.b_excerpt body))
               && JS.truthy (Blog.b_content body)
            then Blog.set_excerpt (derived_excerpt (Blog.b_content body)) body
            else body in
          match Blog.create (new_ObjectId db) now body (blogs db) with
          | inr (blog, coll) =>
              (res 201 true "Blog created successfully"
                 (blog_data (Some (mkBlogView blog None None))),
               issue (Blog._id blog) (set_blogs coll db))
          | inl e => (errorHandler e, db)
          end
      | None => (validation_failed, db)
      end
  | inl r => (r, db)
  end.

(** PUT /api/blogs/:id *)
Definition update (auth : option Token) (id : ObjectId) (body : Blog.Body)
    (now : Date) (db : DB) : Response * DB :=
  match protect auth db with
  | inr req_user =>
      match checkOwnership (Blog.author <$> Blog.findById (blogs db) id)
              req_user with
      | None =>
          match validateBlog body with
          | Some body =>
              let body :=
                if JS.truthy (Blog.b_content body)
                   && negb (JS.truthy (Blog.b_excerpt body))
                then Blog.set_excerpt (derived_excerpt (Blog.b_content body)) body
                else body in
              match Blog.findByIdAndUpdate id now body (blogs db) with
              | inr (blog, coll) =>
                  (res 200 true "Blog updated successfully"
                     (blog_data ((λ b, mkBlogView b None None) <$> blog)),
                   set_blogs coll db)
              | inl e => (errorHandler e, db)
              end
          | None => (validation_failed, db)
          end
      | Some r => (r, db)
      end
  | inl r => (r, db)
  end.

(** DELETE /api/blogs/:id *)
Definition delete (auth : option Token) (id : ObjectId) (db : DB)
    : Response * DB :=
  match protect auth db with
  | inr req_user =>
      match checkOwnership (Blog.author <$> Blog.findById (blogs db) id)
              req_user with
      | None =>
          let coll := Blog.findByIdAndDelete (blogs db) id in
          (res 200 true "Blog deleted successfully" no_data, set_blogs coll db)
      | Some r => (r, db)
      end
  | inl r => (r, db)
  end.

(** PUT /api/blogs/:id/like *)
Definition like (auth : option Token) (id : ObjectId) (now : Date) (db : DB)
    : Response * DB :=
  match protect auth db with
  | inr req_user =>
      match Blog.findById (blogs db) id with
      | Some blog =>
          let '(blog, coll) :=
            Blog.toggleLike (User._id req_user) now blog (blogs db) in
          (res 200 true "Blog like toggled successfully"
             (blog_data (Some (mkBlogView blog None None))),
           set_blogs coll db)
      | None => (res 404 false "Blog not found" no_data, db)
      end
  | inl r => (r, db)
  end.

End routes.
End Blogs.

(** ** The comment routes *)

Module Comments.
Section routes.
Context `{Deps}.

(** The JSON of a list response. *)
Definition list_response (page limit total : Z) (views : list CommentView)
    : Response :=
  res 200 true ""
    (comment_list
       (mkListing (Z.of_nat (length views)) total page
          (JS.ceil_div total limit) views)).

(** GET /api/comments/:blogId *)
Definition list_for_blog (blogId : ObjectId) (q : Paging) (db : DB) : Response :=
  let page := JS.parseInt_or (q_page q) 1 in
  let limit := JS.parseInt_or (q_limit q) 10 in
  let skip := (page - 1) * limit in
  match Blog.findById (blogs db) blogId with
  | Some blog =>
      match Comment.find
              (λ c, Comment.blog c = blogId ∧ Comment.isActive c = true
                    ∧ Comment.parentComment c = None)
              newest_first skip limit (comments db) with
      | inr found =>
          let total :=
            Comment.countDocuments
              (λ c, Comment.blog c = blogId ∧ Comment.isActive c = true
                    ∧ Comment.parentComment c = None)
              (comments db) in
          list_response page limit total
            ((λ c, mkCommentView c
                     (Some (Comment.likeCount (users db) c))
                     (Some (Comment.repliesCount (comments db) c)))
               <$> found)
      | inl e => errorHandler e
      end
  | None => res 404 false "Blog not found" no_data
  end.

(** GET /api/comments/:commentId/replies *)
Definition list_replies (commentId : ObjectId) (q : Paging) (db : DB) : Response :=
  let page := JS.parseInt_or (q_page q) 1 in
  let limit := JS.parseInt_or (q_limit q) 10 in
  let skip := (page - 1) * limit in
  match Comment.find
          (λ c, Comment.parentComment c = Some commentId
                ∧ Comment.isActive c = true)
          oldest_first skip limit (comments db) with
  | inr replies =>
      let total :=
        Comment.countDocuments
          (λ c, Comment.parentComment c = Some commentId
                ∧ Comment.isActive c = true)
          (comments db) in
      list_response page limit total
        ((λ c, mkCommentView c (Some (Comment.likeCount (users db) c)) None)
           <$> replies)
  | inl e => errorHandler e
  end.

(** POST /api/comments/:blogId *)
Definition create (auth : option Token) (blogId : ObjectId)
    (body : Comment.Body) (now : Date) (db : DB) : Response * DB :=
  match protect auth db with
  | inr req_user =>
      match validateComment body with
      | Some body =>
          match Blog.findById (blogs db) blogId with
          | Some blog =>
              let body := Comment.set_author (User._id req_user) body in
              let body := Comment.set_blog blogId body in
              match Comment.create (new_ObjectId db) now body (comments db) with
              | inr (comment, coll) =>
                  (res 201 true "Comment added successfully"
                     (comment_data (Some comment)),
                   issue (Comment._id comment) (set_comments coll db))
              | inl e => (errorHandler e, db)
              end
          | None => (res 404 false "Blog not found" no_data, db)
          end
      | None => (validation_failed, db)
      end
  | inl r => (r, db)
  end.

(** POST /api/comments/:commentId/reply *)
Definition reply (auth : option Token) (commentId : ObjectId)
    (body : Comment.Body) (now : Date) (db : DB) : Response * DB :=
  match protect auth db with
  | inr req_user =>
      match validateComment body with
      | Some body =>
          match Comment.findById (comments db) commentId with
          | Some parentComment =>
              let body := Comment.set_author (User._id req_user) body in
              let body := Comment.set_blog (Comment.blog parentComment) body in
              let body := Comment.set_parentComment commentId body in
              match Comment.create (new_ObjectId db) now body (comments db) with
              | inr (reply, coll) =>
                  (res 201 true "Reply added successfully"
                     (comment_data (Some reply)),
                   issue (Comment._id reply) (set_comments coll db))
              | inl e => (errorHandler e, db)
              end
          | None => (res 404 false "Parent comment not found" no_data, db)
          end
      | None => (validation_failed, db)
      end
  | inl r => (r, db)
  end.

(** PUT /api/comments/:id *)
Definition update (auth : option Token) (id : ObjectId) (body : Comment.Body)
    (now : Date) (db : DB) : Response * DB :=
  match protect auth db with
  | inr req_user =>
      match checkOwnership
              (Comment.author <$> Comment.findById (comments db) id)
              req_user with
      | None =>
          match validateComment body with
          | Some body =>
              match Comment.findByIdAndUpdate true id now body (comments db) with
              | inr (comment, coll) =>
                  (res 200 true "Comment updated successfully"
                     (comment_data comment),
                   set_comments coll db)
              | inl e => (errorHandler e, db)
              end
          | None => (validation_failed, db)
          end
      | Some r => (r, db)
      end
  | inl r => (r, db)
  end.

(** The update document [{ isActive: false }] of the soft delete. *)
Definition soft_delete_update : Comment.Body :=
  Comment.mkBody None None None None None None None (Some false).

(** DELETE /api/comments/:id *)
Definition delete (auth : option Token) (id : ObjectId) (now : Date)
    (db : DB) : Response * DB :=
  match protect auth db with
  | inr req_user =>
      match checkOwnership
              (Comment.author <$> Comment.findById (comments db) id)
              req_user with
      | None =>
          match Comment.findByIdAndUpdate false id now soft_delete_update
                  (comments db) with
          | inr (_, coll) =>
              (res 200 true "Comment deleted successfully" no_data,
               set_comments coll db)
          | inl e => (errorHandler e, db)
          end
      | Some r => (r, db)
      end
  | inl r => (r, db)
  end.

(** PUT /api/comments/:id/like *)
Definition like (auth : option Token) (id : ObjectId) (now : Date) (db : DB)
    : Response * DB :=
  match protect auth db with
  | inr req_user =>
      match Comment.findById (comments db) id with
      | Some comment =>
          let '(comment, coll) :=
            Comment.toggleLike (User._id req_user) now comment (comments db) in
          (res 200 true "Comment like toggled successfully"
             (comment_data (Some comment)),
           set_comments coll db)
      | None => (res 404 false "Comment not found" no_data, db)
      end
  | inl r => (r, db)
  end.

(** GET /api/comments/user/:userId *)
Definition list_for_user (userId : ObjectId) (q : Paging) (db : DB) : Response :=
  let page := JS.parseInt_or (q_page q) 1 in
  let limit := JS.parseInt_or (q_limit q) 10 in
  let skip := (page - 1) * limit in
  match Comment.find
          (λ c, Comment.author c = userId ∧ Comment.isActive c = true)
          newest_first skip limit (comments db) with
  | inr found =>
      let total :=
        Comment.countDocuments
          (λ c, Comment.author c = userId ∧ Comment.isActive c = true)
          (comments db) in
      list_response page limit total
        ((λ c, mkCommentView c (Some (Comment.likeCount (users db) c)) None)
           <$> found)
  | inl e => errorHandler e
  end.

(** GET /api/comments/admin/all *)
Definition list_all (auth : option Token) (q : Paging) (db : DB) : Response :=
  match protect auth db with
  | inr req_user =>
      match authorize role_admin req_user with
      | None =>
          let page := JS.parseInt_or (q_page q) 1 in
          let limit := JS.parseInt_or (q_limit q) 10 in
          let skip := (page - 1) * limit in
          match Comment.find (λ _, True) newest_first skip limit
                  (comments db) with
          | inr found =>
              let total := Comment.countDocuments (λ _, True) (comments db) in
              list_response page limit total
                ((λ c, mkCommentView c
                         (Some (Comment.likeCount (users db) c)) None)
                   <$> found)
          | inl e => errorHandler e
          end
      | Some r => r
      end
  | inl r => r
  end.

End routes.
End Comments.

(** ** The admin seeding script *)

Module Scripts.
Section scripts.
Context `{Deps}.

(** [seedAdmin()], with [reset] for the [--reset-password] flag. *)
Definition seedAdmin (name email password : string) (reset : bool) (db : DB)
    : DB :=
  match User.findOne_email (users db) email with
  | Some user =>
      if bool_decide (User.role user ≠ role_admin)
      then
        let user := User.set_role role_admin user in
        let user :=
          if reset then User.set_password (hashPassword password) user
          else user in
        set_users (User.save user (users db)) db
      else db
  | None =>
      match User.create hashPassword (new_ObjectId db) (Some name)
              (Some email) (Some password) (Some role_admin) (users db) with
      | inr (user, coll) => issue (User._id user) (set_users coll db)
      | inl _ => db
      end
  end.

End scripts.
End Scripts.

(** ** The API as a transition system

    The requests of the routes that write posts and comments or list
    comments, the two account routes that create and remove the users they
    refer to, and a run of the seeding script.  The remaining routes (the
    post listings, login, profile and password) read posts or write users
    only. *)

Inductive Request :=
| POST_auth_register (body : RegisterBody)
| DELETE_auth_account (auth : option Token)
| GET_blogs_id (id : ObjectId)
| POST_blogs (auth : option Token) (body : Blog.Body)
| PUT_blogs_id (auth : option Token) (id : ObjectId) (body : Blog.Body)
| DELETE_blogs_id (auth : option Token) (id : ObjectId)
| PUT_blogs_id_like (auth : option Token) (id : ObjectId)
| GET_comments_blogId (blogId : ObjectId) (q : Paging)
| GET_comments_replies (commentId : ObjectId) (q : Paging)
| POST_comments_blogId (auth : option Token) (blogId : ObjectId) (body : Comment.Body)
| POST_comments_reply (auth : option Token) (commentId : ObjectId) (body : Comment.Body)
| PUT_comments_id (auth : option Token) (id : ObjectId) (body : Comment.Body)
| DELETE_comments_id (auth : option Token) (id : ObjectId)
| PUT_comments_id_like (auth : option Token) (id : ObjectId)
| GET_comments_user (userId : ObjectId) (q : Paging)
| GET_comments_admin_all (auth : option Token) (q : Paging)
| seed_admin (name email password : string) (reset : bool).

Section api.
Context `{Deps}.

(** One request served at time [now]. *)
Definition api (now : Date) (rq : Request) (db : DB) : Response * DB :=
  match rq with
  | POST_auth_register body => Auth.register body db
  | DELETE_auth_account auth => Auth.delete_account auth db
  | GET_blogs_id id => Blogs.get_id id now db
  | POST_blogs auth body => Blogs.create auth body now db
  | PUT_blogs_id auth id body => Blogs.update auth id body now db
  | DELETE_blogs_id auth id => Blogs.delete auth id db
  | PUT_blogs_id_like auth id => Blogs.like auth id now db
  | GET_comments_blogId blogId q => (Comments.list_for_blog blogId q db, db)
  | GET_comments_replies commentId q => (Comments.list_replies commentId q db, db)
  | POST_comments_blogId auth blogId body => Comments.create auth blogId body now db
  | POST_comments_reply auth commentId body => Comments.reply auth commentId body now db
  | PUT_comments_id auth id body => Comments.update auth id body now db
  | DELETE_comments_id auth id => Comments.delete auth id now db
  | PUT_comments_id_like auth id => Comments.like auth id now db
  | GET_comments_user userId q => (Comments.list_for_user userId q db, db)
  | GET_comments_admin_all auth q => (Comments.list_all auth q db, db)
  | seed_admin name email password reset =>
      (res 0 true "Done." no_data,
       Scripts.seedAdmin name email password reset db)
  end.

(** A run of timed requests, served one after the other. *)
Fixpoint run (trace : list (Date * Request)) (db : DB) : DB :=
  match trace with
  | [] => db
  | (now, rq) :: trace => run trace (api now rq db).2
  end.

End api.

Definition empty_db : DB := mkDB ∅ ∅ ∅ ∅.

(** The states the API reaches from the empty database. *)
Definition reachable `{Deps} (db : DB) : Prop :=
  ∃ trace, run trace empty_db = db.

(** ** A concrete instance of the collaborators *)

(** A required string field is there and not empty. *)
Definition present (s : option JS.str) : bool := JS.truthy s.

(** Modelled from the spec: the request validator guarantees that the
    required fields are present and hands the body on as it is; a token
    names the user it was issued to.  The hash marks the password. *)
Definition checkDeps : Deps := {|
  hashPassword := λ p, ("hashed:" +:+ p)%string;
  getSignedJwtToken := User._id;
  verifyToken := Some;
  validateUserRegistration := λ b,
    match rb_name b, rb_email b, rb_password b with
    | Some n, Some e, Some p => Some (n, e, p)
    | _, _, _ => None
    end;
  validateBlog := λ b,
    if present (Blog.b_title b) && present (Blog.b_content b) then Some b else None;
  validateComment := λ b,
    if present (Comment.b_content b) then Some b else None
|}.

(** ** Notions used in the statements *)

(** The array [toggleLike] leaves in [likes], as both models compute it. *)
Definition toggled (likes : list ObjectId) (userId : ObjectId) : list ObjectId :=
  if JS.indexOf likes userId >? -1
  then JS.splice1 likes (JS.indexOf likes userId)
  else JS.push likes userId.

(** The like-set an array of likes stands for. *)
Definition like_set (likes : list ObjectId) : gset ObjectId := list_to_set likes.

(** What one toggle by [u] does to a like-set. *)
Definition flipped (S : gset ObjectId) (u : ObjectId) : gset ObjectId :=
  if decide (u ∈ S) then S ∖ {[u]} else S ∪ {[u]}.

(** Sample documents for the concrete checks. *)
Definition sample_content : JS.str :=
  JS.lit
    "This is a test blog post content. It should be at least 50 characters long.".

Definition sample_blog (id author : ObjectId) (likes : list ObjectId) : Blog.t :=
  Blog.mk id "Test Blog Post" sample_content "" author [] "" published 0 likes
    true 1000 1000.

Definition sample_comment (id author blog : ObjectId) (parent : option ObjectId)
    (likes : list ObjectId) (active : bool) : Comment.t :=
  Comment.mk id "This is a test comment." author blog parent false None likes
    active 1000 1000.

(** Every document is stored under its own [_id]. *)
Definition keyed_by_id (db : DB) : Prop :=
  map_Forall (λ i u, User._id u = i) (users db)
  ∧ map_Forall (λ i b, Blog._id b = i) (blogs db)
  ∧ map_Forall (λ i c, Comment._id c = i) (comments db).

(** The posts and comments of [db] that [db'] still holds have the author
    they had. *)
Definition authors_kept (db db' : DB) : Prop :=
  (∀ i b b', blogs db !! i = Some b → blogs db' !! i = Some b' →
             Blog.author b' = Blog.author b)
  ∧ (∀ i c c', comments db !! i = Some c → comments db' !! i = Some c' →
               Comment.author c' = Comment.author c).

(** An update request whose body, as the validator hands it on, carries an
    [author] field. *)
Definition carries_author `{Deps} (rq : Request) : Prop :=
  match rq with
  | PUT_blogs_id _ _ body =>
      ∃ body', validateBlog body = Some body' ∧ is_Some (Blog.b_author body')
  | PUT_comments_id _ _ body =>
      ∃ body', validateComment body = Some body'
               ∧ is_Some (Comment.b_author body')
  | _ => False
  end.

(** Requests for the concrete checks. *)
Definition register_request (name email password : string) : Request :=
  POST_auth_register (mkRegisterBody (Some name) (Some email) (Some password)).

Definition comment_body (content : JS.str) : Comment.Body :=
  Comment.mkBody (Some content) None None None None None None None.

Definition blog_body (title content : JS.str) : Blog.Body :=
  Blog.mkBody (Some title) (Some content) None None None None None None None None.

(** Alice (1) and Bob (2) register, Alice writes post 3, Bob comments on it
    (4), Alice replies (5), Bob deletes his comment. *)
Definition thread_trace : list (Date * Request) :=
  [ (1, register_request "Alice" "alice@example.com" "TestPassword123");
    (2, register_request "Bob" "bob@example.com" "TestPassword456");
    (3, POST_blogs (Some 1%positive) (blog_body "Test Blog Post" sample_content));
    (4, POST_comments_blogId (Some 2%positive) 3%positive
          (comment_body "This is a test comment on the blog post."));
    (5, POST_comments_reply (Some 1%positive) 4%positive (comment_body "A reply."));
    (6, DELETE_comments_id (Some 2%positive) 4%positive) ].

Definition thread_db : DB := run (H:=checkDeps) thread_trace empty_db.

(** Bob's soft-deleted comment, as [thread_db] holds it. *)
Definition deleted_comment : Comment.t :=
  Comment.mk 4 "This is a test comment on the blog post." 2 3 None false None []
    false 4 6.

(** A reply body whose caller names another author, blog and parent. *)
Definition forged_reply_body : Comment.Body :=
  Comment.mkBody (Some (JS.lit "A reply.")) (Some 9%positive) (Some 9%positive)
    (Some (Some 9%positive)) None None None None.


(** The accounts and Alice's reply, as [thread_db] holds them. *)
Definition alice : User.t :=
  User.mk 1 "Alice" "alice@example.com" "hashed:TestPassword123" role_user "" "".

Definition bob : User.t :=
  User.mk 2 "Bob" "bob@example.com" "hashed:TestPassword456" role_user "" "".

Definition alice_reply : Comment.t :=
  Comment.mk 5 "A reply." 1 3 (Some 4%positive) false None [] true 5 5.

(** A post with its view counter and its [updatedAt] stamp blanked: what a
    fetch is compared on. *)
Definition but_views_and_updatedAt (b : Blog.t) : Blog.t :=
  Blog.set_views 0 (Blog.set_updatedAt 0 b).

(** Fetches of post [id], one at each of the given times. *)
Definition fetches (id : ObjectId) (times : list Date) : list (Date * Request) :=
  (λ t, (t, GET_blogs_id id)) <$> times.

(** After the thread, Alice writes a post (6) whose body carries a view
    counter of [2 ^ 53]. *)
Definition saturated_body : Blog.Body :=
  Blog.mkBody (Some (JS.lit "Counter")) (Some sample_content) None None None
    None None (Some (2 ^ 53)) None None.

Definition saturated_db : DB :=
  run (H:=checkDeps)
    (thread_trace ++ [ (7, POST_blogs (Some 1%positive) saturated_body) ])
    empty_db.

Definition saturated_post : Blog.t :=
  Blog.mk 6 "Counter" sample_content
    (JS.substring0 200 sample_content ++ JS.lit "...") 1 [] "" published
    (2 ^ 53) [] true 7 7.

(** An update body that hands the comment to another author. *)
Definition reassigning_body : Comment.Body :=
  Comment.mkBody (Some (JS.lit "A reply.")) (Some 2%positive) None None None None
    None None.

(** After the thread, Bob likes Alice's post and then deletes his account. *)
Definition orphan_like_trace : list (Date * Request) :=
  thread_trace
  ++ [ (7, PUT_blogs_id_like (Some 2%positive) 3%positive);
       (8, DELETE_auth_account (Some 2%positive)) ].

Definition orphan_like_db : DB := run (H:=checkDeps) orphan_like_trace empty_db.

(** The ids of [likes] that are the id of a stored user. *)
Definition existing_likers (users : gmap ObjectId User.t)
    (likes : list ObjectId) : list ObjectId :=
  filter (λ i, is_Some (users !! i)) likes.

(** After the thread, the seeding script creates the admin (6). *)
Definition moderated_trace : list (Date * Request) :=
  thread_trace ++ [ (7, seed_admin "Admin" "admin@example.com" "ChangeMe123" false) ].

Definition moderated_db : DB := run (H:=checkDeps) moderated_trace empty_db.

(** Alice (1) and Bob (2) register, and Alice creates post 3 with a body
    that carries a [likes] array: Bob's id, twice. *)
Definition duplicate_likes_trace : list (Date * Request) :=
  [ (1, register_request "Alice" "alice@example.com" "TestPassword123");
    (2, register_request "Bob" "bob@example.com" "TestPassword456");
    (3, POST_blogs (Some 1%positive)
          (Blog.mkBody (Some (JS.lit "Test Blog Post")) (Some sample_content)
             None None None None None None (Some [2; 2]%positive) None)) ].

Definition duplicate_likes_db : DB :=
  run (H:=checkDeps) duplicate_likes_trace empty_db.

(** ** The static queries of the models *)

Module Statics.

(** [commentSchema.statics.getRepliesForComment]: the active replies to a
    comment, oldest first. *)
Definition getRepliesForComment (commentId : ObjectId)
    (coll : gmap ObjectId Comment.t) : list Comment.t :=
  Comment.sorted oldest_first
    (filter (λ c, Comment.parentComment c = Some commentId
                  ∧ Comment.isActive c = true)
       (Comment.docs coll)).

(** [.sort({ createdAt: -1 })] on posts. *)
Definition newer (a b : Blog.t) : Prop := Blog.createdAt b ≤ Blog.createdAt a.

Global Instance newer_dec : RelDecision newer.
Proof. intros a b. unfold newer. apply _. Defined.

(** [blogSchema.statics.getPublishedBlogs]. *)
Definition getPublishedBlogs (coll : gmap ObjectId Blog.t) : list Blog.t :=
  merge_sort newer
    (filter (λ b, Blog.status b = published ∧ Blog.isPublished b = true)
       (Blog.docs coll)).

(** [blogSchema.statics.getBlogsByAuthor]. *)
Definition getBlogsByAuthor (authorId : ObjectId)
    (coll : gmap ObjectId Blog.t) : list Blog.t :=
  merge_sort newer (filter (λ b, Blog.author b = authorId) (Blog.docs coll)).

(** [Blog.find(filter).sort({ createdAt: -1 }).skip(skip).limit(limit)]. *)
Definition find (P : Blog.t → Prop) `{!∀ b, Decision (P b)}
    (skip limit : Z) (coll : gmap ObjectId Blog.t) : Exn + list Blog.t :=
  cursor skip limit (merge_sort newer (filter P (Blog.docs coll))).

(** [Blog.countDocuments(filter)]. *)
Definition countDocuments (P : Blog.t → Prop) `{!∀ b, Decision (P b)}
    (coll : gmap ObjectId Blog.t) : Z :=
  Z.of_nat (length (filter P (Blog.docs coll))).

End Statics.

(** ** The post listings of routes/blogs.js *)

(** [s.split(',')]. *)
Fixpoint split_comma (s : JS.str) : list JS.str :=
  match s with
  | [] => [[]]
  | u :: s' =>
      if bool_decide (u = 44%N)
      then [] :: split_comma s'
      else match split_comma s' with
           | x :: rest => (u :: x) :: rest
           | [] => [[u]]
           end
  end.

(** The query string of GET /api/blogs: the paging, [search], [tags] and
    [author]. *)
Record BlogQuery := mkBlogQuery {
  bq_paging : Paging;
  bq_search : option JS.str;
  bq_tags : option JS.str;
  bq_author : option ObjectId
}.

(** The [{ count, total, page, pages, data }] of a post listing. *)
Record BlogListing := mkBlogListing {
  bl_count : Z;
  bl_total : Z;
  bl_page : Z;
  bl_pages : Z;
  bl_items : list BlogView
}.

Module BlogLists.
Section routes.
Context `{Deps}.

(** The [$text] search of the database on the text index of the posts. *)
Variable text_search : JS.str → Blog.t → bool.

(** The filter GET /api/blogs builds: published posts, narrowed by the
    search, by [tags: { $in: tags }] and by the author when the query has
    them. *)
Definition public_filter (q : BlogQuery) (b : Blog.t) : Prop :=
  (Blog.status b = published ∧ Blog.isPublished b = true)
  ∧ (if JS.truthy (bq_search q)
     then text_search (default [] (bq_search q)) b = true else True)
  ∧ (if JS.truthy (bq_tags q)
     then Exists (λ t, t ∈ split_comma (default [] (bq_tags q))) (Blog.tags b)
     else True)
  ∧ (if bq_author q is Some a then Blog.author b = a else True).

Global Instance public_filter_dec q b : Decision (public_filter q b).
Proof.
  unfold public_filter.
  destruct (JS.truthy (bq_search q)), (JS.truthy (bq_tags q)), (bq_author q);
    apply _.
Defined.

(** The JSON of a post listing; the queries populate both counts. *)
Definition respond (db : DB) (page limit total : Z) (found : list Blog.t)
    : BlogListing :=
  mkBlogListing (Z.of_nat (length found)) total page (JS.ceil_div total limit)
    ((λ b, mkBlogView b (Some (Blog.commentCount (comments db) b))
                        (Some (Blog.likeCount (users db) b))) <$> found).

(** GET /api/blogs *)
Definition list_public (q : BlogQuery) (db : DB) : Response + BlogListing :=
  let page := JS.parseInt_or (q_page (bq_paging q)) 1 in
  let limit := JS.parseInt_or (q_limit (bq_paging q)) 10 in
  let skip := (page - 1) * limit in
  match Statics.find (public_filter q) skip limit (blogs db) with
  | inr found =>
      let total := Statics.countDocuments (public_filter q) (blogs db) in
      inr (respond db page limit total found)
  | inl e => inl (errorHandler e)
  end.

(** GET /api/blogs/user/:userId *)
Definition list_for_user (userId : ObjectId) (q : Paging) (db : DB)
    : Response + BlogListing :=
  let page := JS.parseInt_or (q_page q) 1 in
  let limit := JS.parseInt_or (q_limit q) 10 in
  let skip := (page - 1) * limit in
  match Statics.find
          (λ b, Blog.author b = userId ∧ Blog.status b = published
                ∧ Blog.isPublished b = true)
          skip limit (blogs db) with
  | inr found =>
      let total :=
        Statics.countDocuments
          (λ b, Blog.author b = userId ∧ Blog.status b = published
                ∧ Blog.isPublished b = true)
          (blogs db) in
      inr (respond db page limit total found)
  | inl e => inl (errorHandler e)
  end.

(** GET /api/blogs/my/blogs *)
Definition list_mine (auth : option Token) (q : Paging) (db : DB)
    : Response + BlogListing :=
  match protect auth db with
  | inr req_user =>
      let page := JS.parseInt_or (q_page q) 1 in
      let limit := JS.parseInt_or (q_limit q) 10 in
      let skip := (page - 1) * limit in
      match Statics.find (λ b, Blog.author b = User._id req_user)
              skip limit (blogs db) with
      | inr found =>
          let total :=
            Statics.countDocuments (λ b, Blog.author b = User._id req_user)
              (blogs db) in
          inr (respond db page limit total found)
      | inl e => inl (errorHandler e)
      end
  | inl r => inl r
  end.

(** GET /api/blogs/admin/all *)
Definition list_all (auth : option Token) (q : Paging) (db : DB)
    : Response + BlogListing :=
  match protect auth db with
  | inr req_user =>
      match authorize role_admin req_user with
      | None =>
          let page := JS.parseInt_or (q_page q) 1 in
          let limit := JS.parseInt_or (q_limit q) 10 in
          let skip := (page - 1) * limit in
          match Statics.find (λ _, True) skip limit (blogs db) with
          | inr found =>
              let total := Statics.countDocuments (λ _, True) (blogs db) in
              inr (respond db page limit total found)
          | inl e => inl (errorHandler e)
          end
      | Some r => inl r
      end
  | inl r => inl r
  end.

End routes.
End BlogLists.

(** ** The login route of routes/auth.js *)

(** The body of a login request. *)
Record LoginBody := mkLoginBody {
  lb_email : option string;
  lb_password : option string
}.

Module Login.
Section routes.
Context `{Deps}.

(** [user.matchPassword(entered)] of the User model, on the entered
    password and the stored hash; and the login validator, which hands on
    the two required fields. *)
Variable matchPassword : string → string → bool.
Variable validateUserLogin : LoginBody → option (string * string).

(** POST /api/auth/login *)
Definition login (body : LoginBody) (db : DB) : Response :=
  match validateUserLogin body with
  | Some (email, password) =>
      match User.findOne_email (users db) email with
      | Some user =>
          let isMatch := matchPassword password (User.password user) in
          if isMatch
          then res 200 true "Login successful"
                 (auth_data (getSignedJwtToken user) (User._id user))
          else res 401 false "Invalid credentials" no_data
      | None => res 401 false "Invalid credentials" no_data
      end
  | None => validation_failed
  end.

End routes.
End Login.

(** ** Notions used in the further statements *)

(** No two stored users have the same email. *)
Definition unique_emails (db : DB) : Prop :=
  ∀ i j u v, users db !! i = Some u → users db !! j = Some v →
             User.email u = User.email v → i = j.

(** The documents of a page of comments, and of a page of posts. *)
Definition page_docs (l : Listing) : list Comment.t := cv_doc <$> items l.

Definition blog_page_docs (l : BlogListing) : list Blog.t :=
  bv_doc <$> bl_items l.

(** The listing a response carries, if it carries one. *)
Definition listing_of (r : Response) : option Listing :=
  match data r with
  | comment_list l => Some l
  | _ => None
  end.

(** The comments a listing request selects, its order, its paging, and the
    same request for another page. *)
Definition listed_by (rq : Request) (c : Comment.t) : Prop :=
  match rq with
  | GET_comments_blogId blogId _ =>
      Comment.blog c = blogId ∧ Comment.isActive c = true
      ∧ Comment.parentComment c = None
  | GET_comments_replies commentId _ =>
      Comment.parentComment c = Some commentId ∧ Comment.isActive c = true
  | GET_comments_user userId _ =>
      Comment.author c = userId ∧ Comment.isActive c = true
  | GET_comments_admin_all _ _ => True
  | _ => False
  end.

Definition order_of (rq : Request) : relation Comment.t :=
  match rq with
  | GET_comments_replies _ _ => Comment.older
  | _ => Comment.newer
  end.

Definition paging_of (rq : Request) : option Paging :=
  match rq with
  | GET_comments_blogId _ q | GET_comments_replies _ q
  | GET_comments_user _ q | GET_comments_admin_all _ q => Some q
  | _ => None
  end.

Definition with_page (p : Z) (rq : Request) : Request :=
  match rq with
  | GET_comments_blogId blogId q =>
      GET_comments_blogId blogId (mkPaging (Some p) (q_limit q))
  | GET_comments_replies commentId q =>
      GET_comments_replies commentId (mkPaging (Some p) (q_limit q))
  | GET_comments_user userId q =>
      GET_comments_user userId (mkPaging (Some p) (q_limit q))
  | GET_comments_admin_all auth q =>
      GET_comments_admin_all auth (mkPaging (Some p) (q_limit q))
  | _ => rq
  end.

(** All the comments a listing request selects, in its order: what the
    cursor of the request walks over. *)
Definition matching (rq : Request) (db : DB) : list Comment.t :=
  match rq with
  | GET_comments_blogId blogId _ =>
      Comment.sorted newest_first
        (filter (λ c, Comment.blog c = blogId ∧ Comment.isActive c = true
                      ∧ Comment.parentComment c = None)
           (Comment.docs (comments db)))
  | GET_comments_replies commentId _ =>
      Comment.sorted oldest_first
        (filter (λ c, Comment.parentComment c = Some commentId
                      ∧ Comment.isActive c = true)
           (Comment.docs (comments db)))
  | GET_comments_user userId _ =>
      Comment.sorted newest_first
        (filter (λ c, Comment.author c = userId ∧ Comment.isActive c = true)
           (Comment.docs (comments db)))
  | GET_comments_admin_all _ _ =>
      Comment.sorted newest_first
        (filter (λ _, True) (Comment.docs (comments db)))
  | _ => []
  end.

(** A page of a list: [limit] items after the first [(page - 1) * limit]. *)
Definition window {A} (page limit : Z) (l : list A) : list A :=
  take (Z.to_nat limit) (drop (Z.to_nat ((page - 1) * limit)) l).

Global Instance listed_by_dec rq c : Decision (listed_by rq c).
Proof. destruct rq; simpl; apply _. Defined.

(** The document the soft delete stores in place of [c]: [isActive] is
    cleared and [updatedAt] refreshed. *)
Definition soft_deleted (now : Date) (c : Comment.t) : Comment.t :=
  Comment.mk (Comment._id c) (Comment.content c) (Comment.author c)
    (Comment.blog c) (Comment.parentComment c) (Comment.isEdited c)
    (Comment.editedAt c) (Comment.likes c) false (Comment.createdAt c) now.



(** Every stored post and comment passes the validators of its schema. *)
Definition documents_valid (db : DB) : Prop :=
  map_Forall (λ _ b, Blog.valid b = true) (blogs db)
  ∧ map_Forall (λ _ c, Comment.valid c = true) (comments db).

(** A string of white space only. *)
Fixpoint blank (s : JS.str) : bool :=
  match s with
  | u :: s' => JS.is_space u && blank s'
  | [] => true
  end.

(** The requests of the post listings. *)
Inductive BlogListRequest :=
| GET_blogs (q : BlogQuery)
| GET_blogs_user (userId : ObjectId) (q : Paging)
| GET_blogs_my (auth : option Token) (q : Paging)
| GET_blogs_admin_all (auth : option Token) (q : Paging).

Section blog_lists.
Context `{Deps}.
Variable text_search : JS.str → Blog.t → bool.

Definition blog_lists (rq : BlogListRequest) (db : DB)
    : Response + BlogListing :=
  match rq with
  | GET_blogs q => BlogLists.list_public text_search q db
  | GET_blogs_user userId q => BlogLists.list_for_user userId q db
  | GET_blogs_my auth q => BlogLists.list_mine auth q db
  | GET_blogs_admin_all auth q => BlogLists.list_all auth q db
  end.

(** The posts a post listing selects, its paging, and the same request for
    another page. *)
Definition blog_listed_by (rq : BlogListRequest) (db : DB) (b : Blog.t)
    : Prop :=
  match rq with
  | GET_blogs q => BlogLists.public_filter text_search q b
  | GET_blogs_user userId _ =>
      Blog.author b = userId ∧ Blog.status b = published
      ∧ Blog.isPublished b = true
  | GET_blogs_my auth _ =>
      match protect auth db with
      | inr req_user => Blog.author b = User._id req_user
      | inl _ => False
      end
  | GET_blogs_admin_all _ _ => True
  end.

Definition blog_paging_of (rq : BlogListRequest) : Paging :=
  match rq with
  | GET_blogs q => bq_paging q
  | GET_blogs_user _ q | GET_blogs_my _ q | GET_blogs_admin_all _ q => q
  end.

Definition blog_with_page (p : Z) (rq : BlogListRequest) : BlogListRequest :=
  match rq with
  | GET_blogs q =>
      GET_blogs (mkBlogQuery (mkPaging (Some p) (q_limit (bq_paging q)))
                   (bq_search q) (bq_tags q) (bq_author q))
  | GET_blogs_user userId q =>
      GET_blogs_user userId (mkPaging (Some p) (q_limit q))
  | GET_blogs_my auth q => GET_blogs_my auth (mkPaging (Some p) (q_limit q))
  | GET_blogs_admin_all auth q =>
      GET_blogs_admin_all auth (mkPaging (Some p) (q_limit q))
  end.

(** All the posts a post listing selects, newest first: what the cursor
    of the request walks over. *)
Definition blog_matching (rq : BlogListRequest) (db : DB) : list Blog.t :=
  match rq with
  | GET_blogs q =>
      merge_sort Statics.newer
        (filter (BlogLists.public_filter text_search q) (Blog.docs (blogs db)))
  | GET_blogs_user userId _ =>
      merge_sort Statics.newer
        (filter (λ b, Blog.author b = userId ∧ Blog.status b = published
                      ∧ Blog.isPublished b = true)
           (Blog.docs (blogs db)))
  | GET_blogs_my auth _ =>
      match protect auth db with
      | inr req_user =>
          merge_sort Statics.newer
            (filter (λ b, Blog.author b = User._id req_user)
               (Blog.docs (blogs db)))
      | inl _ => []
      end
  | GET_blogs_admin_all _ _ =>
      merge_sort Statics.newer (filter (λ _, True) (Blog.docs (blogs db)))
  end.

(** The answer of the middleware in front of a post listing, when it stops
    the request. *)
Definition blog_gate (rq : BlogListRequest) (db : DB) : option Response :=
  match rq with
  | GET_blogs _ | GET_blogs_user _ _ => None
  | GET_blogs_my auth _ =>
      match protect auth db with inl r => Some r | inr _ => None end
  | GET_blogs_admin_all auth _ =>
      match protect auth db with
      | inl r => Some r
      | inr req_user => authorize role_admin req_user
      end
  end.

End blog_lists.

(** No two stored comments, and no two stored posts, were created at the
    same time.  The routes sort on [createdAt] alone, and every page is a
    query of its own: where the sort keys are distinct, the order of the
    documents is the same on every query. *)
Definition distinct_createdAt (db : DB) : Prop :=
  NoDup (Comment.createdAt <$> Comment.docs (comments db))
  ∧ NoDup (Blog.createdAt <$> Blog.docs (blogs db)).

(** PUT /api/auth/profile and PUT /api/auth/password are not among the
    requests of [api].  Both write the user document of the caller and
    nothing else: the first sets [name], [bio] and [avatar], the second
    [password]; [_id], [email] and [role] are not in what they write.  What
    the validators, the setters and the hashing hook of models/User make of
    the values is left open: any name, bio, avatar and password. *)
Definition account_write (db db' : DB) : Prop :=
  ∃ i u n a b p,
    users db !! i = Some u
    ∧ db' = set_users
              (<[i := User.mk (User._id u) n (User.email u) p (User.role u)
                        a b]> (users db))
              db.

(** The states the routes and the seeding script reach from the empty
    database: by the requests of [api] and by the writes of those two
    routes. *)
Inductive reaches `{Deps} : DB → Prop :=
| reaches_empty : reaches empty_db
| reaches_api now rq db : reaches db → reaches (api now rq db).2
| reaches_account db db' : reaches db → account_write db db' → reaches db'.

(** ** Data of the further concrete checks *)

(** A password check and a login validator that fit [checkDeps]: the stored
    hash is the marked password, and the validator hands on the two
    required fields. *)
Definition check_matchPassword (entered stored : string) : bool :=
  bool_decide (stored = ("hashed:" +:+ entered)%string).

Definition check_validateUserLogin (b : LoginBody) : option (string * string) :=
  match lb_email b, lb_password b with
  | Some e, Some p => Some (e, p)
  | _, _ => None
  end.

(** A text search that selects every post. *)
Definition any_text : JS.str → Blog.t → bool := λ _ _, true.

(** The thread before Bob deletes his comment, and his comment then. *)
Definition commented_db : DB :=
  run (H:=checkDeps) (take 5 thread_trace) empty_db.

Definition bobs_comment : Comment.t :=
  Comment.mk 4 "This is a test comment on the blog post." 2 3 None false None []
    true 4 4.

(** Alice's post, as [thread_db] holds it. *)
Definition thread_post : Blog.t :=
  Blog.mk 3 "Test Blog Post" sample_content
    (JS.substring0 200 sample_content ++ JS.lit "...") 1 [] "" published 0 [] true
    3 3.

(** After the thread, Bob saves a draft (6). *)
Definition draft_body : Blog.Body :=
  Blog.mkBody (Some (JS.lit "Draft")) (Some sample_content) None None None None
    (Some "draft"%string) None None None.

Definition draft_trace : list (Date * Request) :=
  thread_trace ++ [ (7, POST_blogs (Some 2%positive) draft_body) ].

Definition draft_db : DB := run (H:=checkDeps) draft_trace empty_db.

Definition bobs_draft : Blog.t :=
  Blog.mk 6 "Draft" sample_content
    (JS.substring0 200 sample_content ++ JS.lit "...") 2 [] "" draft 0 [] true 7 7.


(** After the draft, Bob publishes a second post (7) and replies (8) to his
    deleted comment. *)
Definition busy_trace : list (Date * Request) :=
  draft_trace
  ++ [ (8, POST_blogs (Some 2%positive) (blog_body "Second Post" sample_content));
       (9, POST_comments_reply (Some 2%positive) 4%positive
             (comment_body "A second reply.")) ].

Definition busy_db : DB := run (H:=checkDeps) busy_trace empty_db.

Definition second_post : Blog.t :=
  Blog.mk 7 "Second Post" sample_content
    (JS.substring0 200 sample_content ++ JS.lit "...") 2 [] "" published 0 []
    true 8 8.

Definition bobs_reply : Comment.t :=
  Comment.mk 8 "A second reply." 2 3 (Some 4%positive) false None [] true 9 9.

(** After the thread, Alice changes her name through the profile route. *)
Definition renamed_db : DB :=
  set_users
    (<[1%positive :=
         User.mk 1 "Alice B." "alice@example.com" "hashed:TestPassword123"
           role_user "" ""]> (users thread_db))
    thread_db.

(** * Properties *)

(** A closed decidable proposition, settled by evaluation. *)
Ltac by_evaluation :=
  refine (bool_decide_unpack _ _); vm_compute; exact I.

(** ** The array operations of [toggleLike] *)

Section arrays.
Implicit Types (l : list ObjectId) (u v : ObjectId).

Lemma indexOf_absent l u : u ∉ l → JS.indexOf l u = -1.
Proof.
  intros Hu. unfold JS.indexOf.
  destruct (list_find (λ y, y = u) l) as [[i y]|] eqn:E; [|done].
  apply list_find_Some in E as (Hi & -> & _).
  exfalso. apply Hu. by eapply list_elem_of_lookup_2.
Qed.

Lemma indexOf_present l u :
  u ∈ l →
  ∃ l1 l2, l = l1 ++ (u :: l2) ∧ (u ∉ l1)
           ∧ JS.indexOf l u = Z.of_nat (length l1).
Proof.
  intros Hu. unfold JS.indexOf.
  destruct (list_find (λ y, y = u) l) as [[i y]|] eqn:E.
  - apply list_find_Some in E as (Hi & -> & Hfirst).
    exists (take i l), (drop (S i) l). split_and!.
    + by rewrite take_drop_middle.
    + intros Hin. apply list_elem_of_lookup in Hin as [j Hj].
      pose proof (lookup_lt_Some _ _ _ Hj) as Hlt.
      rewrite length_take in Hlt.
      rewrite lookup_take_lt in Hj by lia.
      apply (Hfirst j u Hj); [lia | done].
    + rewrite length_take. apply lookup_lt_Some in Hi. lia.
  - apply list_find_None in E. exfalso.
    rewrite Forall_forall in E. by apply (E u).
Qed.

Lemma toggled_absent l u : u ∉ l → toggled l u = l ++ [u].
Proof.
  intros Hu. unfold toggled. by rewrite indexOf_absent.
Qed.

Lemma toggled_present l u :
  u ∈ l →
  ∃ l1 l2, l = l1 ++ (u :: l2) ∧ (u ∉ l1) ∧ toggled l u = l1 ++ l2.
Proof.
  intros Hu. destruct (indexOf_present l u Hu) as (l1 & l2 & -> & Hl1 & Hi).
  exists l1, l2. split_and!; [done..|].
  unfold toggled, JS.splice1. rewrite Hi.
  destruct (Z.gtb_spec (Z.of_nat (length l1)) (-1)); [|lia].
  rewrite Nat2Z.id. apply delete_middle.
Qed.

Lemma toggled_NoDup l u : NoDup l → NoDup (toggled l u).
Proof.
  intros Hl. destruct (decide (u ∈ l)) as [Hu|Hu].
  - destruct (toggled_present l u Hu) as (l1 & l2 & -> & _ & ->).
    apply NoDup_app in Hl as (H1 & H2 & H3).
    apply NoDup_cons in H3 as [_ H3].
    apply NoDup_app. split_and!; [done| |done].
    intros x Hx Hx2. apply (H2 x Hx). by right.
  - rewrite toggled_absent by done.
    apply NoDup_app. split_and!; [done| |apply NoDup_singleton].
    intros x Hx ->%list_elem_of_singleton. done.
Qed.

(** On an array without duplicates the toggle flips the membership of
    [u] and of nothing else. *)
Lemma toggled_elem_of l u v :
  NoDup l → v ∈ toggled l u ↔ (if decide (v = u) then u ∉ l else v ∈ l).
Proof.
  intros Hl. destruct (decide (u ∈ l)) as [Hu|Hu].
  - destruct (toggled_present l u Hu) as (l1 & l2 & -> & Hl1 & ->).
    apply NoDup_app in Hl as (_ & H2 & H3).
    apply NoDup_cons in H3 as [H3 _].
    case_decide as Hv; subst.
    + rewrite elem_of_app. tauto.
    + rewrite !elem_of_app, elem_of_cons. tauto.
  - rewrite toggled_absent by done.
    rewrite elem_of_app, list_elem_of_singleton.
    case_decide; subst; tauto.
Qed.

Lemma indexOf_push l u : u ∉ l → JS.indexOf (JS.push l u) u = Z.of_nat (length l).
Proof.
  intros Hu. unfold JS.indexOf, JS.push.
  rewrite list_find_app_r.
  2:{ apply list_find_None, Forall_forall. intros x Hx ->. done. }
  simpl. destruct (decide (u = u)); [simpl; f_equal; lia | done].
Qed.

Lemma toggled_twice_absent l u : u ∉ l → toggled (toggled l u) u = l.
Proof.
  intros Hu. rewrite (toggled_absent l u Hu).
  unfold toggled. fold (JS.push l u). rewrite indexOf_push by done.
  destruct (Z.gtb_spec (Z.of_nat (length l)) (-1)); [|lia].
  unfold JS.splice1, JS.push. rewrite Nat2Z.id.
  rewrite (delete_middle l [] u). apply app_nil_r.
Qed.

Lemma toggled_twice_perm l u : NoDup l → toggled (toggled l u) u ≡ₚ l.
Proof.
  intros Hl. destruct (decide (u ∈ l)) as [Hu|Hu].
  - destruct (toggled_present l u Hu) as (l1 & l2 & -> & Hl1 & ->).
    apply NoDup_app in Hl as (_ & _ & H3).
    apply NoDup_cons in H3 as [H3 _].
    rewrite toggled_absent.
    + rewrite <- Permutation_middle, app_nil_r. apply Permutation_middle.
    + by intros [?|?]%elem_of_app.
  - by rewrite toggled_twice_absent.
Qed.

End arrays.

(** ** [toggleLike] on posts and comments *)

Lemma Blog_toggleLike_likes u now (b : Blog.t) coll :
  Blog.likes (Blog.toggleLike u now b coll).1 = toggled (Blog.likes b) u.
Proof.
  unfold Blog.toggleLike, toggled, Blog.save.
  by destruct (JS.indexOf (Blog.likes b) u >? -1).
Qed.

Lemma Blog_toggleLike_saved u now (b : Blog.t) coll :
  (Blog.toggleLike u now b coll).2 !! Blog._id b
  = Some (Blog.toggleLike u now b coll).1.
Proof.
  unfold Blog.toggleLike, Blog.save.
  destruct (JS.indexOf (Blog.likes b) u >? -1); simpl; apply lookup_insert_eq.
Qed.

Lemma Comment_toggleLike_likes u now (c : Comment.t) coll :
  Comment.likes (Comment.toggleLike u now c coll).1 = toggled (Comment.likes c) u.
Proof.
  unfold Comment.toggleLike, toggled, Comment.save, Comment.pre_save.
  by destruct (JS.indexOf (Comment.likes c) u >? -1).
Qed.

Lemma Comment_toggleLike_saved u now (c : Comment.t) coll :
  (Comment.toggleLike u now c coll).2 !! Comment._id c
  = Some (Comment.toggleLike u now c coll).1.
Proof.
  unfold Comment.toggleLike, Comment.save, Comment.pre_save.
  destruct (JS.indexOf (Comment.likes c) u >? -1); simpl; apply lookup_insert_eq.
Qed.

Lemma like_set_toggled l u :
  NoDup l → like_set (toggled l u) = flipped (like_set l) u.
Proof.
  intros Hl. unfold like_set, flipped. apply set_eq. intros v.
  rewrite elem_of_list_to_set, (toggled_elem_of l u v Hl).
  destruct (decide (u ∈ list_to_set (C:=gset ObjectId) l)) as [Hu|Hu];
    rewrite elem_of_list_to_set in Hu;
    rewrite ?elem_of_difference, ?elem_of_union, elem_of_singleton,
      elem_of_list_to_set;
    destruct (decide (v = u)) as [->|Hv]; tauto.
Qed.

Lemma like_set_toggled_twice l u :
  NoDup l → like_set (toggled (toggled l u) u) = like_set l.
Proof.
  intros Hl. unfold like_set. apply list_to_set_perm_L.
  by apply toggled_twice_perm.
Qed.

(** C6, amended.  On a post and on a comment whose [likes] array holds no id
    twice, [toggleLike] by [u] takes [u] out of the like-set when it is
    there and puts it in otherwise, saves the document, and keeps the array
    free of duplicates; a second [toggleLike] by the same [u] brings the
    like-set back: the array holds the original ids again, up to the place of
    [u], and is the original array when [u] was not in it. *)
Theorem toggleLike_twice_restores_like_set
    (b : Blog.t) (bs : gmap ObjectId Blog.t)
    (c : Comment.t) (cs : gmap ObjectId Comment.t)
    (u : ObjectId) (t1 t2 : Date) :
  NoDup (Blog.likes b) → NoDup (Comment.likes c) →
  let b1 := Blog.toggleLike u t1 b bs in
  let b2 := Blog.toggleLike u t2 b1.1 b1.2 in
  let c1 := Comment.toggleLike u t1 c cs in
  let c2 := Comment.toggleLike u t2 c1.1 c1.2 in
  (like_set (Blog.likes b1.1) = flipped (like_set (Blog.likes b)) u
   ∧ NoDup (Blog.likes b1.1)
   ∧ b1.2 !! Blog._id b = Some b1.1
   ∧ like_set (Blog.likes b2.1) = like_set (Blog.likes b)
   ∧ Blog.likes b2.1 ≡ₚ Blog.likes b
   ∧ (u ∉ Blog.likes b → Blog.likes b2.1 = Blog.likes b))
  ∧ (like_set (Comment.likes c1.1) = flipped (like_set (Comment.likes c)) u
     ∧ NoDup (Comment.likes c1.1)
     ∧ c1.2 !! Comment._id c = Some c1.1
     ∧ like_set (Comment.likes c2.1) = like_set (Comment.likes c)
     ∧ Comment.likes c2.1 ≡ₚ Comment.likes c
     ∧ (u ∉ Comment.likes c → Comment.likes c2.1 = Comment.likes c)).
Proof.
  intros Hb Hc b1 b2 c1 c2. subst b1 b2 c1 c2.
  rewrite !Blog_toggleLike_likes, !Comment_toggleLike_likes.
  split; split_and!;
    auto using like_set_toggled, toggled_NoDup, like_set_toggled_twice,
      toggled_twice_perm, toggled_twice_absent,
      Blog_toggleLike_saved, Comment_toggleLike_saved.
Qed.

Lemma toggleLike_twice_restores_like_set_witness :
  let b := sample_blog 1 1 [3; 2; 4]%positive in
  let c := sample_comment 1 1 1 None [3; 2; 4]%positive true in
  let b1 := Blog.toggleLike 2 2000 b ∅ in
  let b2 := Blog.toggleLike 2 3000 b1.1 b1.2 in
  let c1 := Comment.toggleLike 2 2000 c ∅ in
  let c2 := Comment.toggleLike 2 3000 c1.1 c1.2 in
  Blog.likes b1.1 = [3; 4]%positive ∧ Blog.likes b2.1 = [3; 4; 2]%positive
  ∧ Comment.likes c1.1 = [3; 4]%positive ∧ Comment.likes c2.1 = [3; 4; 2]%positive
  ∧ like_set (Blog.likes b2.1) = like_set (Blog.likes b)
  ∧ like_set (Comment.likes c2.1) = like_set (Comment.likes c).
Proof.
  assert (Hnd : NoDup [3; 2; 4]%positive)
    by by_evaluation.
  pose proof (toggleLike_twice_restores_like_set
                (sample_blog 1 1 [3; 2; 4]%positive) ∅
                (sample_comment 1 1 1 None [3; 2; 4]%positive true) ∅
                2 2000 3000 Hnd Hnd) as [(_ & _ & _ & Hb & _) (_ & _ & _ & Hc & _)].
  split_and!; [reflexivity..| exact Hb | exact Hc].
Defined.

(** C6 as stated fails on an array that holds [u] twice: one [toggleLike]
    leaves [u] among the likes, and two of them do not give the like-set
    back.  The routes reach such an array: a post created with Bob's id
    twice in [likes] still holds it after Bob's first toggle through the
    like route, and holds no like after his second. *)
Lemma toggleLike_duplicate_likes_counterexample :
  let b := sample_blog 1 1 [2; 2]%positive in
  let c := sample_comment 1 1 1 None [2; 2]%positive true in
  let b1 := Blog.toggleLike 2 2000 b ∅ in
  let b2 := Blog.toggleLike 2 3000 b1.1 b1.2 in
  let c1 := Comment.toggleLike 2 2000 c ∅ in
  let c2 := Comment.toggleLike 2 3000 c1.1 c1.2 in
  let db1 := (Blogs.like (H:=checkDeps) (Some 2%positive) 3 4 duplicate_likes_db).2 in
  let db2 := (Blogs.like (H:=checkDeps) (Some 2%positive) 3 5 db1).2 in
  (2%positive ∈ Blog.likes b ∧ 2%positive ∈ Blog.likes b1.1
   ∧ Blog.likes b2.1 = [] ∧ like_set (Blog.likes b2.1) ≠ like_set (Blog.likes b))
  ∧ (2%positive ∈ Comment.likes c ∧ 2%positive ∈ Comment.likes c1.1
     ∧ Comment.likes c2.1 = []
     ∧ like_set (Comment.likes c2.1) ≠ like_set (Comment.likes c))
  ∧ (reachable (H:=checkDeps) duplicate_likes_db
     ∧ Blog.likes <$> blogs duplicate_likes_db !! 3%positive = Some [2; 2]%positive
     ∧ Blog.likes <$> blogs db1 !! 3%positive = Some [2]%positive
     ∧ Blog.likes <$> blogs db2 !! 3%positive = Some []).
Proof.
  cbn zeta. split; [|split; [|split; [by exists duplicate_likes_trace|]]];
    split_and!; try (vm_compute; reflexivity); by_evaluation.
Qed.

(** ** Generated ObjectIds *)

Lemma new_ObjectId_fresh db :
  users db !! new_ObjectId db = None
  ∧ blogs db !! new_ObjectId db = None
  ∧ comments db !! new_ObjectId db = None
  ∧ new_ObjectId db ∉ issued db.
Proof.
  pose proof (is_fresh (dom (users db) ∪ dom (blogs db) ∪ dom (comments db)
                        ∪ issued db)) as Hf.
  fold (new_ObjectId db) in Hf.
  rewrite !not_elem_of_union, !not_elem_of_dom in Hf. tauto.
Qed.

(** ** Replies *)

Section replies.
Context `{Deps}.

Lemma Comment_create_inv id now body coll doc coll' :
  Comment.create id now body coll = inr (doc, coll') →
  Comment.build id now body = Some doc
  ∧ Comment.valid doc = true
  ∧ coll' = <[id := doc]> coll.
Proof.
  unfold Comment.create, Comment.pre_save. intros Hc.
  destruct (Comment.build id now body) as [d|] eqn:Hb; [|done].
  destruct (Comment.valid d) eqn:Hv; [|done].
  rewrite andb_false_r in Hc. simplify_eq.
  split_and!; [done..|].
  unfold Comment.build in Hb.
  destruct (Comment.b_content body), (Comment.b_author body),
    (Comment.b_blog body); by simplify_eq/=.
Qed.


End replies.

(** C2.  When the reply route is given an existing parent comment [X] and
    answers 201, the comment it created is stored as a new document whose
    [blog] is the [blog] of [X] and whose [parentComment] is the id of [X],
    whatever the request body carried. *)
Theorem reply_takes_blog_and_parent_from_parent `{Deps}
    (auth : option Token) (commentId : ObjectId) (body : Comment.Body)
    (now : Date) (db : DB) (X : Comment.t) :
  comments db !! commentId = Some X →
  status (Comments.reply auth commentId body now db).1 = 201 →
  ∃ reply,
    data (Comments.reply auth commentId body now db).1 = comment_data (Some reply)
    ∧ comments db !! Comment._id reply = None
    ∧ comments (Comments.reply auth commentId body now db).2
        !! Comment._id reply = Some reply
    ∧ Comment.blog reply = Comment.blog X
    ∧ Comment.parentComment reply = Some commentId.
Proof.
  intros HX. unfold Comments.reply, Comment.findById. rewrite HX.
  destruct (protect auth db) as [r|req_user] eqn:Hp.
  { unfold protect in Hp. repeat case_match; simplify_eq; done. }
  destruct (validateComment body) as [body'|]; [|done].
  destruct (Comment.create _ _ _ _) as [e|[reply coll]] eqn:Hc.
  { by destruct e. }
  intros _. apply Comment_create_inv in Hc as (Hb & _ & ->).
  exists reply. simpl.
  assert (Comment._id reply = new_ObjectId db) as Hid.
  { unfold Comment.build in Hb. simpl in Hb. by destruct (Comment.b_content body'); simplify_eq/=. }
  rewrite Hid. split_and!; [done|apply new_ObjectId_fresh|apply lookup_insert_eq|..].
  - unfold Comment.build in Hb. simpl in Hb. by destruct (Comment.b_content body'); simplify_eq/=.
  - unfold Comment.build in Hb. simpl in Hb. by destruct (Comment.b_content body'); simplify_eq/=.
Qed.

Lemma reply_takes_blog_and_parent_from_parent_witness :
  ∃ reply,
    data (Comments.reply (H:=checkDeps) (Some 1%positive) 4 forged_reply_body
            7 thread_db).1 = comment_data (Some reply)
    ∧ comments thread_db !! Comment._id reply = None
    ∧ comments (Comments.reply (H:=checkDeps) (Some 1%positive) 4
                  forged_reply_body 7 thread_db).2
        !! Comment._id reply = Some reply
    ∧ Comment.blog reply = Comment.blog deleted_comment
    ∧ Comment.parentComment reply = Some 4%positive.
Proof.
  refine (reply_takes_blog_and_parent_from_parent (H:=checkDeps)
            (Some 1%positive) 4 forged_reply_body 7 thread_db deleted_comment
            _ _); vm_compute; reflexivity.
Defined.




(** ** Ownership *)

Lemma authorizeOwnership_spec (p : User.t) (a : ObjectId) :
  authorizeOwnership p a = true ↔ User._id p = a ∨ User.role p = role_admin.
Proof.
  unfold authorizeOwnership.
  rewrite orb_true_iff, !bool_decide_eq_true. done.
Qed.

Lemma checkOwnership_spec (p : User.t) (a : ObjectId) :
  (checkOwnership (Some a) p = None ↔ User._id p = a ∨ User.role p = role_admin)
  ∧ (¬ (User._id p = a ∨ User.role p = role_admin) →
     checkOwnership (Some a) p = Some forbidden).
Proof.
  unfold checkOwnership.
  destruct (authorizeOwnership p a) eqn:E.
  - apply authorizeOwnership_spec in E. naive_solver.
  - assert (¬ (User._id p = a ∨ User.role p = role_admin)) as Hn.
    { rewrite <- authorizeOwnership_spec, E. done. }
    naive_solver.
Qed.

(** C5.  For a principal [p] and a stored post or comment, the ownership
    check passes exactly when [p] is the author or an admin, and is
    [Forbidden] otherwise; the update and delete routes of posts and of
    comments answer [Forbidden] and leave the database as it is in the
    second case, and never answer [Forbidden] in the first. *)
Theorem ownership_check_owner_or_admin `{Deps}
    (auth : option Token) (db : DB) (p : User.t) (now : Date) :
  protect auth db = inr p →
  (∀ a,
     (checkOwnership (Some a) p = None
      ↔ User._id p = a ∨ User.role p = role_admin)
     ∧ (¬ (User._id p = a ∨ User.role p = role_admin) →
        checkOwnership (Some a) p = Some forbidden))
  ∧ (∀ id c body,
       comments db !! id = Some c →
       (¬ (User._id p = Comment.author c ∨ User.role p = role_admin) →
        Comments.update auth id body now db = (forbidden, db)
        ∧ Comments.delete auth id now db = (forbidden, db))
       ∧ (User._id p = Comment.author c ∨ User.role p = role_admin →
          status (Comments.update auth id body now db).1 ≠ 403
          ∧ status (Comments.delete auth id now db).1 = 200))
  ∧ (∀ id b body,
       blogs db !! id = Some b →
       (¬ (User._id p = Blog.author b ∨ User.role p = role_admin) →
        Blogs.update auth id body now db = (forbidden, db)
        ∧ Blogs.delete auth id db = (forbidden, db))
       ∧ (User._id p = Blog.author b ∨ User.role p = role_admin →
          status (Blogs.update auth id body now db).1 ≠ 403
          ∧ status (Blogs.delete auth id db).1 = 200)).
Proof.
  intros Hp. split_and!.
  - intros a. apply checkOwnership_spec.
  - intros id c body Hc.
    unfold Comments.update, Comments.delete, Comment.findById,
      Comment.findByIdAndUpdate.
    rewrite Hp, Hc.
    change (Comment.author <$> Some c) with (Some (Comment.author c)).
    destruct (checkOwnership_spec p (Comment.author c)) as [Hiff Hdeny].
    split.
    + intros Hn. by rewrite (Hdeny Hn).
    + intros Hy. apply Hiff in Hy. rewrite Hy.
      split; [|done].
      destruct (validateComment body) as [body'|]; [|done].
      by destruct (_ && _).
  - intros id b body Hb.
    unfold Blogs.update, Blogs.delete, Blog.findById, Blog.findByIdAndUpdate.
    rewrite Hp, Hb.
    change (Blog.author <$> Some b) with (Some (Blog.author b)).
    destruct (checkOwnership_spec p (Blog.author b)) as [Hiff Hdeny].
    split.
    + intros Hn. by rewrite (Hdeny Hn).
    + intros Hy. apply Hiff in Hy. rewrite Hy.
      split; [|done].
      destruct (validateBlog body) as [body'|]; [|done].
      destruct (Blog.apply_update _ _ _) as [doc|]; [|done].
      by destruct (Blog.valid_update _ doc).
Qed.

Lemma ownership_check_owner_or_admin_witness :
  Comments.delete (H:=checkDeps) (Some 2%positive) 5 7 thread_db
  = (forbidden, thread_db)
  ∧ status (Comments.delete (H:=checkDeps) (Some 2%positive) 4 7 thread_db).1
    = 200.
Proof.
  destruct (ownership_check_owner_or_admin (H:=checkDeps) (Some 2%positive)
              thread_db bob 7) as (_ & Hc & _);
    [vm_compute; reflexivity|].
  split.
  - refine (proj2 (proj1 (Hc 5%positive alice_reply (comment_body "x") _) _)).
    + vm_compute; reflexivity.
    + vm_compute. intros [?|?]; discriminate.
  - refine (proj2 (proj2 (Hc 4%positive deleted_comment (comment_body "x") _) _)).
    + vm_compute; reflexivity.
    + left. vm_compute; reflexivity.
Defined.

(** ** Registration *)

Lemma elem_of_User_docs (coll : gmap ObjectId User.t) (u : User.t) :
  u ∈ User.docs coll ↔ ∃ i, coll !! i = Some u.
Proof.
  unfold User.docs. rewrite list_elem_of_fmap. split.
  - intros ([i u'] & -> & Hin). exists i. by apply elem_of_map_to_list.
  - intros [i Hi]. exists (i, u). split; [done|]. by apply elem_of_map_to_list.
Qed.

Lemma findOne_email_is_Some (coll : gmap ObjectId User.t) (u : User.t) :
  u ∈ User.docs coll → is_Some (User.findOne_email coll (User.email u)).
Proof.
  intros Hu. unfold User.findOne_email.
  destruct (filter _ _) as [|x l] eqn:E; [|by eexists].
  assert (u ∈ filter (λ u0, User.email u0 = User.email u) (User.docs coll)) as Hin
    by by apply list_elem_of_filter.
  rewrite E in Hin. by apply elem_of_nil in Hin.
Qed.

Section registration.
Context `{Deps}.

Lemma register_existing_email body db name e pw u :
  validateUserRegistration body = Some (name, e, pw) →
  u ∈ User.docs (users db) → User.email u = e →
  Auth.register body db
  = (res 400 false "User already exists with this email" no_data, db).
Proof.
  intros Hv Hu <-. unfold Auth.register. rewrite Hv.
  by destruct (findOne_email_is_Some _ _ Hu) as [u' ->].
Qed.

Lemma register_stores_email body db name e pw :
  validateUserRegistration body = Some (name, e, pw) →
  ∃ u, u ∈ User.docs (users (Auth.register body db).2) ∧ User.email u = e.
Proof.
  intros Hv. unfold Auth.register. rewrite Hv.
  destruct (User.findOne_email (users db) e) as [u|] eqn:E.
  - exists u. unfold User.findOne_email in E.
    apply head_Some_elem_of, list_elem_of_filter in E. tauto.
  - simpl. eexists.
    split; [apply elem_of_User_docs; eexists; apply lookup_insert_eq|].
    reflexivity.
Qed.

End registration.

(** C7.  When a user with email [e] exists, a registration with [e] is
    answered 400 "User already exists with this email" and the database is
    left as it is, so the stored account keeps its name, password hash and
    role; in particular the second of two registrations with the same email
    fails this way. *)
Theorem register_duplicate_email_rejected `{Deps}
    (body1 body2 : RegisterBody) (db : DB)
    (name1 name2 e pw1 pw2 : string) :
  validateUserRegistration body1 = Some (name1, e, pw1) →
  validateUserRegistration body2 = Some (name2, e, pw2) →
  (∀ u, u ∈ User.docs (users db) → User.email u = e →
        Auth.register body1 db
        = (res 400 false "User already exists with this email" no_data, db))
  ∧ Auth.register body2 (Auth.register body1 db).2
    = (res 400 false "User already exists with this email" no_data,
       (Auth.register body1 db).2).
Proof.
  intros Hv1 Hv2. split.
  - intros u Hu He. by eapply register_existing_email.
  - destruct (register_stores_email body1 db name1 e pw1 Hv1) as (u & Hu & He).
    by eapply register_existing_email.
Qed.

Lemma register_duplicate_email_rejected_witness :
  let first := mkRegisterBody (Some "Test User") (Some "test@example.com")
                 (Some "TestPassword123") in
  let second := mkRegisterBody (Some "Someone Else") (Some "test@example.com")
                  (Some "OtherPassword456") in
  let db1 := (Auth.register (H:=checkDeps) first empty_db).2 in
  users db1 !! 1%positive
  = Some (User.mk 1 "Test User" "test@example.com" "hashed:TestPassword123"
            role_user "" "")
  ∧ Auth.register (H:=checkDeps) second db1
    = (res 400 false "User already exists with this email" no_data, db1).
Proof.
  split; [vm_compute; reflexivity|].
  refine (proj2 (register_duplicate_email_rejected (H:=checkDeps)
                   (mkRegisterBody (Some "Test User") (Some "test@example.com")
                      (Some "TestPassword123"))
                   (mkRegisterBody (Some "Someone Else") (Some "test@example.com")
                      (Some "OtherPassword456"))
                   empty_db "Test User" "Someone Else" "test@example.com"
                   "TestPassword123" "OtherPassword456" _ _));
    vm_compute; reflexivity.
Defined.

(** ** The view counter *)

Lemma to_double_exact (z : Z) : - 2 ^ 53 ≤ z ≤ 2 ^ 53 → JS.to_double z = z.
Proof.
  intros Hz. unfold JS.to_double.
  destruct (Z.leb_spec (Z.abs z) (2 ^ 53)); [done|lia].
Qed.

Section views.
Context `{Deps}.

(** What the single-post route answers for a stored post: the post as
    [incrementViews] leaves it, with the two counts. *)
Lemma get_id_served id now db b :
  blogs db !! id = Some b →
  (Blogs.get_id id now db).1
  = res 200 true ""
      (blog_data
         (Some (mkBlogView (Blog.incrementViews now b (blogs db)).1
                  (Some (Blog.commentCount (comments db) b))
                  (Some (Blog.likeCount (users db) b))))).
Proof.
  intros Hb. unfold Blogs.get_id, Blog.findById. rewrite Hb.
  by destruct (Blog.incrementViews now b (blogs db)).
Qed.

Lemma get_id_found id now db b :
  blogs db !! id = Some b → Blog._id b = id →
  - 2 ^ 53 ≤ Blog.views b < 2 ^ 53 →
  let b' := Blog.set_updatedAt now (Blog.set_views (Blog.views b + 1) b) in
  Blogs.get_id id now db
  = (res 200 true ""
       (blog_data (Some (mkBlogView b'
                           (Some (Blog.commentCount (comments db) b))
                           (Some (Blog.likeCount (users db) b))))),
     set_blogs (<[id := b']> (blogs db)) db).
Proof.
  intros Hb Hid Hv. unfold Blogs.get_id, Blog.findById. rewrite Hb.
  unfold Blog.incrementViews, Blog.save, JS.add.
  rewrite to_double_exact by lia.
  rewrite bool_decide_false by lia. simpl. by rewrite Hid.
Qed.

(** From [2 ^ 53] on the sum [views + 1] is not a double: at [2 ^ 53] it is
    rounded back to [views], the save finds nothing modified, and the fetch
    leaves the database as it was. *)
Lemma get_id_saturated id now db b :
  blogs db !! id = Some b → Blog.views b = 2 ^ 53 →
  Blogs.get_id id now db
  = (res 200 true ""
       (blog_data (Some (mkBlogView b
                           (Some (Blog.commentCount (comments db) b))
                           (Some (Blog.likeCount (users db) b))))),
     set_blogs (blogs db) db).
Proof.
  intros Hb Hv. unfold Blogs.get_id, Blog.findById. rewrite Hb.
  unfold Blog.incrementViews. rewrite Hv.
  by replace (JS.add (2 ^ 53) 1) with (2 ^ 53) by (vm_compute; reflexivity).
Qed.

Lemma fetches_views id times : ∀ db b,
  blogs db !! id = Some b → Blog._id b = id →
  - 2 ^ 53 ≤ Blog.views b →
  Blog.views b + Z.of_nat (length times) ≤ 2 ^ 53 →
  ∃ b',
    blogs (run (fetches id times) db) !! id = Some b'
    ∧ Blog.views b' = Blog.views b + Z.of_nat (length times)
    ∧ but_views_and_updatedAt b' = but_views_and_updatedAt b
    ∧ users (run (fetches id times) db) = users db
    ∧ comments (run (fetches id times) db) = comments db.
Proof.
  induction times as [|t times IH]; intros db b Hb Hid Hlo Hhi.
  - exists b. simpl. split_and!; [done|lia|done..].
  - simpl in Hhi. simpl.
    rewrite (get_id_found id t db b Hb Hid) by lia. simpl.
    destruct (IH (set_blogs
                    (<[id := Blog.set_updatedAt t
                               (Blog.set_views (Blog.views b + 1) b)]>
                       (blogs db)) db)
                (Blog.set_updatedAt t (Blog.set_views (Blog.views b + 1) b)))
      as (b' & Hb' & Hviews & Hframe & Hu & Hc);
      [apply lookup_insert_eq | done | simpl; lia | simpl; lia |].
    exists b'. split_and!; [done| |done..].
    rewrite Hviews. simpl. lia.
Qed.

End views.

(** C8, amended.  Numbers are doubles, and [views + 1] is exact while
    [views] is an integer between [- 2 ^ 53] and [2 ^ 53].  A fetch of a
    stored post whose [views] is in that range and below [2 ^ 53] answers
    200, whoever asks, and stores the post with [views] one higher;
    [updatedAt] is set to the time of the fetch, every other field of the
    post and every other document is left as it was.  Fetching the post at
    any number of times in a row adds that number to [views], as long as the
    counter stays within [2 ^ 53]; five fetches add five.  At [2 ^ 53] the
    counter stops: a fetch answers 200 and changes nothing. *)
Theorem fetch_increments_views `{Deps}
    (id : ObjectId) (now : Date) (db : DB) (b : Blog.t) (times : list Date) :
  blogs db !! id = Some b → Blog._id b = id →
  - 2 ^ 53 ≤ Blog.views b →
  (Blog.views b < 2 ^ 53 →
   ∃ b',
     status (Blogs.get_id id now db).1 = 200
     ∧ blogs (Blogs.get_id id now db).2 = <[id := b']> (blogs db)
     ∧ users (Blogs.get_id id now db).2 = users db
     ∧ comments (Blogs.get_id id now db).2 = comments db
     ∧ Blog.views b' = Blog.views b + 1
     ∧ Blog.updatedAt b' = now
     ∧ but_views_and_updatedAt b' = but_views_and_updatedAt b)
  ∧ (Blog.views b + Z.of_nat (length times) ≤ 2 ^ 53 →
     ∃ b',
       blogs (run (fetches id times) db) !! id = Some b'
       ∧ Blog.views b' = Blog.views b + Z.of_nat (length times)
       ∧ but_views_and_updatedAt b' = but_views_and_updatedAt b)
  ∧ (length times = 5%nat → Blog.views b + 5 ≤ 2 ^ 53 →
     ∃ b',
       blogs (run (fetches id times) db) !! id = Some b'
       ∧ Blog.views b' = Blog.views b + 5)
  ∧ (Blog.views b = 2 ^ 53 →
     status (Blogs.get_id id now db).1 = 200
     ∧ blogs (Blogs.get_id id now db).2 = blogs db
     ∧ users (Blogs.get_id id now db).2 = users db
     ∧ comments (Blogs.get_id id now db).2 = comments db).
Proof.
  intros Hb Hid Hlo. split_and!.
  - intros Hhi. rewrite (get_id_found id now db b Hb Hid) by lia.
    eexists. simpl. split_and!; reflexivity.
  - intros Hhi.
    destruct (fetches_views id times db b Hb Hid Hlo Hhi)
      as (b' & ? & ? & ? & _).
    by exists b'.
  - intros Hlen Hhi.
    destruct (fetches_views id times db b Hb Hid Hlo) as (b' & ? & Hv & _);
      [rewrite Hlen; simpl; lia|].
    exists b'. split; [done|]. rewrite Hv, Hlen. done.
  - intros Hv. by rewrite (get_id_saturated id now db b Hb Hv).
Qed.

Lemma fetch_increments_views_witness :
  (∃ b',
     blogs (run (H:=checkDeps) (fetches 3 [7; 8; 9; 10; 11]) thread_db)
       !! 3%positive = Some b'
     ∧ Blog.views b' = 5)
  ∧ (Blog.views saturated_post = 2 ^ 53
     ∧ status (Blogs.get_id 6 9 saturated_db).1 = 200
     ∧ blogs (Blogs.get_id 6 9 saturated_db).2 = blogs saturated_db).
Proof.
  split.
  - refine (proj1 (proj2 (proj2 (fetch_increments_views (H:=checkDeps) 3 7
                                   thread_db
                                   (Blog.mk 3 "Test Blog Post" sample_content
                                      (JS.substring0 200 sample_content
                                       ++ JS.lit "...")
                                      1 [] "" published 0 [] true 3 3)
                                   [7; 8; 9; 10; 11] _ _ _))) _ _);
      first [vm_compute; reflexivity | vm_compute; discriminate].
  - split; [reflexivity|].
    assert (blogs saturated_db !! 6%positive = Some saturated_post) as Hpost
      by (vm_compute; reflexivity).
    assert (- 2 ^ 53 ≤ Blog.views saturated_post) as Hrange
      by (vm_compute; discriminate).
    destruct (proj2 (proj2 (proj2 (fetch_increments_views (H:=checkDeps) 6 9
                                     saturated_db saturated_post [] Hpost
                                     eq_refl Hrange)))
                eq_refl)
      as (Hstatus & Hblogs & _).
    exact (conj Hstatus Hblogs).
Defined.

(** C8 as stated fails on [updatedAt]: the fetch saves the post, and the
    save stamps it with the time of the fetch. *)
Lemma fetch_changes_updatedAt_counterexample :
  ∃ b b',
    blogs thread_db !! 3%positive = Some b
    ∧ blogs (Blogs.get_id 3 7 thread_db).2 !! 3%positive = Some b'
    ∧ Blog.views b' = Blog.views b + 1
    ∧ Blog.updatedAt b = 3
    ∧ Blog.updatedAt b' = 7.
Proof.
  do 2 eexists. split_and!; vm_compute; reflexivity.
Qed.

(** ** Edited comments *)

(** The pre-save hook marks an existing comment whose content was modified,
    and leaves a new one alone. *)
Lemma pre_save_marks_edited (now : Date) (c : Comment.t) :
  Comment.isEdited (Comment.pre_save false [Comment.p_content] now c) = true
  ∧ Comment.editedAt (Comment.pre_save false [Comment.p_content] now c) = Some now
  ∧ Comment.pre_save true [Comment.p_content] now c = c
  ∧ Comment.pre_save false [Comment.p_likes] now c = c.
Proof. done. Qed.

Section edits.
Context `{Deps}.

(** What the update route stores: the update document is applied as it
    is, and the pre-save hook is not run. *)
Lemma update_stored auth id body now db c db' r :
  Comments.update auth id body now db = (r, db') →
  status r = 200 →
  comments db !! id = Some c →
  ∃ body',
    validateComment body = Some body'
    ∧ r = res 200 true "Comment updated successfully"
            (comment_data (Some (Comment.apply_update now body' c)))
    ∧ db' = set_comments
              (<[id := Comment.apply_update now body' c]> (comments db)) db.
Proof.
  unfold Comments.update, Comment.findById, Comment.findByIdAndUpdate.
  intros Hu Hs Hc. rewrite Hc in Hu.
  destruct (protect auth db) as [r0|req_user] eqn:Hp.
  { unfold protect in Hp. repeat case_match; simplify_eq; done. }
  destruct (checkOwnership _ _) as [r0|] eqn:Ho.
  { unfold checkOwnership in Ho. repeat case_match; simplify_eq; done. }
  destruct (validateComment body) as [body'|]; [|by simplify_eq].
  exists body'. destruct (_ && _); simplify_eq; done.
Qed.

End edits.

(** C4 on the code.  Alice's reply is stored with [isEdited] false; she
    changes its content through the update route.  The route answers 200
    and stores the new content, and the comment is still not marked as
    edited: [isEdited] is false and [editedAt] is unset.  The pre-save hook
    of the model would have marked this very change. *)
Theorem update_route_does_not_mark_edited :
  ∃ c' db',
    comments thread_db !! 5%positive = Some alice_reply
    ∧ Comments.update (H:=checkDeps) (Some 1%positive) 5
        (comment_body "An edited reply.") 7 thread_db
      = (res 200 true "Comment updated successfully" (comment_data (Some c')),
         db')
    ∧ comments db' !! 5%positive = Some c'
    ∧ Comment.content alice_reply = JS.lit "A reply."
    ∧ Comment.content c' = JS.lit "An edited reply."
    ∧ Comment.isEdited c' = false
    ∧ Comment.editedAt c' = None
    ∧ Comment.isEdited
        (Comment.save [Comment.p_content] 7 c' (comments thread_db)).1 = true.
Proof.
  do 2 eexists. split_and!; vm_compute; reflexivity.
Qed.

(** ** Documents stay under their own id *)

Lemma Blog_build_id id now body doc :
  Blog.build id now body = Some doc → Blog._id doc = id.
Proof. unfold Blog.build. intros. by simplify_option_eq. Qed.

Lemma Blog_apply_update_id now body b doc :
  Blog.apply_update now body b = Some doc → Blog._id doc = Blog._id b.
Proof. unfold Blog.apply_update. intros. by simplify_option_eq. Qed.

Lemma Comment_build_id id now body doc :
  Comment.build id now body = Some doc → Comment._id doc = id.
Proof. unfold Comment.build. intros. by simplify_option_eq. Qed.

Ltac keyed_step :=
  match goal with
  | |- map_Forall _ (<[_ := _]> _) => apply map_Forall_insert_2; [|done]
  | |- map_Forall _ (delete _ _) => by apply map_Forall_delete
  | H : Blog.build _ _ _ = Some _ |- _ => apply Blog_build_id in H
  | H : Blog.apply_update _ _ _ = Some _ |- _ => apply Blog_apply_update_id in H
  | H : Comment.build _ _ _ = Some _ |- _ => apply Comment_build_id in H
  end.

Section keyed.
Context `{Deps}.

(** Every request leaves each document under its own [_id]. *)
Lemma api_keyed_by_id now rq db :
  keyed_by_id db → keyed_by_id (api now rq db).2.
Proof.
  intros (Hu & Hb & Hc).
  destruct rq; simpl;
    unfold Auth.register, Auth.delete_account, Blogs.get_id, Blogs.create,
      Blogs.update, Blogs.delete, Blogs.like, Comments.create, Comments.reply,
      Comments.update, Comments.delete, Comments.like, Scripts.seedAdmin,
      User.create, User.save, User.findByIdAndDelete, Blog.create,
      Blog.findByIdAndUpdate, Blog.findByIdAndDelete, Blog.incrementViews,
      Blog.toggleLike, Blog.save, Blog.findById, Comment.create,
      Comment.findByIdAndUpdate, Comment.toggleLike, Comment.save,
      Comment.pre_save, Comment.findById;
    repeat case_match; simplify_eq/=; unfold keyed_by_id; simpl;
    split_and!; try done; repeat keyed_step; simpl; try done.
  all: try (by (eapply Hb || eapply Hc || eapply Hu)).
  all: match goal with
       | E : Blog._id ?x = Blog._id ?y |- Blog._id ?x = _ =>
           rewrite E; by eapply Hb
       end.
Qed.

Lemma run_keyed_by_id trace : ∀ db,
  keyed_by_id db → keyed_by_id (run trace db).
Proof.
  induction trace as [|[now rq] trace IH]; intros db Hk; [done|].
  simpl. by apply IH, api_keyed_by_id.
Qed.

(** In every state the API reaches, each document is stored under its own
    [_id]. *)
Lemma reachable_keyed_by_id db : reachable db → keyed_by_id db.
Proof.
  intros [trace <-]. apply run_keyed_by_id.
  unfold keyed_by_id, empty_db. simpl. split_and!; apply map_Forall_empty.
Qed.

End keyed.

(** ** Authors *)

Lemma authors_kept_same db db' :
  blogs db' = blogs db → comments db' = comments db → authors_kept db db'.
Proof. intros Hb Hc. split; intros ???; rewrite ?Hb, ?Hc; congruence. Qed.

Lemma authors_kept_write_blog db db' k new :
  blogs db' = <[k := new]> (blogs db) → comments db' = comments db →
  (∀ old, blogs db !! k = Some old → Blog.author new = Blog.author old) →
  authors_kept db db'.
Proof.
  intros Hb Hc Hk. split; intros i x x'; rewrite ?Hb, ?Hc; [|congruence].
  destruct (decide (k = i)) as [->|Hne].
  - rewrite lookup_insert_eq. intros Hx ?. simplify_eq. by apply Hk.
  - rewrite lookup_insert_ne by done. congruence.
Qed.

Lemma authors_kept_write_comment db db' k new :
  blogs db' = blogs db → comments db' = <[k := new]> (comments db) →
  (∀ old, comments db !! k = Some old → Comment.author new = Comment.author old) →
  authors_kept db db'.
Proof.
  intros Hb Hc Hk. split; intros i x x'; rewrite ?Hb, ?Hc; [congruence|].
  destruct (decide (k = i)) as [->|Hne].
  - rewrite lookup_insert_eq. intros Hx ?. simplify_eq. by apply Hk.
  - rewrite lookup_insert_ne by done. congruence.
Qed.

Lemma authors_kept_delete_blog db db' k :
  blogs db' = delete k (blogs db) → comments db' = comments db →
  authors_kept db db'.
Proof.
  intros Hb Hc. split; intros i x x'; rewrite ?Hb, ?Hc; [|congruence].
  intros Hx [_ Hx']%lookup_delete_Some. congruence.
Qed.

Lemma toggled_blog_author u (b : Blog.t) :
  Blog.author
    (if JS.indexOf (Blog.likes b) u >? -1
     then Blog.set_likes (JS.splice1 (Blog.likes b) (JS.indexOf (Blog.likes b) u)) b
     else Blog.set_likes (JS.push (Blog.likes b) u) b) = Blog.author b
  ∧ Blog._id
      (if JS.indexOf (Blog.likes b) u >? -1
       then Blog.set_likes (JS.splice1 (Blog.likes b) (JS.indexOf (Blog.likes b) u)) b
       else Blog.set_likes (JS.push (Blog.likes b) u) b) = Blog._id b.
Proof. by destruct (_ >? _). Qed.

Lemma toggled_comment_author u (c : Comment.t) :
  Comment.author
    (if JS.indexOf (Comment.likes c) u >? -1
     then Comment.set_likes
            (JS.splice1 (Comment.likes c) (JS.indexOf (Comment.likes c) u)) c
     else Comment.set_likes (JS.push (Comment.likes c) u) c) = Comment.author c
  ∧ Comment._id
      (if JS.indexOf (Comment.likes c) u >? -1
       then Comment.set_likes
              (JS.splice1 (Comment.likes c) (JS.indexOf (Comment.likes c) u)) c
       else Comment.set_likes (JS.push (Comment.likes c) u) c) = Comment._id c.
Proof. by destruct (_ >? _). Qed.

Section authors.
Context `{Deps}.

Lemma protect_inl auth db r : protect auth db = inl r → r = unauthenticated.
Proof. unfold protect. intros. repeat case_match; by simplify_eq. Qed.

Lemma register_authors_kept body db : authors_kept db (Auth.register body db).2.
Proof.
  unfold Auth.register, User.create.
  repeat case_match; simplify_eq; by apply authors_kept_same.
Qed.

Lemma delete_account_authors_kept auth db :
  authors_kept db (Auth.delete_account auth db).2.
Proof.
  unfold Auth.delete_account. repeat case_match; by apply authors_kept_same.
Qed.

Lemma seedAdmin_authors_kept n e p reset db :
  authors_kept db (Scripts.seedAdmin n e p reset db).
Proof.
  unfold Scripts.seedAdmin, User.create.
  repeat case_match; simplify_eq; by apply authors_kept_same.
Qed.

Lemma get_id_authors_kept id now db :
  keyed_by_id db → authors_kept db (Blogs.get_id id now db).2.
Proof.
  intros (_ & Hk & _). unfold Blogs.get_id, Blog.findById.
  destruct (blogs db !! id) as [b|] eqn:Hb; [|by apply authors_kept_same].
  unfold Blog.incrementViews.
  case_bool_decide; [by apply authors_kept_same|].
  simpl. eapply authors_kept_write_blog; [done..|].
  simpl. rewrite (Hk id b Hb), Hb. intros; by simplify_eq.
Qed.

Lemma blogs_like_authors_kept auth id now db :
  keyed_by_id db → authors_kept db (Blogs.like auth id now db).2.
Proof.
  intros (_ & Hk & _). unfold Blogs.like, Blog.findById.
  destruct (protect auth db); [by apply authors_kept_same|].
  destruct (blogs db !! id) as [b|] eqn:Hb; [|by apply authors_kept_same].
  unfold Blog.toggleLike, Blog.save. simpl.
  destruct (toggled_blog_author (User._id t) b) as [Ha Hi].
  eapply authors_kept_write_blog; [done..|].
  simpl. rewrite Hi, Ha, (Hk id b Hb), Hb. intros; by simplify_eq.
Qed.

Lemma blogs_create_authors_kept auth body now db :
  authors_kept db (Blogs.create auth body now db).2.
Proof.
  unfold Blogs.create, Blog.create.
  destruct (protect auth db); [by apply authors_kept_same|].
  destruct (validateBlog body); [|by apply authors_kept_same].
  destruct (Blog.build _ _ _) as [doc|] eqn:Hb; [|by apply authors_kept_same].
  destruct (Blog.valid doc); [|by apply authors_kept_same].
  assert (Blog._id doc = new_ObjectId db) as Hid.
  { unfold Blog.build in Hb. by simplify_option_eq. }
  eapply authors_kept_write_blog; [done..|].
  simpl. rewrite Hid. intros old Hold.
  destruct (new_ObjectId_fresh db) as (_ & Hf & _). congruence.
Qed.

Lemma blogs_delete_authors_kept auth id db :
  authors_kept db (Blogs.delete auth id db).2.
Proof.
  unfold Blogs.delete.
  destruct (protect auth db); [by apply authors_kept_same|].
  destruct (checkOwnership _ _); [by apply authors_kept_same|].
  by eapply authors_kept_delete_blog.
Qed.

Lemma blogs_update_author auth id body now db :
  ∀ b b', blogs db !! id = Some b →
          blogs (Blogs.update auth id body now db).2 !! id = Some b' →
          Blog.author b' = Blog.author b
          ∨ ∃ body' a, validateBlog body = Some body'
                       ∧ Blog.b_author body' = Some a ∧ Blog.author b' = a.
Proof.
  intros b b' Hb. unfold Blogs.update, Blog.findById, Blog.findByIdAndUpdate.
  rewrite Hb.
  destruct (protect auth db); [simpl; left; congruence|].
  destruct (checkOwnership _ _); [simpl; left; congruence|].
  destruct (validateBlog body) as [body'|]; [|simpl; left; congruence].
  set (body'' := if _ && _ then _ else body').
  assert (Blog.b_author body'' = Blog.b_author body') as Ha
    by (subst body''; by destruct (_ && _)).
  cbn beta iota.
  destruct (Blog.apply_update now body'' b) as [doc|] eqn:Hu;
    [|simpl; left; congruence].
  destruct (Blog.valid_update _ doc); [|simpl; left; congruence].
  simpl. rewrite lookup_insert_eq. intros [= <-].
  unfold Blog.apply_update in Hu.
  destruct (match Blog.b_status body'' with
            | Some s => Blog.cast_status s
            | None => Some (Blog.status b)
            end) as [st|]; [|done].
  simpl in Hu. injection Hu as <-. simpl.
  rewrite Ha. destruct (Blog.b_author body') as [a|] eqn:Ea; [right|by left].
  by exists body', a.
Qed.

Lemma blogs_update_other auth id body now db i :
  i ≠ id →
  blogs (Blogs.update auth id body now db).2 !! i = blogs db !! i.
Proof.
  intros Hne. unfold Blogs.update, Blog.findByIdAndUpdate.
  repeat case_match; simplify_eq; simpl; try done;
    by rewrite lookup_insert_ne.
Qed.

Lemma blogs_update_comments auth id body now db :
  comments (Blogs.update auth id body now db).2 = comments db.
Proof.
  unfold Blogs.update, Blog.findByIdAndUpdate.
  repeat case_match; by simplify_eq.
Qed.

End authors.

Section comment_authors.
Context `{Deps}.

Lemma comments_create_authors_kept auth blogId body now db :
  authors_kept db (Comments.create auth blogId body now db).2.
Proof.
  unfold Comments.create.
  destruct (protect auth db); [by apply authors_kept_same|].
  destruct (validateComment body); [|by apply authors_kept_same].
  destruct (Blog.findById _ _); [|by apply authors_kept_same].
  destruct (Comment.create _ _ _ _) as [e|[doc coll]] eqn:Hc;
    [by apply authors_kept_same|].
  apply Comment_create_inv in Hc as (Hb & _ & ->).
  eapply authors_kept_write_comment; [done..|].
  intros old Hold.
  destruct (new_ObjectId_fresh db) as (_ & _ & Hf & _). congruence.
Qed.

Lemma comments_reply_authors_kept auth commentId body now db :
  authors_kept db (Comments.reply auth commentId body now db).2.
Proof.
  unfold Comments.reply.
  destruct (protect auth db); [by apply authors_kept_same|].
  destruct (validateComment body); [|by apply authors_kept_same].
  destruct (Comment.findById _ _); [|by apply authors_kept_same].
  destruct (Comment.create _ _ _ _) as [e|[doc coll]] eqn:Hc;
    [by apply authors_kept_same|].
  apply Comment_create_inv in Hc as (Hb & _ & ->).
  eapply authors_kept_write_comment; [done..|].
  intros old Hold.
  destruct (new_ObjectId_fresh db) as (_ & _ & Hf & _). congruence.
Qed.

Lemma comments_delete_authors_kept auth id now db :
  authors_kept db (Comments.delete auth id now db).2.
Proof.
  unfold Comments.delete, Comment.findByIdAndUpdate.
  destruct (protect auth db); [by apply authors_kept_same|].
  destruct (checkOwnership _ _); [by apply authors_kept_same|].
  destruct (comments db !! id) as [c|] eqn:Hc; [|by apply authors_kept_same].
  simpl. eapply authors_kept_write_comment; [done..|].
  rewrite Hc. intros; by simplify_eq.
Qed.

Lemma comments_like_authors_kept auth id now db :
  keyed_by_id db → authors_kept db (Comments.like auth id now db).2.
Proof.
  intros (_ & _ & Hk). unfold Comments.like, Comment.findById.
  destruct (protect auth db); [by apply authors_kept_same|].
  destruct (comments db !! id) as [c|] eqn:Hc; [|by apply authors_kept_same].
  unfold Comment.toggleLike, Comment.save, Comment.pre_save. simpl.
  destruct (toggled_comment_author (User._id t) c) as [Ha Hi].
  eapply authors_kept_write_comment; [done..|].
  simpl. rewrite Hi, Ha, (Hk id c Hc), Hc. intros; by simplify_eq.
Qed.

Lemma comments_update_author auth id body now db :
  ∀ c c', comments db !! id = Some c →
          comments (Comments.update auth id body now db).2 !! id = Some c' →
          Comment.author c' = Comment.author c
          ∨ ∃ body' a, validateComment body = Some body'
                       ∧ Comment.b_author body' = Some a
                       ∧ Comment.author c' = a.
Proof.
  intros c c' Hc.
  unfold Comments.update, Comment.findById, Comment.findByIdAndUpdate.
  rewrite Hc.
  destruct (protect auth db); [simpl; left; congruence|].
  destruct (checkOwnership _ _); [simpl; left; congruence|].
  destruct (validateComment body) as [body'|]; [|simpl; left; congruence].
  destruct (_ && _); [simpl; left; congruence|].
  simpl. rewrite lookup_insert_eq. intros [= <-]. simpl.
  destruct (Comment.b_author body') as [a|] eqn:Ea; [right|by left].
  by exists body', a.
Qed.

Lemma comments_update_other auth id body now db i :
  i ≠ id →
  comments (Comments.update auth id body now db).2 !! i = comments db !! i.
Proof.
  intros Hne. unfold Comments.update, Comment.findByIdAndUpdate.
  repeat case_match; simplify_eq; simpl; try done;
    by rewrite lookup_insert_ne.
Qed.

Lemma comments_update_blogs auth id body now db :
  blogs (Comments.update auth id body now db).2 = blogs db.
Proof.
  unfold Comments.update, Comment.findByIdAndUpdate.
  repeat case_match; by simplify_eq.
Qed.

(** The author a creating route stores is the principal. *)
Lemma blogs_create_author auth body now db p :
  protect auth db = inr p →
  status (Blogs.create auth body now db).1 = 201 →
  ∃ b,
    data (Blogs.create auth body now db).1
    = blog_data (Some (mkBlogView b None None))
    ∧ blogs (Blogs.create auth body now db).2 !! Blog._id b = Some b
    ∧ Blog.author b = User._id p.
Proof.
  intros Hp. unfold Blogs.create, Blog.create. rewrite Hp.
  destruct (validateBlog body) as [body'|]; [|done].
  cbn zeta.
  set (body'' := if _ && _ then _ else _).
  assert (Blog.b_author body'' = Some (User._id p)) as Ha
    by (subst body''; by destruct (_ && _)).
  destruct (Blog.build _ _ body'') as [doc|] eqn:Hb; [|done].
  destruct (Blog.valid doc); [|done].
  intros _. exists doc. simpl. split_and!; [done|apply lookup_insert_eq|].
  unfold Blog.build in Hb. rewrite Ha in Hb. by simplify_option_eq.
Qed.

Lemma comments_create_author auth blogId body now db p :
  protect auth db = inr p →
  status (Comments.create auth blogId body now db).1 = 201 →
  ∃ c,
    data (Comments.create auth blogId body now db).1 = comment_data (Some c)
    ∧ comments (Comments.create auth blogId body now db).2
        !! Comment._id c = Some c
    ∧ Comment.author c = User._id p.
Proof.
  intros Hp. unfold Comments.create. rewrite Hp.
  destruct (validateComment body) as [body'|]; [|done].
  destruct (Blog.findById _ _); [|done].
  destruct (Comment.create _ _ _ _) as [e|[doc coll]] eqn:Hc; [by destruct e|].
  apply Comment_create_inv in Hc as (Hb & _ & ->).
  intros _. exists doc. simpl.
  unfold Comment.build in Hb. simpl in Hb.
  destruct (Comment.b_content body'); simplify_eq/=.
  split_and!; [done|apply lookup_insert_eq|done].
Qed.

Lemma comments_reply_author auth commentId body now db p :
  protect auth db = inr p →
  status (Comments.reply auth commentId body now db).1 = 201 →
  ∃ c,
    data (Comments.reply auth commentId body now db).1 = comment_data (Some c)
    ∧ comments (Comments.reply auth commentId body now db).2
        !! Comment._id c = Some c
    ∧ Comment.author c = User._id p.
Proof.
  intros Hp. unfold Comments.reply. rewrite Hp.
  destruct (validateComment body) as [body'|]; [|done].
  destruct (Comment.findById _ _); [|done].
  destruct (Comment.create _ _ _ _) as [e|[doc coll]] eqn:Hc; [by destruct e|].
  apply Comment_create_inv in Hc as (Hb & _ & ->).
  intros _. exists doc. simpl.
  unfold Comment.build in Hb. simpl in Hb.
  destruct (Comment.b_content body'); simplify_eq/=.
  split_and!; [done|apply lookup_insert_eq|done].
Qed.

(** What an update does to the author: answered 200, it has stored the
    author of the body where the body has one and kept the author
    otherwise; answered otherwise, it has written nothing. *)
Lemma blogs_update_author_exact auth id body now db b :
  blogs db !! id = Some b →
  (status (Blogs.update auth id body now db).1 = 200 →
   ∃ body' b',
     validateBlog body = Some body'
     ∧ blogs (Blogs.update auth id body now db).2 !! id = Some b'
     ∧ Blog.author b' = default (Blog.author b) (Blog.b_author body'))
  ∧ (status (Blogs.update auth id body now db).1 ≠ 200 →
     (Blogs.update auth id body now db).2 = db).
Proof.
  intros Hb. unfold Blogs.update, Blog.findById, Blog.findByIdAndUpdate.
  rewrite Hb.
  destruct (protect auth db) as [r|u] eqn:Hp.
  { apply protect_inl in Hp as ->. by split. }
  destruct (checkOwnership _ _) as [r|] eqn:Ho.
  { unfold checkOwnership in Ho. simpl in Ho.
    destruct (authorizeOwnership _ _); simplify_eq. by split. }
  destruct (validateBlog body) as [body'|]; [|by split].
  set (body'' := if _ && _ then _ else body').
  assert (Blog.b_author body'' = Blog.b_author body') as Ha
    by (subst body''; by destruct (_ && _)).
  cbn beta iota.
  destruct (Blog.apply_update now body'' b) as [doc|] eqn:Hu; [|by split].
  destruct (Blog.valid_update _ doc); [|by split].
  simpl. split; [intros _|done].
  exists body', doc. rewrite lookup_insert_eq. split_and!; [done..|].
  unfold Blog.apply_update in Hu.
  destruct (match Blog.b_status body'' with
            | Some s => Blog.cast_status s
            | None => Some (Blog.status b)
            end) as [st|]; [|done].
  simpl in Hu. injection Hu as <-. simpl. by rewrite Ha.
Qed.

Lemma comments_update_author_exact auth id body now db c :
  comments db !! id = Some c →
  (status (Comments.update auth id body now db).1 = 200 →
   ∃ body' c',
     validateComment body = Some body'
     ∧ comments (Comments.update auth id body now db).2 !! id = Some c'
     ∧ Comment.author c' = default (Comment.author c) (Comment.b_author body'))
  ∧ (status (Comments.update auth id body now db).1 ≠ 200 →
     (Comments.update auth id body now db).2 = db).
Proof.
  intros Hc.
  unfold Comments.update, Comment.findById, Comment.findByIdAndUpdate.
  rewrite Hc.
  destruct (protect auth db) as [r|u] eqn:Hp.
  { apply protect_inl in Hp as ->. by split. }
  destruct (checkOwnership _ _) as [r|] eqn:Ho.
  { unfold checkOwnership in Ho. simpl in Ho.
    destruct (authorizeOwnership _ _); simplify_eq. by split. }
  destruct (validateComment body) as [body'|]; [|by split].
  destruct (_ && _); [by split|].
  simpl. split; [intros _|done].
  exists body'. eexists. rewrite lookup_insert_eq. by split_and!.
Qed.

(** Every request but an update that carries an author keeps the authors. *)
Lemma api_authors_kept now rq db :
  keyed_by_id db → ¬ carries_author rq → authors_kept db (api now rq db).2.
Proof.
  intros Hk Hn. destruct rq; simpl in *;
    auto using register_authors_kept, delete_account_authors_kept,
      get_id_authors_kept, blogs_create_authors_kept,
      blogs_delete_authors_kept, blogs_like_authors_kept,
      comments_create_authors_kept, comments_reply_authors_kept,
      comments_delete_authors_kept, comments_like_authors_kept,
      seedAdmin_authors_kept, authors_kept_same.
  - split.
    + intros i b b' Hb Hb'. destruct (decide (i = id)) as [->|Hne].
      * destruct (blogs_update_author auth id body now db b b' Hb Hb')
          as [?|(body' & a & ? & ? & ?)]; [done|].
        exfalso. apply Hn. by exists body'.
      * rewrite blogs_update_other in Hb' by done. congruence.
    + intros i c c'. rewrite blogs_update_comments. congruence.
  - split.
    + intros i b b'. rewrite comments_update_blogs. congruence.
    + intros i c c' Hc Hc'. destruct (decide (i = id)) as [->|Hne].
      * destruct (comments_update_author auth id body now db c c' Hc Hc')
          as [?|(body' & a & ? & ? & ?)]; [done|].
        exfalso. apply Hn. by exists body'.
      * rewrite comments_update_other in Hc' by done. congruence.
Qed.

End comment_authors.

(** C3, amended.  The three creating routes store the id of the creating
    principal as [author], whatever the body carried.  Afterwards every
    request leaves the author of every stored post and comment as it is,
    except an update whose body carries an [author] field.  An update that
    is answered 200 stores the author of the body, as the validator hands
    the body on, when the body has one, and the author that was there when
    it has none; an update that is answered otherwise writes nothing. *)
Theorem author_set_at_creation_and_kept `{Deps} (now : Date) (db : DB) :
  keyed_by_id db →
  (∀ auth p,
     protect auth db = inr p →
     (∀ body,
        status (Blogs.create auth body now db).1 = 201 →
        ∃ b,
          data (Blogs.create auth body now db).1
          = blog_data (Some (mkBlogView b None None))
          ∧ blogs (Blogs.create auth body now db).2 !! Blog._id b = Some b
          ∧ Blog.author b = User._id p)
     ∧ (∀ blogId body,
          status (Comments.create auth blogId body now db).1 = 201 →
          ∃ c,
            data (Comments.create auth blogId body now db).1
            = comment_data (Some c)
            ∧ comments (Comments.create auth blogId body now db).2
                !! Comment._id c = Some c
            ∧ Comment.author c = User._id p)
     ∧ (∀ commentId body,
          status (Comments.reply auth commentId body now db).1 = 201 →
          ∃ c,
            data (Comments.reply auth commentId body now db).1
            = comment_data (Some c)
            ∧ comments (Comments.reply auth commentId body now db).2
                !! Comment._id c = Some c
            ∧ Comment.author c = User._id p))
  ∧ (∀ rq, ¬ carries_author rq → authors_kept db (api now rq db).2)
  ∧ (∀ auth id body b,
       blogs db !! id = Some b →
       (status (Blogs.update auth id body now db).1 = 200 →
        ∃ body' b',
          validateBlog body = Some body'
          ∧ blogs (Blogs.update auth id body now db).2 !! id = Some b'
          ∧ Blog.author b' = default (Blog.author b) (Blog.b_author body'))
       ∧ (status (Blogs.update auth id body now db).1 ≠ 200 →
          (Blogs.update auth id body now db).2 = db))
  ∧ (∀ auth id body c,
       comments db !! id = Some c →
       (status (Comments.update auth id body now db).1 = 200 →
        ∃ body' c',
          validateComment body = Some body'
          ∧ comments (Comments.update auth id body now db).2 !! id = Some c'
          ∧ Comment.author c'
            = default (Comment.author c) (Comment.b_author body'))
       ∧ (status (Comments.update auth id body now db).1 ≠ 200 →
          (Comments.update auth id body now db).2 = db)).
Proof.
  intros Hk. split_and!.
  - intros auth p Hp. split_and!; intros.
    + by apply blogs_create_author.
    + by apply comments_create_author.
    + by apply comments_reply_author.
  - intros rq Hn. by apply api_authors_kept.
  - intros. by apply blogs_update_author_exact.
  - intros. by apply comments_update_author_exact.
Qed.

Lemma author_set_at_creation_and_kept_witness :
  (authors_kept thread_db
     (api (H:=checkDeps) 7
        (PUT_comments_id (Some 1%positive) 5 (comment_body "An edited reply."))
        thread_db).2
   ∧ comments
       (api (H:=checkDeps) 7
          (PUT_comments_id (Some 1%positive) 5
             (comment_body "An edited reply."))
          thread_db).2 !! 5%positive
     = Some (Comment.mk 5 "An edited reply." 1 3 (Some 4%positive) false None
               [] true 5 7))
  ∧ ∃ c',
      comments (Comments.update (H:=checkDeps) (Some 1%positive) 5
                  reassigning_body 7 thread_db).2 !! 5%positive = Some c'
      ∧ Comment.author c' = 2%positive.
Proof.
  destruct (author_set_at_creation_and_kept (H:=checkDeps) 7 thread_db)
    as (_ & Hkept & _ & Hupdate).
  - unfold keyed_by_id. split_and!; by_evaluation.
  - split; [split; [|vm_compute; reflexivity]|].
    + apply Hkept.
      intros (body' & Hv & Ha). vm_compute in Hv. injection Hv as <-.
      by destruct Ha.
    + destruct (proj1 (Hupdate (Some 1%positive) 5%positive reassigning_body
                         alice_reply ltac:(vm_compute; reflexivity))
                  ltac:(vm_compute; reflexivity))
        as (body' & c' & Hv & Hc' & Ha).
      vm_compute in Hv. injection Hv as <-.
      exists c'. exact (conj Hc' Ha).
Defined.

(** C3 as stated fails on an update whose body names an author: Alice
    updates her reply with [author] set to Bob's id, and the stored reply
    is Bob's. *)
Lemma update_reassigns_author_counterexample :
  ∃ c',
    comments thread_db !! 5%positive = Some alice_reply
    ∧ Comment.author alice_reply = 1%positive
    ∧ status (Comments.update (H:=checkDeps) (Some 1%positive) 5
                reassigning_body 7 thread_db).1 = 200
    ∧ comments (Comments.update (H:=checkDeps) (Some 1%positive) 5
                  reassigning_body 7 thread_db).2 !! 5%positive = Some c'
    ∧ Comment.author c' = 2%positive.
Proof.
  eexists. split_and!; vm_compute; reflexivity.
Qed.

(** ** The like count *)

Section like_count.
Variable users : gmap ObjectId User.t.
Hypothesis users_keyed : map_Forall (λ i u, User._id u = i) users.

Lemma User_ids_NoDup : NoDup (User._id <$> User.docs users).
Proof.
  unfold User.docs. rewrite <- list_fmap_compose.
  rewrite (list_fmap_ext (User._id ∘ snd) fst (map_to_list users)).
  - apply NoDup_fst_map_to_list.
  - intros j [i u] Hin%list_elem_of_lookup_2%elem_of_map_to_list. simpl.
    by apply users_keyed.
Qed.

Lemma elem_of_User_ids (i : ObjectId) :
  i ∈ User._id <$> User.docs users ↔ is_Some (users !! i).
Proof.
  rewrite list_elem_of_fmap. split.
  - intros (u & -> & [j Hj]%elem_of_User_docs).
    rewrite (users_keyed j u Hj). by eexists.
  - intros [u Hu]. exists u. split.
    + symmetry. by apply users_keyed.
    + apply elem_of_User_docs. by exists i.
Qed.

(** The documents the virtual counts are, id for id, the likes that
    refer to a stored user. *)
Lemma counted_users_are_existing_likers (likes : list ObjectId) :
  NoDup likes →
  User._id <$> filter (λ u, User._id u ∈ likes) (User.docs users)
  ≡ₚ existing_likers users likes.
Proof.
  intros Hl. apply NoDup_Permutation.
  - eapply sublist_NoDup; [apply User_ids_NoDup|].
    apply fmap_sublist, sublist_filter.
  - by apply NoDup_filter.
  - intros i. unfold existing_likers.
    rewrite list_elem_of_filter, <- elem_of_User_ids, !list_elem_of_fmap.
    split.
    + intros (u & -> & [Hin Hu]%list_elem_of_filter). eauto.
    + intros [(u & -> & Hu) Hin]. exists u. split; [done|].
      by apply list_elem_of_filter.
Qed.

Lemma count_existing_likers (likes : list ObjectId) :
  NoDup likes →
  length (filter (λ u, User._id u ∈ likes) (User.docs users))
  = length (existing_likers users likes).
Proof.
  intros Hl. rewrite <- (counted_users_are_existing_likers likes Hl).
  by rewrite length_fmap.
Qed.

Lemma existing_likers_all (likes : list ObjectId) :
  length (existing_likers users likes) = length likes
  ↔ ∀ i, i ∈ likes → is_Some (users !! i).
Proof.
  unfold existing_likers. split.
  - intros Hlen i Hi. destruct (decide (is_Some (users !! i))); [done|].
    pose proof (length_filter_lt (λ i, is_Some (users !! i)) likes i Hi) as Hlt.
    specialize (Hlt ltac:(done)). lia.
  - intros Hall. f_equal. induction likes as [|i likes IH]; [done|].
    rewrite filter_cons_True by (apply Hall; left).
    f_equal. apply IH. intros j Hj. apply Hall. by right.
Qed.

End like_count.

(** C9, amended.  Where every user is stored under its id and the [likes]
    array of a post or of a comment holds no id twice, the derived
    [likeCount] is the number of ids in [likes] that refer to a stored user.
    It is never more than the number of likes, and it is that number exactly
    when every id in [likes] refers to a stored user.  The single-post route
    serves this count. *)
Theorem likeCount_counts_existing_likers
    (db : DB) (b : Blog.t) (c : Comment.t) (now : Date) :
  map_Forall (λ i u, User._id u = i) (users db) →
  NoDup (Blog.likes b) → NoDup (Comment.likes c) →
  (Blog.likeCount (users db) b
   = length (existing_likers (users db) (Blog.likes b))
   ∧ (Blog.likeCount (users db) b ≤ length (Blog.likes b))%nat
   ∧ (Blog.likeCount (users db) b = length (Blog.likes b)
      ↔ ∀ i, i ∈ Blog.likes b → is_Some (users db !! i)))
  ∧ (Comment.likeCount (users db) c
     = length (existing_likers (users db) (Comment.likes c))
     ∧ (Comment.likeCount (users db) c ≤ length (Comment.likes c))%nat
     ∧ (Comment.likeCount (users db) c = length (Comment.likes c)
        ↔ ∀ i, i ∈ Comment.likes c → is_Some (users db !! i)))
  ∧ (blogs db !! Blog._id b = Some b →
     ∃ b' cc,
       data (Blogs.get_id (Blog._id b) now db).1
       = blog_data (Some (mkBlogView b' cc
                            (Some (length (existing_likers (users db)
                                             (Blog.likes b))))))).
Proof.
  intros Hk Hb Hc.
  assert (Blog.likeCount (users db) b
          = length (existing_likers (users db) (Blog.likes b))) as Eb
    by by apply count_existing_likers.
  assert (Comment.likeCount (users db) c
          = length (existing_likers (users db) (Comment.likes c))) as Ec
    by by apply count_existing_likers.
  split_and!; try done.
  - rewrite Eb. apply length_filter.
  - rewrite Eb. apply existing_likers_all.
  - rewrite Ec. apply length_filter.
  - rewrite Ec. apply existing_likers_all.
  - intros Hin. rewrite (get_id_served _ now db b Hin). simpl.
    rewrite Eb. eauto.
Qed.

Lemma likeCount_counts_existing_likers_witness :
  Blog.likeCount (users thread_db) (sample_blog 3 1 [1; 2; 9]%positive) = 2%nat
  ∧ Comment.likeCount (users thread_db)
      (sample_comment 5 1 3 None [9; 2]%positive true) = 1%nat.
Proof.
  destruct (likeCount_counts_existing_likers thread_db
              (sample_blog 3 1 [1; 2; 9]%positive)
              (sample_comment 5 1 3 None [9; 2]%positive true) 7)
    as ((Eb & _) & (Ec & _) & _); [by_evaluation..|].
  split; [rewrite Eb | rewrite Ec]; vm_compute; reflexivity.
Defined.

(** C9 as stated fails once a user who liked a post is gone.  Bob likes
    Alice's post and deletes his account: the post still holds his id in
    [likes], and the route serves a [likeCount] of 0. *)
Lemma likeCount_after_account_deletion_counterexample :
  reachable (H:=checkDeps) orphan_like_db
  ∧ ∃ b b' cc,
      blogs orphan_like_db !! 3%positive = Some b
      ∧ Blog.likes b = [2%positive]
      ∧ users orphan_like_db !! 2%positive = None
      ∧ Blog.likeCount (users orphan_like_db) b = 0%nat
      ∧ length (Blog.likes b) = 1%nat
      ∧ data (Blogs.get_id 3 9 orphan_like_db).1
        = blog_data (Some (mkBlogView b' cc (Some 0%nat))).
Proof.
  split; [by exists orphan_like_trace|].
  do 3 eexists. split_and!; vm_compute; reflexivity.
Qed.

(** ** Listings and soft-deleted comments *)

Lemma elem_of_Comment_docs (coll : gmap ObjectId Comment.t) (c : Comment.t) :
  c ∈ Comment.docs coll ↔ ∃ i, coll !! i = Some c.
Proof.
  unfold Comment.docs. rewrite list_elem_of_fmap. split.
  - intros ([i c'] & -> & Hin). exists i. by apply elem_of_map_to_list.
  - intros [i Hi]. exists (i, c). split; [done|]. by apply elem_of_map_to_list.
Qed.

Lemma cursor_sublist {A} (skip limit : Z) (l l' : list A) :
  cursor skip limit l = inr l' → l' `sublist_of` l.
Proof.
  unfold cursor. repeat case_match; intros; simplify_eq.
  - apply sublist_drop.
  - etrans; [apply sublist_take|apply sublist_drop].
Qed.

Lemma cursor_first_page {A} (limit : Z) (l : list A) :
  limit ≠ 0 → Z.of_nat (length l) ≤ Z.abs limit →
  cursor ((1 - 1) * limit) limit l = inr l.
Proof.
  intros Hne Hlen. unfold cursor. simpl.
  destruct (Z.eqb_spec limit 0); [done|].
  f_equal. apply take_ge. rewrite Zabs2Nat.abs_nat_spec. lia.
Qed.

Lemma sorted_Permutation ord (l : list Comment.t) : Comment.sorted ord l ≡ₚ l.
Proof. destruct ord; apply merge_sort_Permutation. Qed.

Lemma find_elem_of (P : Comment.t → Prop) `{!∀ c, Decision (P c)}
    ord skip limit coll found c :
  Comment.find P ord skip limit coll = inr found →
  c ∈ found → P c ∧ c ∈ Comment.docs coll.
Proof.
  unfold Comment.find. intros Hf%cursor_sublist Hc.
  eapply elem_of_sublist in Hc; [|done].
  rewrite sorted_Permutation in Hc.
  by apply list_elem_of_filter in Hc.
Qed.

Lemma countDocuments_delete (P : Comment.t → Prop) `{!∀ c, Decision (P c)}
    (coll : gmap ObjectId Comment.t) i c :
  coll !! i = Some c → ¬ P c →
  Comment.countDocuments P (delete i coll) = Comment.countDocuments P coll.
Proof.
  intros Hi Hn. unfold Comment.countDocuments, Comment.docs. f_equal.
  rewrite <- (map_to_list_delete coll i c Hi). simpl.
  by rewrite filter_cons_False.
Qed.

Lemma countDocuments_all (coll : gmap ObjectId Comment.t) :
  Comment.countDocuments (λ _, True) coll = Z.of_nat (size coll).
Proof.
  unfold Comment.countDocuments, Comment.docs. f_equal.
  rewrite <- length_map_to_list, <- (length_fmap snd).
  f_equal. induction ((map_to_list coll).*2) as [|x l IH]; [done|].
  by rewrite filter_cons_True, IH.
Qed.

Lemma elem_of_views (f : Comment.t → CommentView) (found : list Comment.t) c :
  (∀ x, cv_doc (f x) = x) → c ∈ (cv_doc <$> (f <$> found)) ↔ c ∈ found.
Proof.
  intros Hf. rewrite <- list_fmap_compose.
  rewrite (list_fmap_ext (cv_doc ∘ f) id found) by (intros; apply Hf).
  by rewrite list_fmap_id.
Qed.

Section listings.
Variables (db : DB) (i : ObjectId) (c : Comment.t) (q : Paging).
Hypothesis stored : comments db !! i = Some c.
Hypothesis inactive : Comment.isActive c = false.

Lemma list_for_blog_omits blogId l :
  data (Comments.list_for_blog blogId q db) = comment_list l →
  (c ∉ (cv_doc <$> items l))
  ∧ total l
    = Comment.countDocuments
        (λ x, Comment.blog x = blogId ∧ Comment.isActive x = true
              ∧ Comment.parentComment x = None)
        (delete i (comments db)).
Proof.
  unfold Comments.list_for_blog.
  destruct (Blog.findById _ _); [|done].
  destruct (Comment.find _ _ _ _ _) as [e|found] eqn:Hf; [by destruct e|].
  intros [= <-]. simpl. split.
  - rewrite elem_of_views by done.
    intros [(_ & Ha & _) _]%(find_elem_of _ _ _ _ _ _ _ Hf). congruence.
  - symmetry. apply (countDocuments_delete _ _ i c stored).
    intros (_ & Ha & _). congruence.
Qed.

Lemma list_replies_omits commentId l :
  data (Comments.list_replies commentId q db) = comment_list l →
  (c ∉ (cv_doc <$> items l))
  ∧ total l
    = Comment.countDocuments
        (λ x, Comment.parentComment x = Some commentId
              ∧ Comment.isActive x = true)
        (delete i (comments db)).
Proof.
  unfold Comments.list_replies.
  destruct (Comment.find _ _ _ _ _) as [e|found] eqn:Hf; [by destruct e|].
  intros [= <-]. simpl. split.
  - rewrite elem_of_views by done.
    intros [(_ & Ha) _]%(find_elem_of _ _ _ _ _ _ _ Hf). congruence.
  - symmetry. apply (countDocuments_delete _ _ i c stored).
    intros (_ & Ha). congruence.
Qed.

Lemma list_for_user_omits userId l :
  data (Comments.list_for_user userId q db) = comment_list l →
  (c ∉ (cv_doc <$> items l))
  ∧ total l
    = Comment.countDocuments
        (λ x, Comment.author x = userId ∧ Comment.isActive x = true)
        (delete i (comments db)).
Proof.
  unfold Comments.list_for_user.
  destruct (Comment.find _ _ _ _ _) as [e|found] eqn:Hf; [by destruct e|].
  intros [= <-]. simpl. split.
  - rewrite elem_of_views by done.
    intros [(_ & Ha) _]%(find_elem_of _ _ _ _ _ _ _ Hf). congruence.
  - symmetry. apply (countDocuments_delete _ _ i c stored).
    intros (_ & Ha). congruence.
Qed.

Lemma list_all_includes `{Deps} auth l :
  data (Comments.list_all auth q db) = comment_list l →
  total l = Z.of_nat (size (comments db))
  ∧ (JS.parseInt_or (q_page q) 1 = 1 →
     Z.of_nat (size (comments db)) ≤ Z.abs (JS.parseInt_or (q_limit q) 10) →
     c ∈ (cv_doc <$> items l)).
Proof.
  unfold Comments.list_all.
  destruct (protect auth db) as [r|p] eqn:Hp.
  { apply protect_inl in Hp as ->. done. }
  destruct (authorize role_admin p) as [r|] eqn:Ha.
  { unfold authorize in Ha. case_match; by simplify_eq. }
  destruct (Comment.find _ _ _ _ _) as [e|found] eqn:Hf; [by destruct e|].
  intros [= <-]. simpl. split; [apply countDocuments_all|].
  intros Hpage Hsize. rewrite elem_of_views by done.
  unfold Comment.find in Hf. rewrite Hpage in Hf.
  rewrite cursor_first_page in Hf.
  - injection Hf as Hf. subst found. rewrite merge_sort_Permutation.
    apply list_elem_of_filter. split; [done|].
    apply elem_of_Comment_docs. by exists i.
  - unfold JS.parseInt_or. repeat case_match; lia.
  - rewrite (Permutation_length (sorted_Permutation _ _)).
    pose proof (countDocuments_all (comments db)) as Hc.
    unfold Comment.countDocuments in Hc. lia.
Qed.

End listings.

(** C1, amended.  A stored comment whose [isActive] is false is in no page
    of the top-level listing of a post, of the reply listing of a comment
    and of the listing of a user's comments, and the [total] of each of the
    three is the count over the collection without it.  The admin listing
    of all comments is not filtered: its [total] is the size of the
    collection, and its first page holds the comment when the page is large
    enough for the collection. *)
Theorem soft_deleted_comment_listings `{Deps}
    (db : DB) (i : ObjectId) (c : Comment.t) (q : Paging) :
  comments db !! i = Some c → Comment.isActive c = false →
  (∀ blogId l,
     data (Comments.list_for_blog blogId q db) = comment_list l →
     (c ∉ (cv_doc <$> items l))
     ∧ total l
       = Comment.countDocuments
           (λ x, Comment.blog x = blogId ∧ Comment.isActive x = true
                 ∧ Comment.parentComment x = None)
           (delete i (comments db)))
  ∧ (∀ commentId l,
       data (Comments.list_replies commentId q db) = comment_list l →
       (c ∉ (cv_doc <$> items l))
       ∧ total l
         = Comment.countDocuments
             (λ x, Comment.parentComment x = Some commentId
                   ∧ Comment.isActive x = true)
             (delete i (comments db)))
  ∧ (∀ userId l,
       data (Comments.list_for_user userId q db) = comment_list l →
       (c ∉ (cv_doc <$> items l))
       ∧ total l
         = Comment.countDocuments
             (λ x, Comment.author x = userId ∧ Comment.isActive x = true)
             (delete i (comments db)))
  ∧ (∀ auth l,
       data (Comments.list_all auth q db) = comment_list l →
       total l = Z.of_nat (size (comments db))
       ∧ (JS.parseInt_or (q_page q) 1 = 1 →
          Z.of_nat (size (comments db)) ≤ Z.abs (JS.parseInt_or (q_limit q) 10) →
          c ∈ (cv_doc <$> items l))).
Proof.
  intros Hc Ha. split_and!; intros.
  - by eapply list_for_blog_omits.
  - by eapply list_replies_omits.
  - by eapply list_for_user_omits.
  - by eapply list_all_includes.
Qed.

Lemma soft_deleted_comment_listings_witness :
  let l := mkListing 0 0 1 0 [] in
  data (Comments.list_for_user 2 (mkPaging None None) moderated_db)
  = comment_list l
  ∧ (deleted_comment ∉ (cv_doc <$> items l))
  ∧ total l
    = Comment.countDocuments
        (λ x, Comment.author x = 2%positive ∧ Comment.isActive x = true)
        (delete 4%positive (comments moderated_db)).
Proof.
  split; [vm_compute; reflexivity|].
  refine (proj1 (proj2 (proj2
            (soft_deleted_comment_listings (H:=checkDeps) moderated_db 4
               deleted_comment (mkPaging None None) _ _)))
            2%positive (mkListing 0 0 1 0 []) _);
    vm_compute; reflexivity.
Defined.

(** C1 as stated fails on the admin listing and on [commentCount].  In a
    state the API reaches, Bob's soft-deleted comment is on the first page
    of the admin listing and counted in its [total], and the [commentCount]
    served with the post counts it: 2, where the collection without the
    comment gives 1. *)
Lemma admin_listing_and_commentCount_counterexample :
  reachable (H:=checkDeps) moderated_db
  ∧ comments moderated_db !! 4%positive = Some deleted_comment
  ∧ Comment.isActive deleted_comment = false
  ∧ (∃ l,
       data (Comments.list_all (H:=checkDeps) (Some 6%positive)
               (mkPaging None None) moderated_db) = comment_list l
       ∧ deleted_comment ∈ (cv_doc <$> items l)
       ∧ total l = 2)
  ∧ (∃ bv,
       data (Blogs.get_id 3 8 moderated_db).1 = blog_data (Some bv)
       ∧ bv_commentCount bv = Some 2%nat
       ∧ Blog.commentCount (delete 4%positive (comments moderated_db))
           (bv_doc bv) = 1%nat).
Proof.
  split; [by exists moderated_trace|].
  split_and!; [vm_compute; reflexivity..| |].
  - eexists. split_and!; [vm_compute; reflexivity| |vm_compute; reflexivity].
    by_evaluation.
  - eexists. split_and!; vm_compute; reflexivity.
Qed.

(** * Further properties of the code *)

(** ** Pages of a sorted list *)

Lemma newer_Transitive : Transitive Comment.newer.
Proof. intros a b c. unfold Comment.newer. lia. Qed.

Lemma newer_Total : Total Comment.newer.
Proof. intros a b. unfold Comment.newer. lia. Qed.

Lemma older_Transitive : Transitive Comment.older.
Proof. intros a b c. unfold Comment.older. lia. Qed.

Lemma older_Total : Total Comment.older.
Proof. intros a b. unfold Comment.older. lia. Qed.

Lemma sorted_StronglySorted ord (l : list Comment.t) :
  StronglySorted
    (match ord with newest_first => Comment.newer | oldest_first => Comment.older end)
    (Comment.sorted ord l).
Proof.
  destruct ord; simpl; apply StronglySorted_merge_sort;
    auto using newer_Transitive, newer_Total, older_Transitive, older_Total.
Qed.

Lemma StronglySorted_take_drop {A} (R : relation A) (n k : nat) (l : list A) :
  StronglySorted R l → StronglySorted R (take n (drop k l)).
Proof.
  intros Hl. rewrite <- (take_drop k l) in Hl.
  apply StronglySorted_app_1_r in Hl.
  rewrite <- (take_drop n (drop k l)) in Hl.
  by apply StronglySorted_app_1_l in Hl.
Qed.

(** What the cursor returns when it returns: the skip is not negative, and
    the result is a stretch of the list after the skipped items, of at most
    [|limit|] items when there is a limit. *)
Lemma cursor_inv {A} (skip limit : Z) (l l' : list A) :
  cursor skip limit l = inr l' →
  0 ≤ skip
  ∧ (limit ≠ 0 → l' = take (Z.abs_nat limit) (drop (Z.to_nat skip) l))
  ∧ ∃ n, l' = take n (drop (Z.to_nat skip) l).
Proof.
  unfold cursor.
  destruct (Z.ltb_spec skip 0); [done|].
  destruct (Z.eqb_spec limit 0); intros [= <-].
  - split_and!; [done|done|]. exists (length l). apply symmetry, take_ge.
    rewrite length_drop. lia.
  - split_and!; [done|done|]. by eexists.
Qed.

Lemma cursor_window {A} (page limit : Z) (l : list A) :
  1 ≤ page → 1 ≤ limit →
  cursor ((page - 1) * limit) limit l = inr (window page limit l).
Proof.
  intros Hp Hl. unfold cursor, window.
  destruct (Z.ltb_spec ((page - 1) * limit) 0); [nia|].
  destruct (Z.eqb_spec limit 0); [lia|].
  by rewrite Zabs2Nat.abs_nat_nonneg by lia.
Qed.

Lemma parseInt_or_nonzero q d : d ≠ 0 → JS.parseInt_or q d ≠ 0.
Proof.
  intros Hd. unfold JS.parseInt_or.
  destruct q as [n|]; [|done]. by destruct (Z.eqb_spec n 0).
Qed.

(** The item at index [i] of a list is on page [i / limit + 1]. *)
Lemma window_lookup {A} (limit : Z) (l : list A) (i : nat) (x : A) :
  1 ≤ limit → l !! i = Some x →
  x ∈ window (Z.of_nat i `div` limit + 1) limit l.
Proof.
  intros Hl Hi. unfold window.
  replace (Z.of_nat i `div` limit + 1 - 1) with (Z.of_nat i `div` limit) by lia.
  pose proof (Z.div_mod (Z.of_nat i) limit ltac:(lia)) as Hdm.
  pose proof (Z.mod_pos_bound (Z.of_nat i) limit ltac:(lia)) as Hm.
  pose proof (Z.div_pos (Z.of_nat i) limit ltac:(lia) ltac:(lia)) as Hd.
  apply list_elem_of_lookup.
  exists (i - Z.to_nat (Z.of_nat i `div` limit * limit))%nat.
  rewrite lookup_take_lt by lia.
  rewrite lookup_drop. rewrite <- Hi. f_equal. nia.
Qed.

Lemma ceil_div_bounds (total limit : Z) :
  0 ≤ total → 1 ≤ limit →
  (JS.ceil_div total limit - 1) * limit < total ≤ JS.ceil_div total limit * limit
  ∨ (total = 0 ∧ JS.ceil_div total limit = 0).
Proof.
  intros Ht Hl. unfold JS.ceil_div.
  pose proof (Z.div_mod (- total) limit ltac:(lia)) as Hdm.
  pose proof (Z.mod_pos_bound (- total) limit ltac:(lia)) as Hm.
  destruct (decide (total = 0)) as [->|Hne].
  - right. split; [done|]. simpl. rewrite Z.div_0_l by lia. done.
  - left. nia.
Qed.

(** ** The pages of the comment listings *)

Lemma page_docs_views (f : Comment.t → CommentView) (found : list Comment.t)
    (cnt tot pg pgs : Z) :
  (∀ x, cv_doc (f x) = x) →
  page_docs (mkListing cnt tot pg pgs (f <$> found)) = found.
Proof.
  intros Hf. unfold page_docs. simpl. rewrite <- list_fmap_compose.
  rewrite (list_fmap_ext (cv_doc ∘ f) id found) by (intros; apply Hf).
  by rewrite list_fmap_id.
Qed.

Lemma countDocuments_sorted (P : Comment.t → Prop) `{!∀ c, Decision (P c)}
    ord (coll : gmap ObjectId Comment.t) :
  Comment.countDocuments P coll
  = Z.of_nat (length (Comment.sorted ord (filter P (Comment.docs coll)))).
Proof.
  unfold Comment.countDocuments.
  by rewrite (Permutation_length (sorted_Permutation _ _)).
Qed.

Section comment_pages.
Context `{Deps}.

(** A listing route that answers with a page has walked its cursor over
    the comments the request selects. *)
Lemma api_listing_inv now rq db q l :
  paging_of rq = Some q →
  listing_of (api now rq db).1 = Some l →
  cursor ((JS.parseInt_or (q_page q) 1 - 1) * JS.parseInt_or (q_limit q) 10)
    (JS.parseInt_or (q_limit q) 10) (matching rq db) = inr (page_docs l)
  ∧ total l = Z.of_nat (length (matching rq db))
  ∧ count l = Z.of_nat (length (page_docs l))
  ∧ page l = JS.parseInt_or (q_page q) 1
  ∧ pages l = JS.ceil_div (total l) (JS.parseInt_or (q_limit q) 10).
Proof.
  intros Hq Hl. destruct rq; simplify_eq/=.
  - unfold Comments.list_for_blog in *.
    destruct (Blog.findById _ _); [|done].
    destruct (Comment.find _ _ _ _ _) as [e|found] eqn:Hf; [by destruct e|].
    unfold listing_of, Comments.list_response in Hl. simpl in Hl.
    injection Hl as <-. rewrite page_docs_views by done. simpl.
    split_and!; rewrite ?length_fmap; try done.
    unfold Comment.countDocuments. f_equal.
    symmetry. apply Permutation_length, merge_sort_Permutation.
  - unfold Comments.list_replies in *.
    destruct (Comment.find _ _ _ _ _) as [e|found] eqn:Hf; [by destruct e|].
    unfold listing_of, Comments.list_response in Hl. simpl in Hl.
    injection Hl as <-. rewrite page_docs_views by done. simpl.
    split_and!; rewrite ?length_fmap; try done.
    unfold Comment.countDocuments. f_equal.
    symmetry. apply Permutation_length, merge_sort_Permutation.
  - unfold Comments.list_for_user in *.
    destruct (Comment.find _ _ _ _ _) as [e|found] eqn:Hf; [by destruct e|].
    unfold listing_of, Comments.list_response in Hl. simpl in Hl.
    injection Hl as <-. rewrite page_docs_views by done. simpl.
    split_and!; rewrite ?length_fmap; try done.
    unfold Comment.countDocuments. f_equal.
    symmetry. apply Permutation_length, merge_sort_Permutation.
  - unfold Comments.list_all in *.
    destruct (protect auth db) as [r|p] eqn:Hp.
    { apply protect_inl in Hp as ->. done. }
    destruct (authorize role_admin p) as [r|] eqn:Ha.
    { unfold authorize in Ha. case_match; by simplify_eq. }
    destruct (Comment.find _ _ _ _ _) as [e|found] eqn:Hf; [by destruct e|].
    unfold listing_of, Comments.list_response in Hl. simpl in Hl.
    injection Hl as <-. rewrite page_docs_views by done. simpl.
    split_and!; rewrite ?length_fmap; try done.
    unfold Comment.countDocuments. f_equal.
    symmetry. apply Permutation_length, merge_sort_Permutation.
Qed.

(** Where a listing route answers with a page, it answers with every page
    from 1 on, for a limit of at least 1. *)
Lemma api_listing_page now rq db q l (p : Z) :
  paging_of rq = Some q →
  listing_of (api now rq db).1 = Some l →
  1 ≤ p → 1 ≤ JS.parseInt_or (q_limit q) 10 →
  ∃ l',
    listing_of (api now (with_page p rq) db).1 = Some l'
    ∧ page_docs l' = window p (JS.parseInt_or (q_limit q) 10) (matching rq db)
    ∧ page l' = p.
Proof.
  intros Hq Hl Hp Hlim.
  assert (JS.parseInt_or (Some p) 1 = p) as Epage.
  { unfold JS.parseInt_or. destruct (Z.eqb_spec p 0); lia. }
  destruct rq; simplify_eq/=.
  - unfold Comments.list_for_blog in *.
    destruct (Blog.findById _ _); [|done]. simpl.
    unfold Comment.find. rewrite Epage, cursor_window by done.
    eexists. split; [reflexivity|]. by rewrite page_docs_views.
  - unfold Comments.list_replies in *. simpl.
    unfold Comment.find. rewrite Epage, cursor_window by done.
    eexists. split; [reflexivity|]. by rewrite page_docs_views.
  - unfold Comments.list_for_user in *. simpl.
    unfold Comment.find. rewrite Epage, cursor_window by done.
    eexists. split; [reflexivity|]. by rewrite page_docs_views.
  - unfold Comments.list_all in *.
    destruct (protect auth db) as [r|u] eqn:Hpr.
    { apply protect_inl in Hpr as ->. done. }
    destruct (authorize role_admin u) as [r|] eqn:Ha.
    { unfold authorize in Ha. destruct (_ || _); [done|].
      by injection Ha as <-. }
    simpl. unfold Comment.find. rewrite Epage, cursor_window by done.
    eexists. split; [reflexivity|]. by rewrite page_docs_views.
Qed.

Lemma elem_of_matching rq db q c :
  paging_of rq = Some q →
  c ∈ matching rq db ↔ c ∈ Comment.docs (comments db) ∧ listed_by rq c.
Proof.
  intros Hq. destruct rq; simplify_eq/=;
    rewrite merge_sort_Permutation, list_elem_of_filter; tauto.
Qed.

Lemma matching_StronglySorted rq db :
  StronglySorted (order_of rq) (matching rq db).
Proof.
  destruct rq; simpl; try constructor;
    first [apply (sorted_StronglySorted newest_first)
          |apply (sorted_StronglySorted oldest_first)].
Qed.

End comment_pages.

(** X1.  A page of a comment listing is in the order of its route: replies
    oldest first, the listing of a post, of a user and of all comments
    newest first; every earlier item stands in that order to every later
    one. *)
Theorem listing_page_in_order `{Deps} (now : Date) (rq : Request) (db : DB)
    (q : Paging) (l : Listing) :
  paging_of rq = Some q →
  listing_of (api now rq db).1 = Some l →
  StronglySorted (order_of rq) (page_docs l).
Proof.
  intros Hq Hl.
  destruct (api_listing_inv now rq db q l Hq Hl) as (Hc & _).
  apply cursor_inv in Hc as (_ & _ & n & ->).
  apply StronglySorted_take_drop, matching_StronglySorted.
Qed.

Lemma listing_page_in_order_witness :
  StronglySorted Comment.newer
    [alice_reply; deleted_comment].
Proof.
  refine (listing_page_in_order (H:=checkDeps) 8
            (GET_comments_admin_all (Some 6%positive) (mkPaging None None))
            moderated_db (mkPaging None None)
            (mkListing 2 2 1 1
               [mkCommentView alice_reply (Some 0%nat) None;
                mkCommentView deleted_comment (Some 0%nat) None]) _ _);
    vm_compute; reflexivity.
Defined.

(** X2.  Every comment on a page of a comment listing is a stored comment
    that the filter of the route selects: the top-level listing of a post
    holds only active comments of that post without a parent, the reply
    listing only active replies to that comment, the listing of a user only
    active comments of that author. *)
Theorem listing_page_selected `{Deps} (now : Date) (rq : Request) (db : DB)
    (q : Paging) (l : Listing) (c : Comment.t) :
  paging_of rq = Some q →
  listing_of (api now rq db).1 = Some l →
  c ∈ page_docs l →
  (∃ i, comments db !! i = Some c) ∧ listed_by rq c.
Proof.
  intros Hq Hl Hc.
  destruct (api_listing_inv now rq db q l Hq Hl) as (Hcur & _).
  apply cursor_sublist in Hcur.
  eapply elem_of_sublist in Hc; [|done].
  apply (elem_of_matching rq db q c Hq) in Hc as [Hd Hs].
  split; [by apply elem_of_Comment_docs|done].
Qed.

Lemma listing_page_selected_witness :
  (∃ i, comments thread_db !! i = Some alice_reply)
  ∧ Comment.parentComment alice_reply = Some 4%positive
  ∧ Comment.isActive alice_reply = true.
Proof.
  refine (listing_page_selected (H:=checkDeps) 8
            (GET_comments_replies 4 (mkPaging None None)) thread_db
            (mkPaging None None)
            (mkListing 1 1 1 1 [mkCommentView alice_reply (Some 0%nat) None])
            alice_reply _ _ _); [vm_compute; reflexivity..|].
  by_evaluation.
Defined.

(** X3.  No selected comment is lost by the paging.  The pages are queries
    of their own and the routes sort on [createdAt] alone, so this is stated
    where no two stored comments have the same [createdAt]: where a comment
    listing answers with a page and its limit is at least 1, every stored
    comment the route selects is on one of the pages 1 to [pages]. *)
Theorem every_selected_comment_on_a_page `{Deps} (now : Date) (rq : Request)
    (db : DB) (q : Paging) (l : Listing) (i : ObjectId) (c : Comment.t) :
  NoDup (Comment.createdAt <$> Comment.docs (comments db)) →
  paging_of rq = Some q →
  listing_of (api now rq db).1 = Some l →
  1 ≤ JS.parseInt_or (q_limit q) 10 →
  comments db !! i = Some c → listed_by rq c →
  ∃ p l',
    1 ≤ p ≤ pages l
    ∧ listing_of (api now (with_page p rq) db).1 = Some l'
    ∧ page l' = p
    ∧ c ∈ page_docs l'.
Proof.
  intros _ Hq Hl Hlim Hc Hs.
  destruct (api_listing_inv now rq db q l Hq Hl) as (_ & Htot & _ & _ & Hpages).
  assert (c ∈ matching rq db) as Hin.
  { apply (elem_of_matching rq db q c Hq). split; [|done].
    apply elem_of_Comment_docs. by exists i. }
  apply list_elem_of_lookup in Hin as [k Hk].
  pose proof (lookup_lt_Some _ _ _ Hk) as Hlt.
  set (limit := JS.parseInt_or (q_limit q) 10) in *.
  destruct (api_listing_page now rq db q l (Z.of_nat k `div` limit + 1) Hq Hl)
    as (l' & Hl' & Hdocs & Hpage); [|done|].
  { pose proof (Z.div_pos (Z.of_nat k) limit ltac:(lia) ltac:(lia)). lia. }
  exists (Z.of_nat k `div` limit + 1), l'. split_and!; try done.
  - pose proof (Z.div_pos (Z.of_nat k) limit ltac:(lia) ltac:(lia)). lia.
  - destruct (ceil_div_bounds (total l) limit) as [Hb|[Hz _]]; [lia|done| |lia].
    rewrite Hpages.
    assert (Z.of_nat k `div` limit < JS.ceil_div (total l) limit); [|lia].
    apply Z.div_lt_upper_bound; [lia|]. lia.
  - rewrite Hdocs. by apply window_lookup.
Qed.

Lemma every_selected_comment_on_a_page_witness :
  ∃ p l',
    1 ≤ p ≤ 2
    ∧ listing_of (api (H:=checkDeps) 8
                    (with_page p (GET_comments_admin_all (Some 6%positive)
                                    (mkPaging None (Some 1))))
                    moderated_db).1 = Some l'
    ∧ page l' = p
    ∧ deleted_comment ∈ page_docs l'.
Proof.
  refine (every_selected_comment_on_a_page (H:=checkDeps) 8
            (GET_comments_admin_all (Some 6%positive) (mkPaging None (Some 1)))
            moderated_db (mkPaging None (Some 1))
            (mkListing 1 2 1 2
               [mkCommentView alice_reply (Some 0%nat) None])
            4 deleted_comment _ _ _ _ _ _);
    first [exact I | vm_compute; reflexivity | vm_compute; discriminate
          | by_evaluation].
Defined.

Lemma length_window {A} (page limit : Z) (l : list A) :
  1 ≤ page → 1 ≤ limit →
  Z.of_nat (length (window page limit l))
  = Z.min limit (Z.max 0 (Z.of_nat (length l) - (page - 1) * limit)).
Proof.
  intros Hp Hl. unfold window. rewrite length_take, length_drop. nia.
Qed.

(** X4.  The numbers of a comment listing, for a page and a limit of at
    least 1: [count] is the number of items and at most the limit and the
    total; [pages] is the least number of pages of [limit] items that hold
    [total] items; every page before the last is full and every page after
    it is empty.  A missing, unreadable or zero [page] is page 1, and a
    missing, unreadable or zero [limit] is 10. *)
Theorem listing_page_numbers `{Deps} (now : Date) (rq : Request) (db : DB)
    (q : Paging) (l : Listing) :
  paging_of rq = Some q →
  listing_of (api now rq db).1 = Some l →
  1 ≤ JS.parseInt_or (q_page q) 1 → 1 ≤ JS.parseInt_or (q_limit q) 10 →
  page l = JS.parseInt_or (q_page q) 1
  ∧ count l = Z.of_nat (length (items l))
  ∧ count l ≤ JS.parseInt_or (q_limit q) 10
  ∧ count l ≤ total l
  ∧ ((total l = 0 ∧ pages l = 0)
     ∨ (pages l - 1) * JS.parseInt_or (q_limit q) 10 < total l
         ≤ pages l * JS.parseInt_or (q_limit q) 10)
  ∧ (page l < pages l → count l = JS.parseInt_or (q_limit q) 10)
  ∧ (pages l < page l → items l = [])
  ∧ (q_page q = None ∨ q_page q = Some 0 → page l = 1)
  ∧ (q_limit q = None ∨ q_limit q = Some 0 → JS.parseInt_or (q_limit q) 10 = 10).
Proof.
  intros Hq Hl Hp Hlim.
  destruct (api_listing_inv now rq db q l Hq Hl)
    as (Hcur & Htot & Hcnt & Hpage & Hpages).
  set (limit := JS.parseInt_or (q_limit q) 10) in *.
  set (pg := JS.parseInt_or (q_page q) 1) in *.
  rewrite cursor_window in Hcur by done. injection Hcur as Hdocs.
  assert (length (page_docs l) = length (items l)) as Hlen
    by (unfold page_docs; apply length_fmap).
  pose proof (length_window pg limit (matching rq db) Hp Hlim) as Hw.
  rewrite Hdocs, Hlen in Hw. rewrite Hlen in Hcnt.
  pose proof (ceil_div_bounds (total l) limit ltac:(lia) Hlim) as Hb.
  rewrite <- Hpages in Hb.
  split_and!; try done; try lia.
  - nia.
  - intros Hlt. nia.
  - intros Hlt. apply length_zero_iff_nil. nia.
  - rewrite Hpage. subst pg. unfold JS.parseInt_or. by intros [->| ->].
  - subst limit. unfold JS.parseInt_or. by intros [->| ->].
Qed.

Lemma listing_page_numbers_witness :
  let l := mkListing 1 2 1 2 [mkCommentView alice_reply (Some 0%nat) None] in
  page l = 1 ∧ count l = 1 ∧ total l = 2 ∧ pages l = 2
  ∧ (page l < pages l → count l = 1).
Proof.
  pose proof (listing_page_numbers (H:=checkDeps) 8
                (GET_comments_admin_all (Some 6%positive) (mkPaging None (Some 1)))
                moderated_db (mkPaging None (Some 1))
                (mkListing 1 2 1 2
                   [mkCommentView alice_reply (Some 0%nat) None])
                eq_refl) as Hn.
  destruct Hn as (_ & _ & _ & _ & _ & Hfull & _);
    [vm_compute; reflexivity | vm_compute; discriminate
    | vm_compute; discriminate |].
  split_and!; [reflexivity..|exact Hfull].
Defined.

(** ** Derived counts and listing totals *)

Lemma length_filter_impl {A} (P Q : A → Prop) `{!∀ x, Decision (P x)}
    `{!∀ x, Decision (Q x)} (l : list A) :
  (∀ x, P x → Q x) →
  (length (filter P l) ≤ length (filter Q l))%nat
  ∧ (length (filter P l) = length (filter Q l) ↔ ∀ x, x ∈ l → Q x → P x).
Proof.
  intros HPQ. induction l as [|x l [IH1 IH2]]; [split; [done|]|].
  { split; [intros _ x Hx; by apply elem_of_nil in Hx|done]. }
  rewrite !filter_cons.
  destruct (decide (P x)) as [HP|HP], (decide (Q x)) as [HQ|HQ]; simpl.
  - split; [lia|]. rewrite Nat.succ_inj_wd, IH2. split.
    + intros Hl y [->|Hy]%elem_of_cons; auto.
    + intros Hl y Hy. apply Hl. by right.
  - by destruct HQ; auto.
  - split; [lia|]. split; [lia|].
    intros Hl. destruct HP. apply Hl; [by left|done].
  - split; [lia|]. rewrite IH2. split.
    + intros Hl y [->|Hy]%elem_of_cons; [done|auto].
    + intros Hl y Hy. apply Hl. by right.
Qed.

(** X5.  The derived counts are not filtered the way the listings are.  The
    [repliesCount] served with a comment of the top-level listing counts
    every stored reply to it, so it is at least the [total] of the reply
    listing of that comment, and equal to it exactly when every stored
    reply to the comment is active; the [commentCount] of the post is at
    least the [total] of its top-level listing. *)
Theorem derived_counts_bound_totals (db : DB) (blogId : ObjectId)
    (q : Paging) (l : Listing) :
  listing_of (Comments.list_for_blog blogId q db) = Some l →
  (∀ b, blogs db !! blogId = Some b → Blog._id b = blogId →
        total l ≤ Z.of_nat (Blog.commentCount (comments db) b))
  ∧ (∀ v, v ∈ items l →
       ∃ n, cv_repliesCount v = Some n
            ∧ ∀ q' l',
                listing_of (Comments.list_replies (Comment._id (cv_doc v)) q' db)
                = Some l' →
                total l' ≤ Z.of_nat n
                ∧ (total l' = Z.of_nat n
                   ↔ ∀ r, r ∈ Comment.docs (comments db) →
                          Comment.parentComment r = Some (Comment._id (cv_doc v)) →
                          Comment.isActive r = true)).
Proof.
  unfold Comments.list_for_blog.
  destruct (Blog.findById _ _); [|done].
  destruct (Comment.find _ _ _ _ _) as [e|found] eqn:Hf; [by destruct e|].
  unfold listing_of. simpl. intros [= <-]. simpl. split.
  - intros b _ Hid. unfold Comment.countDocuments, Blog.commentCount.
    rewrite Hid. apply inj_le.
    apply (length_filter_impl _ (λ c, Comment.blog c = blogId)). tauto.
  - intros v (c & -> & Hc)%list_elem_of_fmap. simpl.
    eexists. split; [reflexivity|]. intros q' l'.
    unfold Comments.list_replies.
    destruct (Comment.find _ oldest_first _ _ _) as [e|replies];
      [by destruct e|].
    unfold listing_of. simpl. intros [= <-]. simpl.
    unfold Comment.countDocuments, Comment.repliesCount.
    destruct (length_filter_impl
                (λ x, Comment.parentComment x = Some (Comment._id c)
                      ∧ Comment.isActive x = true)
                (λ x, Comment.parentComment x = Some (Comment._id c))
                (Comment.docs (comments db))) as [Hle Heq]; [tauto|].
    split; [by apply inj_le|].
    rewrite Nat2Z.inj_iff, Heq. split.
    + intros Hall r Hr Hp. by apply Hall.
    + intros Hall r Hr Hp. split; [done|]. by apply Hall.
Qed.

Lemma derived_counts_bound_totals_witness :
  total (mkListing 1 1 1 1
           [mkCommentView bobs_comment (Some 0%nat) (Some 1%nat)])
  ≤ Z.of_nat (Blog.commentCount (comments commented_db) thread_post)
  ∧ ∃ n,
      cv_repliesCount (mkCommentView bobs_comment (Some 0%nat) (Some 1%nat))
      = Some n
      ∧ total (mkListing 1 1 1 1
                 [mkCommentView alice_reply (Some 0%nat) None])
        ≤ Z.of_nat n
      ∧ (total (mkListing 1 1 1 1
                  [mkCommentView alice_reply (Some 0%nat) None])
         = Z.of_nat n
         ↔ ∀ r, r ∈ Comment.docs (comments commented_db) →
                Comment.parentComment r = Some 4%positive →
                Comment.isActive r = true).
Proof.
  destruct (derived_counts_bound_totals commented_db 3 (mkPaging None None)
              (mkListing 1 1 1 1
                 [mkCommentView bobs_comment (Some 0%nat) (Some 1%nat)]))
    as [Hpost Hitems]; [vm_compute; reflexivity|].
  split.
  - apply Hpost; vm_compute; reflexivity.
  - destruct (Hitems (mkCommentView bobs_comment (Some 0%nat) (Some 1%nat)))
      as (n & Hn & Hreplies); [apply list_elem_of_here|].
    exists n. split; [exact Hn|].
    apply (Hreplies (mkPaging None None)
             (mkListing 1 1 1 1 [mkCommentView alice_reply (Some 0%nat) None])).
    vm_compute; reflexivity.
Defined.

(** ** Soft deletes and likes *)

Lemma Comment_docs_insert (coll : gmap ObjectId Comment.t) i c :
  Comment.docs (<[i:=c]> coll) ≡ₚ c :: Comment.docs (delete i coll).
Proof.
  unfold Comment.docs. rewrite <- insert_delete_eq.
  by rewrite map_to_list_insert by apply lookup_delete_eq.
Qed.

Lemma Comment_docs_delete (coll : gmap ObjectId Comment.t) i c :
  coll !! i = Some c → Comment.docs coll ≡ₚ c :: Comment.docs (delete i coll).
Proof.
  intros Hi. unfold Comment.docs. by rewrite <- (map_to_list_delete coll i c Hi).
Qed.

Lemma length_filter_cons {A} (P : A → Prop) `{!∀ x, Decision (P x)} x (l : list A) :
  Z.of_nat (length (filter P (x :: l)))
  = (if decide (P x) then 1 else 0) + Z.of_nat (length (filter P l)).
Proof. rewrite filter_cons. destruct (decide (P x)); simpl; lia. Qed.

(** Writing a document over a stored one changes a count by what the two
    documents contribute to it. *)
Lemma length_filter_docs_insert (P : Comment.t → Prop) `{!∀ c, Decision (P c)}
    (coll : gmap ObjectId Comment.t) i c c' :
  coll !! i = Some c →
  Z.of_nat (length (filter P (Comment.docs (<[i:=c']> coll))))
  = Z.of_nat (length (filter P (Comment.docs coll)))
    - (if decide (P c) then 1 else 0) + (if decide (P c') then 1 else 0).
Proof.
  intros Hi.
  rewrite (Permutation_length
             (filter_Permutation P _ _ (Comment_docs_insert coll i c'))).
  rewrite (Permutation_length
             (filter_Permutation P _ _ (Comment_docs_delete coll i c Hi))).
  rewrite !length_filter_cons. lia.
Qed.

Lemma length_filter_docs_insert_new (P : Comment.t → Prop)
    `{!∀ c, Decision (P c)} (coll : gmap ObjectId Comment.t) i c' :
  coll !! i = None →
  Z.of_nat (length (filter P (Comment.docs (<[i:=c']> coll))))
  = Z.of_nat (length (filter P (Comment.docs coll)))
    + (if decide (P c') then 1 else 0).
Proof.
  intros Hi.
  rewrite (Permutation_length
             (filter_Permutation P _ _ (Comment_docs_insert coll i c'))).
  rewrite length_filter_cons, delete_id by done. lia.
Qed.

Lemma length_matching rq db q :
  paging_of rq = Some q →
  length (matching rq db)
  = length (filter (listed_by rq) (Comment.docs (comments db))).
Proof.
  intros Hq. destruct rq; simplify_eq/=;
    rewrite (Permutation_length (merge_sort_Permutation _ _));
    f_equal; apply list_filter_iff; tauto.
Qed.

Lemma protect_users `{Deps} auth db db' :
  users db' = users db → protect auth db' = protect auth db.
Proof. intros Hu. unfold protect. by rewrite Hu. Qed.

Lemma delete_inv `{Deps} auth id now db c :
  comments db !! id = Some c →
  status (Comments.delete auth id now db).1 = 200 →
  Comments.delete auth id now db
  = (res 200 true "Comment deleted successfully" no_data,
     set_comments (<[id := soft_deleted now c]> (comments db)) db)
  ∧ ∃ u, protect auth db = inr u ∧ authorizeOwnership u (Comment.author c) = true.
Proof.
  intros Hc. unfold Comments.delete.
  destruct (protect auth db) as [r|u] eqn:Hp.
  { apply protect_inl in Hp as ->. done. }
  unfold Comment.findById. rewrite Hc. simpl.
  destruct (authorizeOwnership u (Comment.author c)) eqn:Ho; [|done].
  unfold Comment.findByIdAndUpdate. rewrite Hc. simpl. intros _.
  split; [done|]. by exists u.
Qed.

(** X6.  A successful DELETE /api/comments/:id keeps the comment: the
    stored document changes in [isActive], cleared, and [updatedAt] only;
    users and posts are untouched; the [repliesCount] and [commentCount]
    served with comments and posts count the same documents as before; and
    a later DELETE of the same comment, by any caller the auth middleware
    lets through then and who is its author or an admin, is answered 200
    again. *)
Theorem soft_delete_keeps_the_comment `{Deps} (auth : option Token)
    (id : ObjectId) (now : Date) (db : DB) (c : Comment.t) :
  comments db !! id = Some c →
  status (Comments.delete auth id now db).1 = 200 →
  let db' := (Comments.delete auth id now db).2 in
  comments db' = <[id := soft_deleted now c]> (comments db)
  ∧ users db' = users db ∧ blogs db' = blogs db
  ∧ (∀ x, Comment.repliesCount (comments db') x
          = Comment.repliesCount (comments db) x)
  ∧ (∀ b, Blog.commentCount (comments db') b
          = Blog.commentCount (comments db) b)
  ∧ (∀ auth' now' u',
       protect auth' db' = inr u' →
       authorizeOwnership u' (Comment.author c) = true →
       (Comments.delete auth' id now' db').1
       = res 200 true "Comment deleted successfully" no_data).
Proof.
  intros Hc Hs db'.
  destruct (delete_inv auth id now db c Hc Hs) as (Hd & _).
  subst db'. rewrite Hd. simpl. split_and!; try done.
  - intros x. unfold Comment.repliesCount. apply Nat2Z.inj.
    rewrite (length_filter_docs_insert _ _ _ _ _ Hc). simpl.
    repeat case_decide; try lia; done.
  - intros b. unfold Blog.commentCount. apply Nat2Z.inj.
    rewrite (length_filter_docs_insert _ _ _ _ _ Hc). simpl.
    repeat case_decide; try lia; done.
  - intros auth' now' u' Hp Ho. unfold Comments.delete.
    rewrite Hp. unfold Comment.findById. simpl.
    rewrite lookup_insert_eq. simpl.
    rewrite Ho. unfold Comment.findByIdAndUpdate.
    by rewrite lookup_insert_eq.
Qed.

Lemma soft_delete_keeps_the_comment_witness :
  comments (Comments.delete (H:=checkDeps) (Some 2%positive) 4 6 commented_db).2
  = <[4%positive := soft_deleted 6 bobs_comment]> (comments commented_db)
  ∧ (Comments.delete (H:=checkDeps) (Some 2%positive) 4 9
       (Comments.delete (H:=checkDeps) (Some 2%positive) 4 6 commented_db).2).1
    = res 200 true "Comment deleted successfully" no_data.
Proof.
  destruct (soft_delete_keeps_the_comment (H:=checkDeps) (Some 2%positive)
              4 6 commented_db bobs_comment)
    as (Hstored & _ & _ & _ & _ & Hagain);
    [vm_compute; reflexivity | vm_compute; reflexivity |].
  split; [exact Hstored|].
  apply (Hagain (Some 2%positive) 9 bob); vm_compute; reflexivity.
Defined.

(** X7.  What a soft delete does to the totals of the comment listings:
    the [total] of the top-level listing of a post, of the reply listing of
    a comment and of the listing of a user drops by exactly one when the
    listing selected the comment before, and is unchanged otherwise; the
    [total] of the admin listing never changes. *)
Theorem soft_delete_lowers_totals_by_one `{Deps} (auth : option Token)
    (id : ObjectId) (now now1 now2 : Date) (db : DB) (c : Comment.t)
    (rq : Request) (q : Paging) (l l' : Listing) :
  comments db !! id = Some c →
  status (Comments.delete auth id now db).1 = 200 →
  paging_of rq = Some q →
  listing_of (api now1 rq db).1 = Some l →
  listing_of (api now2 rq (Comments.delete auth id now db).2).1 = Some l' →
  total l' = total l
             - match rq with
               | GET_comments_admin_all _ _ => 0
               | _ => if decide (listed_by rq c) then 1 else 0
               end.
Proof.
  intros Hc Hs Hq Hl Hl'.
  destruct (delete_inv auth id now db c Hc Hs) as (Hd & _).
  rewrite Hd in Hl'. simpl in Hl'.
  destruct (api_listing_inv now1 rq db q l Hq Hl) as (_ & -> & _).
  destruct (api_listing_inv now2 rq _ q l' Hq Hl') as (_ & -> & _).
  rewrite !(length_matching _ _ q Hq). simpl.
  rewrite (length_filter_docs_insert _ _ _ _ _ Hc).
  destruct rq; simplify_eq/=; repeat case_decide; try lia; try tauto.
Qed.

Lemma soft_delete_lowers_totals_by_one_witness :
  total (mkListing 0 0 1 0 [])
  = total (mkListing 1 1 1 1
             [mkCommentView bobs_comment (Some 0%nat) (Some 1%nat)])
    - (if decide (listed_by (GET_comments_blogId 3 (mkPaging None None))
                    bobs_comment)
       then 1 else 0).
Proof.
  refine (soft_delete_lowers_totals_by_one (H:=checkDeps) (Some 2%positive)
            4 6 7 7 commented_db bobs_comment
            (GET_comments_blogId 3 (mkPaging None None)) (mkPaging None None)
            _ _ _ _ _ _ _);
    vm_compute; reflexivity.
Defined.




(** ** Stored documents pass their validators *)

(** Every stored post and comment passes the validators of its schema. *)
Lemma Blog_create_valid id now body coll doc coll' :
  Blog.create id now body coll = inr (doc, coll') →
  map_Forall (λ _ b, Blog.valid b = true) coll →
  map_Forall (λ _ b, Blog.valid b = true) coll'.
Proof.
  unfold Blog.create. intros Hc Hv.
  destruct (Blog.build id now body) as [d|]; [|done].
  destruct (Blog.valid d) eqn:Hd; [|done].
  injection Hc as <- <-. by apply map_Forall_insert_2.
Qed.

Lemma Blog_findByIdAndUpdate_valid id now body coll doc coll' :
  Blog.findByIdAndUpdate id now body coll = inr (doc, coll') →
  map_Forall (λ _ b, Blog.valid b = true) coll →
  map_Forall (λ _ b, Blog.valid b = true) coll'.
Proof.
  unfold Blog.findByIdAndUpdate. intros Hc Hv.
  destruct (coll !! id) as [this|] eqn:Hi; [|by injection Hc as <- <-].
  destruct (Blog.apply_update now body this) as [d|] eqn:Hd; [|done].
  destruct (Blog.valid_update body d) eqn:Hu; [|done].
  injection Hc as <- <-. apply map_Forall_insert_2; [|done].
  specialize (Hv _ _ Hi). simpl in Hv.
  unfold Blog.apply_update in Hd. unfold Blog.valid, Blog.valid_update in *.
  destruct (match Blog.b_status body with Some _ => _ | None => _ end);
    simplify_eq/=.
  apply andb_true_iff in Hv as [[Ht Hco]%andb_true_iff He].
  apply andb_true_iff in Hu as [[Ht' Hco']%andb_true_iff He'].
  destruct (Blog.b_title body), (Blog.b_content body), (Blog.b_excerpt body);
    simpl in *; by rewrite ?Ht, ?Hco, ?He, ?Ht', ?Hco', ?He'.
Qed.

Lemma Comment_create_valid id now body coll doc coll' :
  Comment.create id now body coll = inr (doc, coll') →
  map_Forall (λ _ c, Comment.valid c = true) coll →
  map_Forall (λ _ c, Comment.valid c = true) coll'.
Proof.
  unfold Comment.create, Comment.pre_save. intros Hc Hv.
  destruct (Comment.build id now body) as [d|]; [|done].
  destruct (Comment.valid d) eqn:Hd; [|done].
  rewrite andb_false_r in Hc.
  injection Hc as <- <-. by apply map_Forall_insert_2.
Qed.

Lemma Comment_findByIdAndUpdate_valid rv id now body coll doc coll' :
  (rv = true ∨ Comment.b_content body = None) →
  Comment.findByIdAndUpdate rv id now body coll = inr (doc, coll') →
  map_Forall (λ _ c, Comment.valid c = true) coll →
  map_Forall (λ _ c, Comment.valid c = true) coll'.
Proof.
  unfold Comment.findByIdAndUpdate. intros Hrv Hc Hv.
  destruct (coll !! id) as [this|] eqn:Hi; [|by injection Hc as <- <-].
  specialize (Hv _ _ Hi) as Hthis. simpl in Hthis.
  destruct (rv && _) eqn:Hu; [done|].
  injection Hc as <- <-. apply map_Forall_insert_2; [|done].
  unfold Comment.valid_update in Hu.
  destruct (Comment.b_content body) as [s|] eqn:Hs.
  - destruct Hrv as [->|?]; [|done]. simpl in Hu.
    by apply negb_false_iff in Hu.
  - unfold Comment.valid, Comment.apply_update in *. simpl.
    by rewrite Hs.
Qed.

Ltac valid_step :=
  match goal with
  | |- map_Forall _ (<[_ := _]> _) => apply map_Forall_insert_2; [|done]
  | |- map_Forall _ (delete _ _) => by apply map_Forall_delete
  | H : Blog.create _ _ _ _ = inr _ |- _ => apply Blog_create_valid in H; [|done]
  | H : Blog.findByIdAndUpdate _ _ _ _ = inr _ |- _ =>
      apply Blog_findByIdAndUpdate_valid in H; [|done]
  | H : Comment.create _ _ _ _ = inr _ |- _ =>
      apply Comment_create_valid in H; [|done]
  | H : Comment.findByIdAndUpdate _ _ _ _ _ = inr _ |- _ =>
      apply Comment_findByIdAndUpdate_valid in H; [|by auto|done]
  end.

Section valid.
Context `{Deps}.

Lemma api_documents_valid now rq db :
  documents_valid db → documents_valid (api now rq db).2.
Proof.
  intros (Hb & Hc).
  destruct rq; simpl;
    unfold Auth.register, Auth.delete_account, Blogs.get_id, Blogs.create,
      Blogs.update, Blogs.delete, Blogs.like, Comments.create, Comments.reply,
      Comments.update, Comments.delete, Comments.like, Scripts.seedAdmin,
      User.create, User.save, User.findByIdAndDelete,
      Blog.findByIdAndDelete, Blog.incrementViews,
      Blog.toggleLike, Blog.save, Blog.findById,
      Comment.toggleLike, Comment.save,
      Comment.pre_save, Comment.findById;
    repeat case_match; simplify_eq/=; unfold documents_valid; simpl;
    split_and!; try done; repeat valid_step; simpl; try done.
  all: try (by (eapply Hb || eapply Hc)).
  all: match goal with
       | E : blogs _ !! _ = Some _ |- Blog.valid _ = true => exact (Hb _ _ E)
       | E : comments _ !! _ = Some _ |- Comment.valid _ = true =>
           exact (Hc _ _ E)
       end.
Qed.

End valid.

(** *** The states the routes reach *)

Lemma run_reaches `{Deps} trace : ∀ db, reaches db → reaches (run trace db).
Proof.
  induction trace as [|[now rq] trace IH]; intros db Hr; [done|].
  simpl. apply IH. by apply reaches_api.
Qed.

Lemma reachable_reaches `{Deps} db : reachable db → reaches db.
Proof. intros [trace <-]. apply run_reaches. apply reaches_empty. Qed.

Lemma account_write_keyed_by_id db db' :
  keyed_by_id db → account_write db db' → keyed_by_id db'.
Proof.
  intros (Hu & Hb & Hc) (i & u & n & a & b & p & Hi & ->).
  split_and!; simpl; [|done..].
  apply map_Forall_insert_2; [|done]. simpl. by apply (Hu i u).
Qed.

Lemma reaches_keyed_by_id `{Deps} db : reaches db → keyed_by_id db.
Proof.
  induction 1 as [|now rq db _ IH|db db' _ IH Hw].
  - split_and!; apply map_Forall_empty.
  - by apply api_keyed_by_id.
  - by eapply account_write_keyed_by_id.
Qed.

Lemma reaches_documents_valid `{Deps} db : reaches db → documents_valid db.
Proof.
  induction 1 as [|now rq db _ IH|db db' _ IH Hw].
  - split; apply map_Forall_empty.
  - by apply api_documents_valid.
  - by destruct Hw as (i & u & n & a & b & p & Hi & ->).
Qed.

(** X9.  In every state reached from the empty database by the requests of
    the API, runs of the seeding script and profile and password updates,
    every stored post has a title that is not empty and of at most 200
    characters, a content of at least 50 characters and an excerpt of at
    most 500, and every stored comment has a content of 1 to 1000
    characters, counted in UTF-16 code units as the schema validators count
    them: no route stores a document that the validators of its schema
    reject, the update routes and the mass assignment of the request body
    included. *)
Theorem stored_documents_pass_validators `{Deps} (db : DB) :
  reaches db →
  (∀ i b, blogs db !! i = Some b →
     Blog.title b ≠ []
     ∧ (length (Blog.title b) ≤ 200)%nat
     ∧ (50 ≤ length (Blog.content b))%nat
     ∧ (length (Blog.excerpt b) ≤ 500)%nat)
  ∧ (∀ i c, comments db !! i = Some c →
       (1 ≤ length (Comment.content c) ≤ 1000)%nat).
Proof.
  intros [Hb Hc]%reaches_documents_valid.
  split.
  - intros i b Hi. specialize (Hb _ _ Hi). simpl in Hb.
    unfold Blog.valid, Blog.valid_title, Blog.valid_content,
      Blog.valid_excerpt in Hb.
    repeat (apply andb_true_iff in Hb as [Hb ?]).
    apply negb_true_iff, bool_decide_eq_false in Hb.
    repeat match goal with
           | E : bool_decide _ = true |- _ => apply bool_decide_eq_true in E
           end.
    done.
  - intros i c Hi. specialize (Hc _ _ Hi). simpl in Hc.
    unfold Comment.valid in Hc.
    apply andb_true_iff in Hc as [?%bool_decide_eq_true ?%bool_decide_eq_true].
    done.
Qed.

Lemma stored_documents_pass_validators_witness :
  (1 ≤ length (Comment.content bobs_reply) ≤ 1000)%nat
  ∧ (50 ≤ length (Blog.content second_post))%nat.
Proof.
  destruct (stored_documents_pass_validators (H:=checkDeps) busy_db)
    as [Hposts Hcomments].
  - apply (reachable_reaches (H:=checkDeps)). exists busy_trace.
    exact eq_refl.
  - split.
    + apply (Hcomments 8%positive). vm_compute; reflexivity.
    + apply (Hposts 7%positive second_post). vm_compute; reflexivity.
Defined.

(** ** Blank comments and failed requests *)

Lemma trimStart_blank s : blank s = true → JS.trimStart s = [].
Proof.
  induction s as [|u s IH]; [done|]. simpl.
  intros [-> Hs]%andb_true_iff. auto.
Qed.

Lemma blank_trimStart s : blank (JS.trimStart s) = blank s.
Proof.
  induction s as [|u s IH]; [done|]. simpl.
  destruct (JS.is_space u) eqn:Hu; simpl; [done|]. by rewrite Hu.
Qed.

Lemma blank_app s1 s2 : blank (s1 ++ s2) = blank s1 && blank s2.
Proof.
  induction s1 as [|u s1 IH]; [done|]. simpl.
  by rewrite IH, andb_assoc.
Qed.

Lemma blank_reverse s : blank (reverse s) = blank s.
Proof.
  induction s as [|u s IH]; [done|].
  rewrite reverse_cons, blank_app, IH. simpl.
  rewrite andb_true_r. apply andb_comm.
Qed.

(** [trim] gives the empty string exactly on the strings of white space. *)
Lemma trim_empty_iff s : JS.trim s = [] ↔ blank s = true.
Proof.
  unfold JS.trim. split.
  - intros Ht.
    rewrite <- blank_trimStart, <- blank_reverse, <- blank_trimStart,
      <- blank_reverse.
    by rewrite Ht.
  - intros Hs. by rewrite (trimStart_blank s Hs).
Qed.

Lemma Comment_create_blank id now body coll s :
  Comment.b_content body = Some s → blank s = true →
  Comment.create id now body coll = inl ValidationError.
Proof.
  intros Hs Hb. unfold Comment.create, Comment.build. rewrite Hs. simpl.
  destruct (Comment.b_author body); [|done]. simpl.
  destruct (Comment.b_blog body); [|done]. simpl.
  unfold Comment.valid. simpl.
  apply trim_empty_iff in Hb. by rewrite Hb.
Qed.

Lemma Comment_findByIdAndUpdate_blank id now body coll s c :
  coll !! id = Some c → Comment.b_content body = Some s → blank s = true →
  Comment.findByIdAndUpdate true id now body coll = inl ValidationError.
Proof.
  intros Hc Hs Hb. unfold Comment.findByIdAndUpdate. rewrite Hc.
  unfold Comment.valid_update, Comment.valid, Comment.apply_update.
  rewrite Hs. cbn -[JS.trim].
  apply trim_empty_iff in Hb. by rewrite Hb.
Qed.

(** X10.  A comment of white space only is never stored, also when the
    request validator lets it through: the [trim] setter of the schema
    empties it and the validators of [content] reject it.  The routes that
    create a comment, create a reply and update a comment answer such a body
    with a failure and leave the database as it was. *)
Theorem blank_comment_never_stored `{Deps} (auth : option Token)
    (target : ObjectId) (body body' : Comment.Body) (s : JS.str)
    (now : Date) (db : DB) :
  validateComment body = Some body' →
  Comment.b_content body' = Some s → blank s = true →
  (success (Comments.create auth target body now db).1 = false
   ∧ (Comments.create auth target body now db).2 = db)
  ∧ (success (Comments.reply auth target body now db).1 = false
     ∧ (Comments.reply auth target body now db).2 = db)
  ∧ (success (Comments.update auth target body now db).1 = false
     ∧ (Comments.update auth target body now db).2 = db).
Proof.
  intros Hv Hs Hb. split_and!.
  - unfold Comments.create.
    destruct (protect auth db) as [r|u] eqn:Hp;
      [by apply protect_inl in Hp as ->|].
    rewrite Hv. destruct (Blog.findById _ _); [|done].
    by rewrite (Comment_create_blank _ _ _ _ s).
  - unfold Comments.create.
    destruct (protect auth db) as [r|u]; [done|].
    rewrite Hv. destruct (Blog.findById _ _); [|done].
    by rewrite (Comment_create_blank _ _ _ _ s).
  - unfold Comments.reply.
    destruct (protect auth db) as [r|u] eqn:Hp;
      [by apply protect_inl in Hp as ->|].
    rewrite Hv. destruct (Comment.findById _ _); [|done].
    by rewrite (Comment_create_blank _ _ _ _ s).
  - unfold Comments.reply.
    destruct (protect auth db) as [r|u]; [done|].
    rewrite Hv. destruct (Comment.findById _ _); [|done].
    by rewrite (Comment_create_blank _ _ _ _ s).
  - unfold Comments.update.
    destruct (protect auth db) as [r|u] eqn:Hp;
      [by apply protect_inl in Hp as ->|].
    unfold Comment.findById.
    destruct (comments db !! target) as [c|] eqn:Hc; [|done]. simpl.
    destruct (authorizeOwnership u (Comment.author c)); [|done].
    rewrite Hv. by rewrite (Comment_findByIdAndUpdate_blank _ _ _ _ s c).
  - unfold Comments.update.
    destruct (protect auth db) as [r|u]; [done|].
    unfold Comment.findById.
    destruct (comments db !! target) as [c|] eqn:Hc; [|done]. simpl.
    destruct (authorizeOwnership u (Comment.author c)); [|done].
    rewrite Hv. by rewrite (Comment_findByIdAndUpdate_blank _ _ _ _ s c).
Qed.

Lemma blank_comment_never_stored_witness :
  success (Comments.create (H:=checkDeps) (Some 1%positive) 3
             (comment_body [32; 160; 8232; 65279]%N) 9 thread_db).1 = false
  ∧ (Comments.create (H:=checkDeps) (Some 1%positive) 3
       (comment_body [32; 160; 8232; 65279]%N) 9 thread_db).2 = thread_db.
Proof.
  refine (proj1 (blank_comment_never_stored (H:=checkDeps) (Some 1%positive) 3
                   (comment_body [32; 160; 8232; 65279]%N)
                   (comment_body [32; 160; 8232; 65279]%N)
                   [32; 160; 8232; 65279]%N 9 thread_db
                   _ _ _)); reflexivity.
Defined.

(** X11.  A request of [api] that is answered with [success: false]
    changes nothing: for the registration, the account deletion, the
    single-post fetch, the comment listings and the routes that write posts
    and comments, when the answer is a failure (401, 403, 404, a validation
    failure, a server error) the database after the request is the database
    before it.  PUT /api/auth/profile and PUT /api/auth/password are not
    requests of [api]: nothing is said of them here. *)
Theorem failed_request_changes_nothing `{Deps} (now : Date) (rq : Request)
    (db : DB) :
  success (api now rq db).1 = false → (api now rq db).2 = db.
Proof.
  destruct rq; simpl;
    unfold Auth.register, Auth.delete_account, Blogs.get_id, Blogs.create,
      Blogs.update, Blogs.delete, Blogs.like, Comments.create, Comments.reply,
      Comments.update, Comments.delete, Comments.like;
    repeat case_match; simplify_eq/=; done.
Qed.

Lemma failed_request_changes_nothing_witness :
  (api (H:=checkDeps) 9 (DELETE_comments_id (Some 1%positive) 4) thread_db).2
  = thread_db.
Proof.
  refine (failed_request_changes_nothing (H:=checkDeps) 9
            (DELETE_comments_id (Some 1%positive) 4) thread_db _).
  vm_compute; reflexivity.
Defined.

(** ** Excerpts, and posts that are deleted *)


Lemma truthy_false s :
  JS.truthy s = false ↔ s = None ∨ s = Some [].
Proof.
  destruct s as [s|]; simpl; [|by split; auto].
  rewrite negb_false_iff, bool_decide_eq_true.
  split; [intros ->; by right|]. by intros [|[= ->]].
Qed.








(** X14.  Deleting a post does not delete its comments.  After a
    successful DELETE /api/blogs/:id the post is gone and the comments and
    users are as before; the top-level listing of the post and a new comment
    on it are answered 404, while the reply listings and the listings by
    user still serve the comments of the deleted post. *)
Theorem deleted_post_leaves_its_comments `{Deps} (auth : option Token)
    (id : ObjectId) (db : DB) :
  status (Blogs.delete auth id db).1 = 200 →
  let db' := (Blogs.delete auth id db).2 in
  blogs db' = delete id (blogs db)
  ∧ comments db' = comments db
  ∧ users db' = users db
  ∧ (∀ q, Comments.list_for_blog id q db'
          = res 404 false "Blog not found" no_data)
  ∧ (∀ auth' u' body body' now,
       protect auth' db = inr u' → validateComment body = Some body' →
       Comments.create auth' id body now db'
       = (res 404 false "Blog not found" no_data, db'))
  ∧ (∀ commentId q,
       Comments.list_replies commentId q db'
       = Comments.list_replies commentId q db)
  ∧ (∀ userId q,
       Comments.list_for_user userId q db'
       = Comments.list_for_user userId q db).
Proof.
  unfold Blogs.delete.
  destruct (protect auth db) as [r|u] eqn:Hp;
    [by apply protect_inl in Hp as ->|].
  destruct (checkOwnership _ _) as [r|] eqn:Ho.
  { unfold checkOwnership in Ho. repeat case_match; by simplify_eq. }
  intros _. simpl. split_and!; try done.
  - intros q. unfold Comments.list_for_blog, Blog.findById,
      Blog.findByIdAndDelete. simpl. by rewrite lookup_delete_eq.
  - intros auth' u' body body' now Hp' Hv. unfold Comments.create.
    rewrite (protect_users auth' db), Hp', Hv by done.
    unfold Blog.findById, Blog.findByIdAndDelete. simpl.
    by rewrite lookup_delete_eq.
Qed.

Lemma deleted_post_leaves_its_comments_witness :
  comments (Blogs.delete (H:=checkDeps) (Some 1%positive) 3 thread_db).2
  = comments thread_db.
Proof.
  refine (proj1 (proj2 (deleted_post_leaves_its_comments (H:=checkDeps)
                          (Some 1%positive) 3 thread_db _)));
    vm_compute; reflexivity.
Defined.

(** ** Users and their emails *)

Lemma findOne_email_Some (coll : gmap ObjectId User.t) e u :
  User.findOne_email coll e = Some u →
  (∃ i, coll !! i = Some u) ∧ User.email u = e.
Proof.
  unfold User.findOne_email.
  intros [Hu He]%head_Some_elem_of%list_elem_of_filter.
  split; [by apply elem_of_User_docs|done].
Qed.

Lemma findOne_email_None (coll : gmap ObjectId User.t) e i u :
  User.findOne_email coll e = None → coll !! i = Some u → User.email u ≠ e.
Proof.
  intros Hn Hi He.
  destruct (findOne_email_is_Some coll u) as [v Hv].
  { apply elem_of_User_docs. by exists i. }
  rewrite He in Hv. congruence.
Qed.

(** Under distinct emails, [findOne({ email })] finds the one user that has
    the email. *)
Lemma findOne_email_unique (coll : gmap ObjectId User.t) i u :
  (∀ i j u v, coll !! i = Some u → coll !! j = Some v →
              User.email u = User.email v → i = j) →
  coll !! i = Some u →
  User.findOne_email coll (User.email u) = Some u.
Proof.
  intros Huniq Hi.
  destruct (findOne_email_is_Some coll u) as [v Hv].
  { apply elem_of_User_docs. by exists i. }
  rewrite Hv. apply findOne_email_Some in Hv as [[j Hj] He].
  assert (j = i) as -> by (by eapply Huniq). congruence.
Qed.

Lemma unique_emails_insert_new (coll : gmap ObjectId User.t) i u :
  (∀ i j u v, coll !! i = Some u → coll !! j = Some v →
              User.email u = User.email v → i = j) →
  User.findOne_email coll (User.email u) = None →
  ∀ j k v w, <[i:=u]> coll !! j = Some v → <[i:=u]> coll !! k = Some w →
             User.email v = User.email w → j = k.
Proof.
  intros Huniq Hn j k v w Hj Hk He.
  apply lookup_insert_Some in Hj as [[<- <-]|[Hij Hj]];
    apply lookup_insert_Some in Hk as [[<- <-]|[Hik Hk]]; try done.
  - by destruct (findOne_email_None _ _ _ _ Hn Hk).
  - by destruct (findOne_email_None _ _ _ _ Hn Hj).
  - by eapply Huniq.
Qed.

Lemma unique_emails_insert_same (coll : gmap ObjectId User.t) i u u' :
  (∀ i j u v, coll !! i = Some u → coll !! j = Some v →
              User.email u = User.email v → i = j) →
  coll !! i = Some u → User.email u' = User.email u →
  ∀ j k v w, <[i:=u']> coll !! j = Some v → <[i:=u']> coll !! k = Some w →
             User.email v = User.email w → j = k.
Proof.
  intros Huniq Hi Hu j k v w Hj Hk He.
  apply lookup_insert_Some in Hj as [[<- <-]|[Hij Hj]];
    apply lookup_insert_Some in Hk as [[<- <-]|[Hik Hk]]; try done.
  - rewrite Hu in He. by eapply Huniq.
  - rewrite Hu in He. by eapply Huniq.
  - by eapply Huniq.
Qed.

Section emails.
Context `{Deps}.

Lemma register_unique_emails body db :
  unique_emails db → unique_emails (Auth.register body db).2.
Proof.
  intros Hu. unfold Auth.register.
  destruct (validateUserRegistration body) as [[[n e] p]|]; [|done].
  destruct (User.findOne_email (users db) e) as [u|] eqn:Hf; [done|].
  simpl. unfold unique_emails. simpl.
  by apply unique_emails_insert_new.
Qed.

Lemma seedAdmin_unique_emails n e p reset db :
  keyed_by_id db → unique_emails db →
  unique_emails (Scripts.seedAdmin n e p reset db).
Proof.
  intros (Hk & _) Hu. unfold Scripts.seedAdmin.
  destruct (User.findOne_email (users db) e) as [u|] eqn:Hf.
  - case_bool_decide; [|done].
    apply findOne_email_Some in Hf as [[i Hi] He].
    pose proof (Hk _ _ Hi) as Hid. simpl in Hid.
    unfold unique_emails, User.save. simpl.
    assert (User._id (if reset
                      then User.set_password (hashPassword p)
                             (User.set_role role_admin u)
                      else User.set_role role_admin u) = i) as ->
      by (by destruct reset).
    apply (unique_emails_insert_same _ _ u); [done..|].
    by destruct reset.
  - simpl. unfold unique_emails. simpl.
    by apply unique_emails_insert_new.
Qed.

Lemma api_unique_emails now rq db :
  keyed_by_id db → unique_emails db → unique_emails (api now rq db).2.
Proof.
  intros Hk Hu.
  destruct rq; try (by apply register_unique_emails);
    try (by apply seedAdmin_unique_emails).
  all: simpl;
    unfold Auth.delete_account, Blogs.get_id, Blogs.create,
      Blogs.update, Blogs.delete, Blogs.like, Comments.create, Comments.reply,
      Comments.update, Comments.delete, Comments.like,
      User.findByIdAndDelete, Blog.incrementViews, Blog.toggleLike, Blog.save,
      Comment.toggleLike, Comment.save;
    repeat case_match; simplify_eq/=; try done.
  intros i j u v Hi Hj. simpl in Hi, Hj.
  apply lookup_delete_Some in Hi, Hj. apply Hu; tauto.
Qed.

End emails.

Lemma account_write_unique_emails db db' :
  unique_emails db → account_write db db' → unique_emails db'.
Proof.
  intros Hu (i & u & n & a & b & p & Hi & ->).
  unfold unique_emails. simpl.
  by apply (unique_emails_insert_same _ _ u).
Qed.

(** The two invariants of the states the routes reach that the statements
    on users rest on. *)
Lemma reaches_invariants `{Deps} (db : DB) :
  reaches db → keyed_by_id db ∧ unique_emails db.
Proof.
  intros Hr. split; [by apply reaches_keyed_by_id|].
  induction Hr as [|now rq db Hr IH|db db' _ IH Hw].
  - intros i j u v Hi. simpl in Hi. by rewrite lookup_empty in Hi.
  - apply api_unique_emails; [by apply reaches_keyed_by_id|done].
  - by eapply account_write_unique_emails.
Qed.

Lemma reachable_invariants `{Deps} (db : DB) :
  reachable db → keyed_by_id db ∧ unique_emails db.
Proof. intros Hr. by apply reaches_invariants, reachable_reaches. Qed.

(** X15.  In every state reached from the empty database by the requests of
    the API, runs of the seeding script and profile and password updates, no
    two stored users have the same email: the check of the registration
    route and the lookup of the seeding script keep the emails distinct, and
    the two account updates do not write [email]. *)
Theorem reachable_unique_emails `{Deps} (db : DB) :
  reaches db → unique_emails db.
Proof.
  intros Hr. by apply reaches_invariants.
Qed.

Lemma reachable_unique_emails_witness : unique_emails renamed_db.
Proof.
  apply (reachable_unique_emails (H:=checkDeps)).
  apply (reaches_account thread_db).
  - apply (reachable_reaches (H:=checkDeps)). by exists thread_trace.
  - exists 1%positive, alice, "Alice B."%string, ""%string, ""%string,
      "hashed:TestPassword123"%string.
    split; [vm_compute; reflexivity|reflexivity].
Defined.

Lemma User_docs_insert_new (coll : gmap ObjectId User.t) i u :
  coll !! i = None → User.docs (<[i:=u]> coll) ≡ₚ u :: User.docs coll.
Proof. intros Hi. unfold User.docs. by rewrite map_to_list_insert. Qed.

Lemma findOne_email_insert_new (coll : gmap ObjectId User.t) i u :
  coll !! i = None → User.findOne_email coll (User.email u) = None →
  User.findOne_email (<[i:=u]> coll) (User.email u) = Some u.
Proof.
  intros Hi Hn. unfold User.findOne_email in *.
  apply head_None in Hn.
  pose proof (filter_Permutation (λ v, User.email v = User.email u) _ _
                (User_docs_insert_new coll i u Hi)) as Hp.
  rewrite filter_cons_True, Hn in Hp by done.
  by apply Permutation_singleton_r in Hp as ->.
Qed.

(** X16.  Registration and login fit together.  When the password check
    of the User model accepts a password against its own hash, a successful
    registration stores a user with the email, the name, the role ['user']
    and the hashed password and answers with a token and the id of that
    user; a login with the same email and password right after it is
    answered 200 with a token and the same user id; a login with a password
    the check rejects is answered 401 "Invalid credentials".  Nothing is
    said on the tokens themselves, which carry the time they were signed
    at. *)
Theorem login_after_register `{Deps} (matchPassword : string → string → bool)
    (validateUserLogin : LoginBody → option (string * string))
    (body : RegisterBody) (n e p : string) (db : DB) :
  (∀ pw, matchPassword pw (hashPassword pw) = true) →
  validateUserRegistration body = Some (n, e, p) →
  status (Auth.register body db).1 = 201 →
  let db' := (Auth.register body db).2 in
  ∃ u,
    users db' !! new_ObjectId db = Some u
    ∧ User._id u = new_ObjectId db
    ∧ User.email u = e ∧ User.name u = n ∧ User.role u = role_user
    ∧ User.password u = hashPassword p
    ∧ (∃ token,
         data (Auth.register body db).1 = auth_data token (User._id u))
    ∧ (∀ lbody,
         validateUserLogin lbody = Some (e, p) →
         ∃ token,
           Login.login matchPassword validateUserLogin lbody db'
           = res 200 true "Login successful" (auth_data token (User._id u)))
    ∧ (∀ lbody p',
         validateUserLogin lbody = Some (e, p') →
         matchPassword p' (hashPassword p) = false →
         Login.login matchPassword validateUserLogin lbody db'
         = res 401 false "Invalid credentials" no_data).
Proof.
  intros Hm Hv. unfold Auth.register. rewrite Hv.
  destruct (User.findOne_email (users db) e) as [x|] eqn:Hf; [done|].
  simpl. intros _.
  destruct (new_ObjectId_fresh db) as [Hnew _].
  eexists. split; [apply lookup_insert_eq|]. simpl.
  split_and!; try done.
  - by eexists.
  - intros lbody Hl. unfold Login.login. rewrite Hl. simpl.
    rewrite (findOne_email_insert_new (users db) (new_ObjectId db)
               (User.mk (new_ObjectId db) n e (hashPassword p) role_user "" ""))
      by done.
    simpl. rewrite Hm. by eexists.
  - intros lbody p' Hl Hp'. unfold Login.login. rewrite Hl. simpl.
    rewrite (findOne_email_insert_new (users db) (new_ObjectId db)
               (User.mk (new_ObjectId db) n e (hashPassword p) role_user "" ""))
      by done.
    simpl. by rewrite Hp'.
Qed.

Lemma login_after_register_witness :
  ∃ u token,
    User.email u = "carol@example.com"%string
    ∧ Login.login (H:=checkDeps) check_matchPassword check_validateUserLogin
        (mkLoginBody (Some "carol@example.com"%string)
           (Some "TestPassword789"%string))
        (Auth.register (H:=checkDeps)
           (mkRegisterBody (Some "Carol"%string)
              (Some "carol@example.com"%string)
              (Some "TestPassword789"%string)) thread_db).2
      = res 200 true "Login successful" (auth_data token (User._id u)).
Proof.
  destruct (login_after_register (H:=checkDeps) check_matchPassword
              check_validateUserLogin
              (mkRegisterBody (Some "Carol"%string)
                 (Some "carol@example.com"%string)
                 (Some "TestPassword789"%string))
              "Carol" "carol@example.com" "TestPassword789" thread_db)
    as (u & _ & _ & He & _ & _ & _ & _ & Hlogin & _).
  - intros pw. by apply bool_decide_eq_true_2.
  - reflexivity.
  - vm_compute; reflexivity.
  - destruct (Hlogin (mkLoginBody (Some "carol@example.com"%string)
                        (Some "TestPassword789"%string)) eq_refl)
      as [token Htoken].
    exists u, token. exact (conj He Htoken).
Defined.

Lemma protect_inr `{Deps} auth db u :
  protect auth db = inr u → ∃ i, users db !! i = Some u.
Proof.
  unfold protect, User.findById. intros Hp.
  repeat case_match; simplify_eq. by eexists.
Qed.

Lemma findOne_email_delete (coll : gmap ObjectId User.t) i u :
  (∀ i j u v, coll !! i = Some u → coll !! j = Some v →
              User.email u = User.email v → i = j) →
  coll !! i = Some u →
  User.findOne_email (delete i coll) (User.email u) = None.
Proof.
  intros Huniq Hi.
  destruct (User.findOne_email _ _) as [v|] eqn:Hf; [|done].
  apply findOne_email_Some in Hf as [[j [Hij Hj]%lookup_delete_Some] He].
  destruct Hij. by eapply Huniq.
Qed.

(** X17.  Deleting an account removes the user and nothing else: the
    posts and comments stay.  In a state with distinct emails, a login with
    the email of the deleted account is then answered
    401 "Invalid credentials" whatever the password, and a registration with that email
    succeeds again. *)
Theorem deleted_account_frees_the_email `{Deps}
    (matchPassword : string → string → bool)
    (validateUserLogin : LoginBody → option (string * string))
    (auth : option Token) (db : DB) (u : User.t) :
  keyed_by_id db → unique_emails db →
  protect auth db = inr u →
  let db' := (Auth.delete_account auth db).2 in
  users db' = delete (User._id u) (users db)
  ∧ blogs db' = blogs db ∧ comments db' = comments db
  ∧ (∀ lbody p,
       validateUserLogin lbody = Some (User.email u, p) →
       Login.login matchPassword validateUserLogin lbody db'
       = res 401 false "Invalid credentials" no_data)
  ∧ (∀ body n p,
       validateUserRegistration body = Some (n, User.email u, p) →
       status (Auth.register body db').1 = 201).
Proof.
  intros (Hk & _) Hu Hp. unfold Auth.delete_account. rewrite Hp. simpl.
  destruct (protect_inr _ _ _ Hp) as [i Hi].
  pose proof (Hk _ _ Hi) as Hid. simpl in Hid. subst i.
  unfold User.findByIdAndDelete.
  split_and!; try done.
  - intros lbody p Hl. unfold Login.login. rewrite Hl. simpl.
    by rewrite findOne_email_delete.
  - intros body n p Hv. unfold Auth.register. rewrite Hv. simpl.
    by rewrite findOne_email_delete.
Qed.

Lemma deleted_account_frees_the_email_witness :
  users (Auth.delete_account (H:=checkDeps) (Some 2%positive) thread_db).2
  = delete (User._id bob) (users thread_db).
Proof.
  refine (proj1 (deleted_account_frees_the_email (H:=checkDeps)
                   check_matchPassword check_validateUserLogin
                   (Some 2%positive) thread_db bob _ _ _)).
  - apply (reachable_invariants (H:=checkDeps)). by exists thread_trace.
  - apply (reachable_invariants (H:=checkDeps)). by exists thread_trace.
  - vm_compute; reflexivity.
Defined.

(** X18.  What the seeding script leaves behind, in a state with distinct
    emails: a user with the given email exists and is an admin.  An existing
    user keeps id and name, and keeps the password unless
    [--reset-password] is given and the user was not yet an admin, so the
    flag has no effect on an existing admin; a new admin has the given name
    and the hashed password.  Users with another email, posts and comments
    are untouched, and a second run of the script changes nothing. *)
Theorem seedAdmin_makes_an_admin `{Deps} (n e p : string) (reset : bool)
    (db : DB) :
  keyed_by_id db → unique_emails db →
  let db' := Scripts.seedAdmin n e p reset db in
  (∃ u, User.findOne_email (users db') e = Some u
        ∧ User.role u = role_admin
        ∧ match User.findOne_email (users db) e with
          | Some old =>
              User._id u = User._id old ∧ User.name u = User.name old
              ∧ User.password u
                = (if reset && bool_decide (User.role old ≠ role_admin)
                   then hashPassword p else User.password old)
          | None => User.name u = n ∧ User.password u = hashPassword p
          end)
  ∧ (∀ i v, users db !! i = Some v → User.email v ≠ e →
            users db' !! i = Some v)
  ∧ blogs db' = blogs db ∧ comments db' = comments db
  ∧ Scripts.seedAdmin n e p reset db' = db'.
Proof.
  intros Hk Hu db'.
  pose proof (seedAdmin_unique_emails n e p reset db Hk Hu) as Hu'.
  fold db' in Hu'. destruct Hk as (Hk & _).
  assert (∀ u, User.findOne_email (users db') e = Some u →
               User.role u = role_admin →
               Scripts.seedAdmin n e p reset db' = db') as Hidem.
  { intros u Hf Hr. unfold Scripts.seedAdmin at 1. rewrite Hf.
    rewrite bool_decide_eq_false_2; [done|]. by intros []. }
  subst db'. unfold Scripts.seedAdmin in *.
  destruct (User.findOne_email (users db) e) as [old|] eqn:Hf.
  - pose proof Hf as Hf'.
    apply findOne_email_Some in Hf' as [[i Hi] He].
    pose proof (Hk _ _ Hi) as Hid. simpl in Hid.
    case_bool_decide as Hr.
    + set (u := if reset
                then User.set_password (hashPassword p)
                       (User.set_role role_admin old)
                else User.set_role role_admin old) in *.
      assert (User._id u = i ∧ User.email u = e ∧ User.role u = role_admin
              ∧ User.name u = User.name old
              ∧ User.password u
                = (if reset then hashPassword p else User.password old))
        as (Hi' & He' & Hr' & Hn' & Hp') by (subst u; by destruct reset).
      unfold User.save in *. simpl in *. rewrite Hi' in *.
      assert (User.findOne_email (<[i:=u]> (users db)) e = Some u) as Hfu.
      { rewrite <- He'. apply (findOne_email_unique _ i); [done|].
        apply lookup_insert_eq. }
      split_and!; try done.
      * exists u. rewrite andb_true_r. split_and!; try done. congruence.
      * intros j v Hj Hv. rewrite lookup_insert_ne; [done|].
        intros <-. congruence.
      * by apply (Hidem u).
    + split_and!; try done.
      * exists old. rewrite andb_false_r. by split_and!.
      * by apply (Hidem old).
  - simpl in *. destruct (new_ObjectId_fresh db) as [Hnew _].
    assert (User.findOne_email
              (<[new_ObjectId db :=
                   User.mk (new_ObjectId db) n e (hashPassword p) role_admin "" ""]>
                 (users db)) e
            = Some (User.mk (new_ObjectId db) n e (hashPassword p)
                      role_admin "" "")) as Hfu
      by (by apply (findOne_email_insert_new (users db) (new_ObjectId db)
                      (User.mk (new_ObjectId db) n e (hashPassword p)
                         role_admin "" ""))).
    split_and!; try done.
    + eexists. by split_and!.
    + intros j v Hj Hv. rewrite lookup_insert_ne; [done|].
      intros <-. congruence.
    + by eapply Hidem.
Qed.

Lemma seedAdmin_makes_an_admin_witness :
  ∃ u, User.findOne_email
         (users (Scripts.seedAdmin (H:=checkDeps) "Admin" "admin@example.com"
                   "ChangeMe123" false thread_db))
         "admin@example.com" = Some u
       ∧ User.role u = role_admin.
Proof.
  destruct (seedAdmin_makes_an_admin (H:=checkDeps) "Admin" "admin@example.com"
              "ChangeMe123" false thread_db) as [(u & Hu & Hr & _) _].
  - apply (reachable_invariants (H:=checkDeps)). by exists thread_trace.
  - apply (reachable_invariants (H:=checkDeps)). by exists thread_trace.
  - exists u. exact (conj Hu Hr).
Defined.

(** ** The post listings and the static queries *)

Lemma blog_newer_Transitive : Transitive Statics.newer.
Proof. intros a b c. unfold Statics.newer. lia. Qed.

Lemma blog_newer_Total : Total Statics.newer.
Proof. intros a b. unfold Statics.newer. lia. Qed.

Lemma elem_of_Blog_docs (coll : gmap ObjectId Blog.t) (b : Blog.t) :
  b ∈ Blog.docs coll ↔ ∃ i, coll !! i = Some b.
Proof.
  unfold Blog.docs. rewrite list_elem_of_fmap. split.
  - intros ([i b'] & -> & Hin). exists i. by apply elem_of_map_to_list.
  - intros [i Hi]. exists (i, b). split; [done|]. by apply elem_of_map_to_list.
Qed.

Lemma blog_page_docs_respond db page limit tot found :
  blog_page_docs (BlogLists.respond db page limit tot found) = found.
Proof.
  unfold blog_page_docs, BlogLists.respond. simpl.
  rewrite <- list_fmap_compose.
  rewrite (list_fmap_ext _ id found) by done. apply list_fmap_id.
Qed.

Lemma blog_countDocuments_sorted (P : Blog.t → Prop) `{!∀ b, Decision (P b)}
    (coll : gmap ObjectId Blog.t) :
  Statics.countDocuments P coll
  = Z.of_nat (length (merge_sort Statics.newer (filter P (Blog.docs coll)))).
Proof.
  unfold Statics.countDocuments.
  by rewrite (Permutation_length (merge_sort_Permutation _ _)).
Qed.

Section blog_pages.
Context `{Deps}.
Variable text_search : JS.str → Blog.t → bool.

Lemma blog_lists_cases rq db :
  let q := blog_paging_of rq in
  let page := JS.parseInt_or (q_page q) 1 in
  let limit := JS.parseInt_or (q_limit q) 10 in
  blog_lists text_search rq db
  = match blog_gate rq db with
    | Some r => inl r
    | None =>
        match cursor ((page - 1) * limit) limit
                (blog_matching text_search rq db) with
        | inr found =>
            inr (BlogLists.respond db page limit
                   (Z.of_nat (length (blog_matching text_search rq db))) found)
        | inl e => inl (errorHandler e)
        end
    end.
Proof.
  destruct rq as [q|userId q|auth q|auth q]; simpl.
  - unfold BlogLists.list_public, Statics.find.
    by rewrite blog_countDocuments_sorted.
  - unfold BlogLists.list_for_user, Statics.find.
    by rewrite blog_countDocuments_sorted.
  - unfold BlogLists.list_mine.
    destruct (protect auth db) as [r|u]; [done|].
    unfold Statics.find. by rewrite blog_countDocuments_sorted.
  - unfold BlogLists.list_all.
    destruct (protect auth db) as [r|u]; [done|].
    destruct (authorize role_admin u); [done|].
    unfold Statics.find. by rewrite blog_countDocuments_sorted.
Qed.

Lemma blog_lists_inv rq db l :
  blog_lists text_search rq db = inr l →
  let q := blog_paging_of rq in
  cursor ((JS.parseInt_or (q_page q) 1 - 1) * JS.parseInt_or (q_limit q) 10)
    (JS.parseInt_or (q_limit q) 10) (blog_matching text_search rq db)
  = inr (blog_page_docs l)
  ∧ bl_total l = Z.of_nat (length (blog_matching text_search rq db))
  ∧ bl_count l = Z.of_nat (length (blog_page_docs l))
  ∧ bl_page l = JS.parseInt_or (q_page q) 1
  ∧ bl_pages l = JS.ceil_div (bl_total l) (JS.parseInt_or (q_limit q) 10)
  ∧ ∀ v, v ∈ bl_items l →
      bv_commentCount v = Some (Blog.commentCount (comments db) (bv_doc v))
      ∧ bv_likeCount v = Some (Blog.likeCount (users db) (bv_doc v)).
Proof.
  intros Hl q.
  rewrite blog_lists_cases in Hl. fold q in Hl.
  destruct (blog_gate rq db); [done|].
  destruct (cursor _ _ _) as [e|found]; [done|].
  injection Hl as <-. rewrite blog_page_docs_respond.
  split_and!; try done.
  intros v (b & -> & _)%list_elem_of_fmap. done.
Qed.

Lemma elem_of_blog_matching rq db b :
  b ∈ blog_matching text_search rq db
  ↔ b ∈ Blog.docs (blogs db) ∧ blog_listed_by text_search rq db b.
Proof.
  destruct rq as [q|userId q|auth q|auth q]; simpl;
    try (rewrite merge_sort_Permutation, list_elem_of_filter; tauto).
  destruct (protect auth db).
  - rewrite elem_of_nil. tauto.
  - rewrite merge_sort_Permutation, list_elem_of_filter; tauto.
Qed.

Lemma blog_matching_StronglySorted rq db :
  StronglySorted Statics.newer (blog_matching text_search rq db).
Proof.
  destruct rq as [q|userId q|auth q|auth q]; simpl;
    try (apply StronglySorted_merge_sort;
         auto using blog_newer_Transitive, blog_newer_Total).
  destruct (protect auth db); [constructor|].
  apply StronglySorted_merge_sort;
    auto using blog_newer_Transitive, blog_newer_Total.
Qed.

(** Where a post listing answers with a page, it answers with every page
    from 1 on, for a limit of at least 1. *)
Lemma blog_lists_page rq db l (p : Z) :
  blog_lists text_search rq db = inr l →
  1 ≤ p → 1 ≤ JS.parseInt_or (q_limit (blog_paging_of rq)) 10 →
  ∃ l',
    blog_lists text_search (blog_with_page p rq) db = inr l'
    ∧ blog_page_docs l'
      = window p (JS.parseInt_or (q_limit (blog_paging_of rq)) 10)
          (blog_matching text_search rq db)
    ∧ bl_page l' = p.
Proof.
  intros Hl Hp Hlim.
  assert (JS.parseInt_or (Some p) 1 = p) as Epage.
  { unfold JS.parseInt_or. destruct (Z.eqb_spec p 0); lia. }
  rewrite blog_lists_cases in Hl. rewrite blog_lists_cases.
  assert (blog_gate (blog_with_page p rq) db = blog_gate rq db) as ->
    by (by destruct rq).
  destruct (blog_gate rq db); [done|].
  assert (blog_matching text_search (blog_with_page p rq) db
          = blog_matching text_search rq db) as Em by (by destruct rq).
  assert (q_limit (blog_paging_of (blog_with_page p rq))
          = q_limit (blog_paging_of rq)) as El by (by destruct rq).
  assert (q_page (blog_paging_of (blog_with_page p rq)) = Some p) as Ep
    by (by destruct rq).
  rewrite Em, El, Ep, Epage, cursor_window by done.
  eexists. split; [done|]. by rewrite blog_page_docs_respond.
Qed.

End blog_pages.

(** X19.  A page of a post listing (GET /api/blogs, /user/:userId,
    /my/blogs, /admin/all) is sorted newest first and holds only stored
    posts that the filter of the route selects; on the public listing and
    the listing of a user every post is published, so a draft is never
    served there; each item carries the [commentCount] and [likeCount] of
    its post; [count] is the number of items and at most [total]. *)
Theorem post_listing_page `{Deps} (text_search : JS.str → Blog.t → bool)
    (rq : BlogListRequest) (db : DB) (l : BlogListing) :
  blog_lists text_search rq db = inr l →
  StronglySorted Statics.newer (blog_page_docs l)
  ∧ (∀ b, b ∈ blog_page_docs l →
       (∃ i, blogs db !! i = Some b) ∧ blog_listed_by text_search rq db b)
  ∧ (∀ b, b ∈ blog_page_docs l →
       match rq with
       | GET_blogs _ | GET_blogs_user _ _ =>
           Blog.status b = published ∧ Blog.isPublished b = true
       | _ => True
       end)
  ∧ (∀ v, v ∈ bl_items l →
       bv_commentCount v = Some (Blog.commentCount (comments db) (bv_doc v))
       ∧ bv_likeCount v = Some (Blog.likeCount (users db) (bv_doc v)))
  ∧ bl_count l = Z.of_nat (length (bl_items l))
  ∧ bl_count l ≤ bl_total l.
Proof.
  intros Hl.
  destruct (blog_lists_inv text_search rq db l Hl)
    as (Hcur & Htot & Hcnt & _ & _ & Hv).
  pose proof (cursor_sublist _ _ _ _ Hcur) as Hsub.
  assert (∀ b, b ∈ blog_page_docs l →
            (∃ i, blogs db !! i = Some b)
            ∧ blog_listed_by text_search rq db b) as Hsel.
  { intros b Hb. eapply elem_of_sublist in Hb; [|done].
    apply elem_of_blog_matching in Hb as [Hd Hs].
    split; [by apply elem_of_Blog_docs|done]. }
  split_and!; try done.
  - apply cursor_inv in Hcur as (_ & _ & n & ->).
    apply StronglySorted_take_drop, blog_matching_StronglySorted.
  - intros b [_ Hb]%Hsel. destruct rq; simpl in *; try done.
    + unfold BlogLists.public_filter in Hb. tauto.
    + tauto.
  - rewrite Hcnt. unfold blog_page_docs. by rewrite length_fmap.
  - rewrite Hcnt, Htot. apply inj_le. by apply sublist_length.
Qed.

Lemma post_listing_page_witness :
  let l := mkBlogListing 2 2 1 1
             [mkBlogView second_post (Some 0%nat) (Some 0%nat);
              mkBlogView thread_post (Some 3%nat) (Some 0%nat)] in
  StronglySorted Statics.newer [second_post; thread_post]
  ∧ ((∃ i, blogs busy_db !! i = Some thread_post)
     ∧ blog_listed_by (H:=checkDeps) any_text
         (GET_blogs (mkBlogQuery (mkPaging None None) None None None))
         busy_db thread_post)
  ∧ (Blog.status second_post = published
     ∧ Blog.isPublished second_post = true)
  ∧ (bv_commentCount (mkBlogView thread_post (Some 3%nat) (Some 0%nat))
     = Some (Blog.commentCount (comments busy_db) thread_post)
     ∧ bv_likeCount (mkBlogView thread_post (Some 3%nat) (Some 0%nat))
       = Some (Blog.likeCount (users busy_db) thread_post))
  ∧ bl_count l = Z.of_nat (length (bl_items l))
  ∧ bl_count l ≤ bl_total l.
Proof.
  intros l.
  destruct (post_listing_page (H:=checkDeps) any_text
              (GET_blogs (mkBlogQuery (mkPaging None None) None None None))
              busy_db l)
    as (Hsorted & Hselected & Hpublished & Hcounts & Hcount & Hle);
    [vm_compute; reflexivity|].
  split; [exact Hsorted|].
  split; [apply Hselected, list_elem_of_further, list_elem_of_here|].
  split; [apply (Hpublished second_post), list_elem_of_here|].
  split; [apply Hcounts, list_elem_of_further, list_elem_of_here|].
  exact (conj Hcount Hle).
Defined.

(** X20.  No selected post is lost by the paging.  The pages are queries
    of their own and the routes sort on [createdAt] alone, so this is stated
    where no two stored posts have the same [createdAt]: where a post
    listing answers with a page and its limit is at least 1, every stored
    post the route selects is on one of the pages 1 to [pages]; in
    particular /my/blogs serves every post of the caller, drafts
    included. *)
Theorem every_selected_post_on_a_page `{Deps}
    (text_search : JS.str → Blog.t → bool) (rq : BlogListRequest) (db : DB)
    (l : BlogListing) (i : ObjectId) (b : Blog.t) :
  NoDup (Blog.createdAt <$> Blog.docs (blogs db)) →
  blog_lists text_search rq db = inr l →
  1 ≤ JS.parseInt_or (q_limit (blog_paging_of rq)) 10 →
  blogs db !! i = Some b → blog_listed_by text_search rq db b →
  ∃ p l',
    1 ≤ p ≤ bl_pages l
    ∧ blog_lists text_search (blog_with_page p rq) db = inr l'
    ∧ bl_page l' = p
    ∧ b ∈ blog_page_docs l'.
Proof.
  intros _ Hl Hlim Hb Hs.
  destruct (blog_lists_inv text_search rq db l Hl)
    as (_ & Htot & _ & _ & Hpages & _).
  assert (b ∈ blog_matching text_search rq db) as Hin.
  { apply elem_of_blog_matching. split; [|done].
    apply elem_of_Blog_docs. by exists i. }
  apply list_elem_of_lookup in Hin as [k Hk].
  pose proof (lookup_lt_Some _ _ _ Hk) as Hlt.
  set (limit := JS.parseInt_or (q_limit (blog_paging_of rq)) 10) in *.
  pose proof (Z.div_pos (Z.of_nat k) limit ltac:(lia) ltac:(lia)) as Hdiv.
  destruct (blog_lists_page text_search rq db l (Z.of_nat k `div` limit + 1) Hl)
    as (l' & Hl' & Hdocs & Hpage); [lia|done|].
  exists (Z.of_nat k `div` limit + 1), l'. split_and!; try done; [lia| |].
  - destruct (ceil_div_bounds (bl_total l) limit) as [Hbd|[Hz _]];
      [lia|done| |lia].
    rewrite Hpages.
    assert (Z.of_nat k `div` limit < JS.ceil_div (bl_total l) limit); [|lia].
    apply Z.div_lt_upper_bound; [lia|]. lia.
  - rewrite Hdocs. by apply window_lookup.
Qed.

Lemma every_selected_post_on_a_page_witness :
  ∃ p l',
    1 ≤ p ≤ 2
    ∧ blog_lists (H:=checkDeps) any_text
        (blog_with_page p
           (GET_blogs (mkBlogQuery (mkPaging None (Some 1)) None None None)))
        busy_db = inr l'
    ∧ bl_page l' = p
    ∧ thread_post ∈ blog_page_docs l'.
Proof.
  refine (every_selected_post_on_a_page (H:=checkDeps) any_text
            (GET_blogs (mkBlogQuery (mkPaging None (Some 1)) None None None))
            busy_db
            (mkBlogListing 1 2 1 2
               [mkBlogView second_post (Some 0%nat) (Some 0%nat)])
            3 thread_post _ _ _ _ _);
    first [vm_compute; reflexivity | vm_compute; discriminate
          | by_evaluation | vm_compute; repeat split].
Defined.

Lemma cursor_all {A} (limit : Z) (l : list A) :
  Z.of_nat (length l) ≤ limit → limit ≠ 0 → cursor 0 limit l = inr l.
Proof.
  intros Hl Hne. unfold cursor. simpl.
  destruct (Z.eqb_spec limit 0); [done|].
  rewrite drop_0, take_ge; [done|]. lia.
Qed.

(** X21.  The static queries of the models agree with the routes that
    repeat them.  The two are queries of their own that sort on [createdAt]
    alone, so this is stated where no two stored comments and no two stored
    posts have the same [createdAt]: when the first page of the reply
    listing of a comment holds all its items, its documents are
    [getRepliesForComment] of that comment, in the same order; likewise the
    public post listing without search, tags and author gives
    [getPublishedBlogs], and /my/blogs gives [getBlogsByAuthor] of the
    caller. *)
Theorem statics_agree_with_routes `{Deps}
    (text_search : JS.str → Blog.t → bool) (db : DB) :
  distinct_createdAt db →
  (∀ commentId q l,
     listing_of (Comments.list_replies commentId q db) = Some l →
     page l = 1 → total l ≤ JS.parseInt_or (q_limit q) 10 →
     page_docs l = Statics.getRepliesForComment commentId (comments db))
  ∧ (∀ q l,
       BlogLists.list_public text_search (mkBlogQuery q None None None) db
       = inr l →
       bl_page l = 1 → bl_total l ≤ JS.parseInt_or (q_limit q) 10 →
       blog_page_docs l = Statics.getPublishedBlogs (blogs db))
  ∧ (∀ auth u q l,
       protect auth db = inr u →
       BlogLists.list_mine auth q db = inr l →
       bl_page l = 1 → bl_total l ≤ JS.parseInt_or (q_limit q) 10 →
       blog_page_docs l = Statics.getBlogsByAuthor (User._id u) (blogs db)).
Proof.
  intros _. split_and!.
  - intros commentId q l Hl Hp Ht.
    destruct (api_listing_inv 0 (GET_comments_replies commentId q) db q l
                eq_refl Hl) as (Hcur & Htot & _ & Hpage & _).
    rewrite <- Hpage, Hp in Hcur. simpl in Hcur.
    rewrite cursor_all in Hcur;
      [by injection Hcur as <-| simpl in Htot; lia
      |by apply parseInt_or_nonzero].
  - intros q l Hl Hp Ht.
    destruct (blog_lists_inv text_search (GET_blogs (mkBlogQuery q None None None))
                db l Hl) as (Hcur & Htot & _ & Hpage & _).
    simpl in Hcur, Htot, Hpage. rewrite <- Hpage, Hp in Hcur. simpl in Hcur.
    rewrite cursor_all in Hcur;
      [| lia | by apply parseInt_or_nonzero].
    injection Hcur as <-. unfold Statics.getPublishedBlogs. f_equal.
    apply list_filter_iff. intros b. unfold BlogLists.public_filter. simpl.
    tauto.
  - intros auth u q l Hu Hl Hp Ht.
    destruct (blog_lists_inv text_search (GET_blogs_my auth q) db l Hl)
      as (Hcur & Htot & _ & Hpage & _).
    simpl in Hcur, Htot, Hpage. rewrite Hu in Hcur, Htot.
    rewrite <- Hpage, Hp in Hcur. simpl in Hcur.
    rewrite cursor_all in Hcur;
      [| lia | by apply parseInt_or_nonzero].
    by injection Hcur as <-.
Qed.

Lemma statics_agree_with_routes_witness :
  [alice_reply; bobs_reply]
  = Statics.getRepliesForComment 4 (comments busy_db)
  ∧ [second_post; thread_post] = Statics.getPublishedBlogs (blogs busy_db).
Proof.
  destruct (statics_agree_with_routes (H:=checkDeps) any_text busy_db)
    as (Hreplies & Hposts & _); [split; by_evaluation|].
  split.
  - apply (Hreplies 4%positive (mkPaging None None)
             (mkListing 2 2 1 1
                [mkCommentView alice_reply (Some 0%nat) None;
                 mkCommentView bobs_reply (Some 0%nat) None]));
      first [vm_compute; reflexivity | vm_compute; discriminate].
  - apply (Hposts (mkPaging None None)
             (mkBlogListing 2 2 1 1
                [mkBlogView second_post (Some 0%nat) (Some 0%nat);
                 mkBlogView thread_post (Some 3%nat) (Some 0%nat)]));
      first [vm_compute; reflexivity | vm_compute; discriminate].
Defined.

(** ** A new comment in the listing of its post *)

Lemma StronglySorted_head_newest (l : list Comment.t) (c : Comment.t) :
  StronglySorted Comment.newer l → c ∈ l →
  (∀ x, x ∈ l → x ≠ c → Comment.createdAt x < Comment.createdAt c) →
  head l = Some c.
Proof.
  destruct l as [|h l]; [by intros _ ?%elem_of_nil|].
  intros Hs Hc Hmax. simpl. f_equal.
  destruct (decide (h = c)) as [|Hne]; [done|]. exfalso.
  apply StronglySorted_inv in Hs as [_ Hh].
  apply elem_of_cons in Hc as [->|Hc]; [done|].
  rewrite Forall_forall in Hh. specialize (Hh c Hc). unfold Comment.newer in Hh.
  specialize (Hmax h ltac:(by left) Hne). lia.
Qed.

Lemma head_window {A} (limit : Z) (l : list A) :
  1 ≤ limit → head (window 1 limit l) = head l.
Proof.
  intros Hl. unfold window. simpl. rewrite drop_0.
  destruct l as [|x l]; [by rewrite take_nil|].
  destruct (Z.to_nat limit) as [|n] eqn:E; [lia|done].
Qed.

(** X22.  A new comment is read back first.  When POST
    /api/comments/:blogId answers 201 with an active comment without a
    parent, whose [createdAt] is later than that of every stored comment,
    the first page of the top-level listing of the post, for a limit of at
    least 1, starts with the new comment, and the [total] of the listing is
    one more than before. *)
Theorem new_comment_heads_the_listing `{Deps} (auth : option Token)
    (blogId : ObjectId) (body : Comment.Body) (now : Date) (db : DB)
    (c : Comment.t) (q : Paging) :
  (Comments.create auth blogId body now db).1
  = res 201 true "Comment added successfully" (comment_data (Some c)) →
  Comment.isActive c = true → Comment.parentComment c = None →
  (∀ i x, comments db !! i = Some x →
          Comment.createdAt x < Comment.createdAt c) →
  q_page q = None → 1 ≤ JS.parseInt_or (q_limit q) 10 →
  ∃ l0 l,
    listing_of (Comments.list_for_blog blogId q db) = Some l0
    ∧ listing_of (Comments.list_for_blog blogId q
                    (Comments.create auth blogId body now db).2) = Some l
    ∧ head (page_docs l) = Some c
    ∧ total l = total l0 + 1.
Proof.
  intros Hr Ha Hp Hnow Hq Hlim. unfold Comments.create in *.
  destruct (protect auth db) as [r|u] eqn:Hpr;
    [by apply protect_inl in Hpr as ->|].
  destruct (validateComment body) as [body'|]; [|done].
  destruct (Blog.findById (blogs db) blogId) as [b|] eqn:Hb; [|done].
  destruct (Comment.create _ _ _ _) as [e|[c' coll]] eqn:Hc;
    [destruct e; inversion Hr|].
  simpl in Hr. injection Hr as ->.
  apply Comment_create_inv in Hc as (Hbuild & _ & ->).
  assert (Comment.blog c = blogId) as Hblog.
  { unfold Comment.build in Hbuild. cbn -[JS.trim] in Hbuild.
    destruct (Comment.b_content body'); by simplify_eq/=. }
  destruct (new_ObjectId_fresh db) as (_ & _ & Hnew & _).
  unfold Comments.list_for_blog. simpl. rewrite Hb, Hq.
  unfold Comment.find. change (JS.parseInt_or None 1) with 1.
  rewrite !cursor_window by done.
  unfold listing_of, Comments.list_response. cbn [data].
  eexists _, _. split; [reflexivity|]. split; [reflexivity|].
  rewrite page_docs_views by done. cbn [total].
  split.
  - rewrite head_window by done.
    apply StronglySorted_head_newest.
    + apply (sorted_StronglySorted newest_first).
    + rewrite sorted_Permutation, list_elem_of_filter. split; [done|].
      apply elem_of_Comment_docs. eexists. apply lookup_insert_eq.
    + intros x Hx Hne.
      rewrite sorted_Permutation, list_elem_of_filter in Hx.
      destruct Hx as [_ [i Hi]%elem_of_Comment_docs].
      apply lookup_insert_Some in Hi as [[_ ->]|[_ Hi]]; [done|].
      by eapply Hnow.
  - unfold Comment.countDocuments.
    rewrite length_filter_docs_insert_new by done.
    by rewrite decide_True.
Qed.

Lemma new_comment_heads_the_listing_witness :
  listing_of (Comments.list_for_blog 3 (mkPaging None None) commented_db)
  = Some (mkListing 1 1 1 1 [mkCommentView bobs_comment (Some 0%nat)
                               (Some 1%nat)])
  ∧ ∃ l,
      listing_of
        (Comments.list_for_blog 3 (mkPaging None None)
           (Comments.create (H:=checkDeps) (Some 1%positive) 3
              (comment_body "Newest") 9 commented_db).2) = Some l
      ∧ head (page_docs l)
        = Some (Comment.mk 6 "Newest" 1 3 None false None [] true 9 9)
      ∧ total l = 1 + 1.
Proof.
  destruct (new_comment_heads_the_listing (H:=checkDeps) (Some 1%positive) 3
              (comment_body "Newest") 9 commented_db
              (Comment.mk 6 "Newest" 1 3 None false None [] true 9 9)
              (mkPaging None None))
    as (l0 & l & Hl0 & Hl & Hhead & Htotal);
    [vm_compute; reflexivity | reflexivity | reflexivity | | reflexivity
    | vm_compute; discriminate |].
  - refine (bool_decide_unpack
              (map_Forall (λ _ x, Comment.createdAt x < 9)
                 (comments commented_db)) _).
    vm_compute; exact I.
  - assert (l0 = mkListing 1 1 1 1 [mkCommentView bobs_comment (Some 0%nat)
                                      (Some 1%nat)]) as ->.
    { apply (inj Some). rewrite <- Hl0. vm_compute; reflexivity. }
    split; [exact Hl0|]. exists l. exact (conj Hl (conj Hhead Htotal)).
Defined.

(** ** Drafts, and likes of two users *)

(** X23.  A post that is a draft, or not published, is on no page of the
    public listing and of the listing of a user, but GET /api/blogs/:id
    serves it to anyone: the single-post route does not look at [status] or
    [isPublished], answers 200 with the title and content of the post, and
    counts the view: the [views] it serves is [views + 1] in the arithmetic
    of numbers, which is one more than before where [views] is an integer
    of at least [- 2 ^ 53] and below [2 ^ 53]. *)
Theorem draft_fetched_but_not_listed `{Deps}
    (text_search : JS.str → Blog.t → bool) (id : ObjectId) (now : Date)
    (db : DB) (b : Blog.t) :
  blogs db !! id = Some b →
  Blog.status b = draft ∨ Blog.isPublished b = false →
  (∃ v, (Blogs.get_id id now db).1 = res 200 true "" (blog_data (Some v))
        ∧ Blog.title (bv_doc v) = Blog.title b
        ∧ Blog.content (bv_doc v) = Blog.content b
        ∧ Blog.status (bv_doc v) = Blog.status b
        ∧ Blog.views (bv_doc v) = JS.add (Blog.views b) 1
        ∧ (- 2 ^ 53 ≤ Blog.views b < 2 ^ 53 →
           Blog.views (bv_doc v) = Blog.views b + 1))
  ∧ (∀ q l, BlogLists.list_public text_search q db = inr l →
            b ∉ blog_page_docs l)
  ∧ (∀ userId q l, BlogLists.list_for_user userId q db = inr l →
                   b ∉ blog_page_docs l).
Proof.
  intros Hb Hd. split_and!.
  - rewrite (get_id_served id now db b Hb).
    eexists. split; [reflexivity|]. simpl.
    unfold Blog.incrementViews, Blog.save.
    case_bool_decide as Hv; simpl; split_and!; try done.
    + intros Hr. unfold JS.add in Hv.
      rewrite to_double_exact in Hv by lia. lia.
    + intros Hr. unfold JS.add. apply to_double_exact. lia.
  - intros q l Hl Hin.
    destruct (blog_lists_inv text_search (GET_blogs q) db l Hl) as (Hcur & _).
    apply cursor_sublist in Hcur.
    eapply elem_of_sublist in Hin; [|done].
    apply elem_of_blog_matching in Hin as [_ Hs]. simpl in Hs.
    unfold BlogLists.public_filter in Hs.
    destruct Hd as [Hd|Hd]; rewrite Hd in Hs; by destruct Hs as [[? ?] _].
  - intros userId q l Hl Hin.
    destruct (blog_lists_inv text_search (GET_blogs_user userId q) db l Hl)
      as (Hcur & _).
    apply cursor_sublist in Hcur.
    eapply elem_of_sublist in Hin; [|done].
    apply elem_of_blog_matching in Hin as [_ Hs]. simpl in Hs.
    destruct Hd as [Hd|Hd]; rewrite Hd in Hs; by destruct Hs as (? & ? & ?).
Qed.

Lemma draft_fetched_but_not_listed_witness :
  ∃ v, (Blogs.get_id 6 9 draft_db).1 = res 200 true "" (blog_data (Some v))
       ∧ Blog.title (bv_doc v) = Blog.title bobs_draft
       ∧ Blog.content (bv_doc v) = Blog.content bobs_draft
       ∧ Blog.status (bv_doc v) = Blog.status bobs_draft
       ∧ Blog.views (bv_doc v) = JS.add (Blog.views bobs_draft) 1
       ∧ (- 2 ^ 53 ≤ Blog.views bobs_draft < 2 ^ 53 →
          Blog.views (bv_doc v) = Blog.views bobs_draft + 1).
Proof.
  refine (proj1 (draft_fetched_but_not_listed (H:=checkDeps) any_text 6 9
                   draft_db bobs_draft _ _)).
  - vm_compute; reflexivity.
  - left. reflexivity.
Defined.

Lemma elem_of_flipped (S : gset ObjectId) (u x : ObjectId) :
  x ∈ flipped S u ↔ (x ≠ u ∧ x ∈ S) ∨ (x = u ∧ u ∉ S).
Proof.
  unfold flipped. case_decide as Hu.
  - rewrite elem_of_difference, elem_of_singleton.
    split; [tauto|]. intros [?|[Hx ?]]; [tauto|by subst].
  - rewrite elem_of_union, elem_of_singleton.
    split; [|tauto]. intros [Hx|Hx]; [|tauto].
    left. split; [|done]. intros Hxu. by subst.
Qed.

Lemma flipped_comm (S : gset ObjectId) (u v : ObjectId) :
  flipped (flipped S u) v = flipped (flipped S v) u.
Proof.
  apply set_eq. intros x. rewrite !elem_of_flipped.
  destruct (decide (x = u)), (decide (x = v)), (decide (u = v));
    subst; tauto.
Qed.

(** X24.  Likes of two users do not depend on their order: on a comment
    or a post whose [likes] array holds no id twice, [toggleLike] by [u] and
    then by [v] leaves the same like-set as [toggleLike] by [v] and then by
    [u]. *)
Theorem likes_of_two_users_commute (u v : ObjectId) (now1 now2 : Date)
    (c : Comment.t) (b : Blog.t) (coll1 coll2 : gmap ObjectId Comment.t)
    (bcoll1 bcoll2 : gmap ObjectId Blog.t) :
  NoDup (Comment.likes c) → NoDup (Blog.likes b) →
  like_set (Comment.likes
              (Comment.toggleLike v now2
                 (Comment.toggleLike u now1 c coll1).1 coll2).1)
  = like_set (Comment.likes
                (Comment.toggleLike u now2
                   (Comment.toggleLike v now1 c coll1).1 coll2).1)
  ∧ like_set (Blog.likes
                (Blog.toggleLike v now2
                   (Blog.toggleLike u now1 b bcoll1).1 bcoll2).1)
    = like_set (Blog.likes
                  (Blog.toggleLike u now2
                     (Blog.toggleLike v now1 b bcoll1).1 bcoll2).1).
Proof.
  intros Hc Hb. split.
  - rewrite !Comment_toggleLike_likes.
    rewrite !like_set_toggled by (try apply toggled_NoDup; done).
    apply flipped_comm.
  - rewrite !Blog_toggleLike_likes.
    rewrite !like_set_toggled by (try apply toggled_NoDup; done).
    apply flipped_comm.
Qed.

Lemma likes_of_two_users_commute_witness :
  like_set (Comment.likes
              (Comment.toggleLike 2 8
                 (Comment.toggleLike 1 7 alice_reply ∅).1 ∅).1)
  = like_set (Comment.likes
                (Comment.toggleLike 1 8
                   (Comment.toggleLike 2 7 alice_reply ∅).1 ∅).1).
Proof.
  refine (proj1 (likes_of_two_users_commute 1 2 7 8 alice_reply thread_post
                   ∅ ∅ ∅ ∅ _ _));
    vm_compute; constructor.
Defined.
